(** * Abalone (open_spiel/games/abalone): move codec, validator, executor
      and game state, embedded from abalone.h / abalone.cc.

    Conventions of the embedding.
    - C++ [int] and [Action] (a 64-bit integer) values are integers of [Z];
      the decoder computes row and column in 64 bits and narrows them on
      each store into an [int] field of a Coordinate, which is written
      out ([to_int]).  Signed [int] arithmetic is
      modelled on [Z]: the development covers the executions in which no
      [int] operation overflows (coordinates of the 9x9 grid are far from
      the limits).
    - the [double] values of [Returns] are exact rationals; the one
      [float] product is rounded to single precision
      ([round_binary32]).
    - [board_] is the flat array of 81 cells, addressed by
      [row * kNumCols + column] exactly as [BoardAt] / [SetBoard] do; an
      access outside the array, an out-of-range table index and the use of
      a field that was never assigned are [Undefined]; [SpielFatalError]
      is [Fatal].
    - loops are recursions on their trip count; the one unbounded [while]
      loop takes a fuel argument and is shown to finish within it. *)

From Stdlib Require Import ZArith QArith Lia Bool Sorted.
From Stdlib Require Ascii String.
From stdpp Require Import base decidable option list.

Local Open Scope Z_scope.

(** ** Outcomes of a call *)

(** [Ok]: the call returns normally.  [Fatal]: it ends in
    [SpielFatalError].  [Undefined]: it leaves defined behaviour (access
    outside an array, use of an unassigned field).  [OutOfFuel] is not an
    outcome of the program: it marks the recursion budget of a modelled
    [while] loop running out. *)
Inductive result (A : Type) : Type :=
  | Ok (a : A)
  | Fatal
  | Undefined
  | OutOfFuel.
Arguments Ok {A} a.
Arguments Fatal {A}.
Arguments Undefined {A}.
Arguments OutOfFuel {A}.

#[global] Instance result_ret : MRet result := fun A a => Ok a.
#[global] Instance result_bind : MBind result := fun A B f r =>
  match r with
  | Ok a => f a
  | Fatal => Fatal
  | Undefined => Undefined
  | OutOfFuel => OutOfFuel
  end.

(** ** abalone.h: enumerations, constants and tables *)

Inductive Direction : Type :=
  | RIGHT | UP_RIGHT | UP_LEFT | LEFT | DOWN_LEFT | DOWN_RIGHT.

#[global] Instance Direction_eq_dec : EqDecision Direction.
Proof. solve_decision. Defined.

Definition Direction_Last : Z := 6.

(** The integer value of an enumerator. *)
Definition dir_index (d : Direction) : Z :=
  match d with
  | RIGHT => 0 | UP_RIGHT => 1 | UP_LEFT => 2
  | LEFT => 3 | DOWN_LEFT => 4 | DOWN_RIGHT => 5
  end.

(** [Direction(i)] for an index of the tables; [None] outside them. *)
Definition Direction_of_Z (i : Z) : option Direction :=
  match i with
  | 0 => Some RIGHT | 1 => Some UP_RIGHT | 2 => Some UP_LEFT
  | 3 => Some LEFT | 4 => Some DOWN_LEFT | 5 => Some DOWN_RIGHT
  | _ => None
  end.

Definition kNumPlayers : Z := 2.
Definition kNumRows : Z := 9.
Definition kNumCols : Z := 9.
Definition kNumCells : Z := kNumRows * kNumCols.
Definition kNumActionsPerDirection : Z := 5.
Definition kNumActionsPerCell : Z := Direction_Last * kNumActionsPerDirection.
Definition kHistoryMax : Z := 200.
Definition kMarblesToWin : Z := 6.

(** Modelled from the spec: the value of [outcome_] while the outcome is
    unset ([kInvalidPlayer]) and the id [CurrentPlayer] reports once the
    game is over ([kTerminalPlayerId]).  Both are declared in
    open_spiel/spiel_utils.h, which is not among the sources at hand; they
    carry the values of the OpenSpiel [PlayerId] enumeration.  The code
    below only compares them with each other and with the player ids 0
    and 1. *)
Definition kInvalidPlayer : Z := -3.
Definition kTerminalPlayerId : Z := -4.

Inductive CellState : Type :=
  | kInvalid | kEmpty | kPlayer1 | kPlayer2.

#[global] Instance CellState_eq_dec : EqDecision CellState.
Proof. solve_decision. Defined.

Record Coordinate : Type := mkCoordinate { m_row : Z; m_column : Z }.

#[global] Instance Coordinate_eq_dec : EqDecision Coordinate.
Proof. solve_decision. Defined.

Definition Offsets (d : Direction) : Coordinate :=
  match d with
  | RIGHT => mkCoordinate 0 1
  | UP_RIGHT => mkCoordinate (-1) 1
  | UP_LEFT => mkCoordinate (-1) 0
  | LEFT => mkCoordinate 0 (-1)
  | DOWN_LEFT => mkCoordinate 1 (-1)
  | DOWN_RIGHT => mkCoordinate 1 0
  end.

(** [Offsets[i]] for a computed index. *)
Definition Offsets_at (i : Z) : result Coordinate :=
  match Direction_of_Z i with
  | Some d => Ok (Offsets d)
  | None => Undefined
  end.

Definition Sisters (d : Direction) : Direction * Direction :=
  match d with
  | RIGHT => (UP_RIGHT, UP_LEFT)
  | UP_RIGHT => (UP_LEFT, LEFT)
  | UP_LEFT => (LEFT, DOWN_LEFT)
  | LEFT => (DOWN_LEFT, DOWN_RIGHT)
  | DOWN_LEFT => (DOWN_RIGHT, RIGHT)
  | DOWN_RIGHT => (RIGHT, UP_RIGHT)
  end.

Local Abbreviation cX := kInvalid (only parsing).
Local Abbreviation c_ := kEmpty (only parsing).
Local Abbreviation c1 := kPlayer1 (only parsing).
Local Abbreviation c2 := kPlayer2 (only parsing).

(** Rows i, h, ..., a of the initializer, flattened row by row as the
    constructor of [AbaloneState] stores them. *)
Definition ABALONE_INIT_CLASSIC : list CellState :=
  [ cX;  cX;  cX;  cX;  c2; c2; c2; c2; c2;
    cX;  cX;  cX;  c2; c2; c2; c2; c2; c2;
    cX;  cX;  c_;  c_;  c2; c2; c2; c_;  c_;
    cX;  c_;  c_;  c_;  c_;  c_;  c_;  c_;  c_;
    c_;  c_;  c_;  c_;  c_;  c_;  c_;  c_;  c_;
    c_;  c_;  c_;  c_;  c_;  c_;  c_;  c_;  cX;
    c_;  c_;  c1; c1; c1; c_;  c_;  cX;  cX;
    c1; c1; c1; c1; c1; c1; cX;  cX;  cX;
    c1; c1; c1; c1; c1; cX;  cX;  cX;  cX ].

Definition VALID_BOARD : list CellState :=
  [ cX;  cX;  cX;  cX;  c_;  c_;  c_;  c_;  c_;
    cX;  cX;  cX;  c_;  c_;  c_;  c_;  c_;  c_;
    cX;  cX;  c_;  c_;  c_;  c_;  c_;  c_;  c_;
    cX;  c_;  c_;  c_;  c_;  c_;  c_;  c_;  c_;
    c_;  c_;  c_;  c_;  c_;  c_;  c_;  c_;  c_;
    c_;  c_;  c_;  c_;  c_;  c_;  c_;  c_;  cX;
    c_;  c_;  c_;  c_;  c_;  c_;  c_;  cX;  cX;
    c_;  c_;  c_;  c_;  c_;  c_;  cX;  cX;  cX;
    c_;  c_;  c_;  c_;  c_;  cX;  cX;  cX;  cX ].

(** ** The game state *)

Record AbaloneState : Type := mkState {
  board_ : list CellState;
  current_player_ : Z;
  outcome_ : Z;
  num_moves_ : Z
}.

(** [AbaloneState::AbaloneState]: the classic layout, player zero first. *)
Definition NewInitialState : AbaloneState :=
  mkState ABALONE_INIT_CLASSIC 0 kInvalidPlayer 0.

(** [board_[i]], read. *)
Definition board_read (b : list CellState) (i : Z) : result CellState :=
  if bool_decide (0 <= i) then
    match b !! Z.to_nat i with
    | Some s => Ok s
    | None => Undefined
    end
  else Undefined.

(** [board_[i] = s]. *)
Definition board_write (b : list CellState) (i : Z) (s : CellState)
  : result (list CellState) :=
  if bool_decide (0 <= i < Z.of_nat (length b))
  then Ok (<[Z.to_nat i := s]> b)
  else Undefined.

Definition BoardAt (st : AbaloneState) (row column : Z) : result CellState :=
  board_read (board_ st) (row * kNumCols + column).

Definition SetBoard (st : AbaloneState) (row column : Z) (s : CellState)
  : result AbaloneState :=
  b ← board_write (board_ st) (row * kNumCols + column) s;
  Ok (mkState b (current_player_ st) (outcome_ st) (num_moves_ st)).

Definition IsTerminal (st : AbaloneState) : bool :=
  bool_decide (outcome_ st <> kInvalidPlayer)
  || bool_decide (num_moves_ st >= kHistoryMax).

Definition CurrentPlayer (st : AbaloneState) : Z :=
  if IsTerminal st then kTerminalPlayerId else current_player_ st.

Definition PlayerToState (player : Z) : result CellState :=
  if bool_decide (player = kInvalidPlayer) then Ok kInvalid
  else if bool_decide (player = 0) then Ok kPlayer1
  else if bool_decide (player = 1) then Ok kPlayer2
  else Fatal.

(** ** struct Move and the action codec *)

Record Move : Type := mkMove {
  m_direction : Direction;
  m_start : Coordinate;
  m_end : Coordinate
}.

#[global] Instance Move_eq_dec : EqDecision Move.
Proof. solve_decision. Defined.

(** Conversion of a 64-bit value to [int]. *)
Definition to_int (z : Z) : Z := (z + 2 ^ 31) mod 2 ^ 32 - 2 ^ 31.

Definition ActionToMove (moveId : Z) : result Move :=
  let remains := moveId in
  let moveType := Z.rem remains kNumActionsPerDirection in
  let remains := Z.quot remains kNumActionsPerDirection in
  let dirv := Z.rem remains Direction_Last in
  let remains := Z.quot remains Direction_Last in
  let column := Z.rem remains kNumCols in
  let remains := Z.quot remains kNumCols in
  let row := remains in
  match Direction_of_Z dirv with
  | None => Undefined
  | Some dir =>
    let offset := Offsets dir in
    let start := mkCoordinate (to_int row) (to_int column) in
    match moveType with
    | 0 =>
        Ok (mkMove dir start
              (mkCoordinate (to_int (row + m_row offset))
                            (to_int (column + m_column offset))))
    | 1 =>
        slide ← Offsets_at ((dir_index dir + 1) mod Direction_Last);
        Ok (mkMove dir start
              (mkCoordinate (to_int (row + m_row slide))
                            (to_int (column + m_column slide))))
    | 2 =>
        slide ← Offsets_at ((dir_index dir + 2) mod Direction_Last);
        Ok (mkMove dir start
              (mkCoordinate (to_int (row + m_row slide))
                            (to_int (column + m_column slide))))
    | 3 =>
        slide ← Offsets_at ((dir_index dir + 1) mod Direction_Last);
        Ok (mkMove dir start
              (mkCoordinate (to_int (row + 2 * m_row slide))
                            (to_int (column + 2 * m_column slide))))
    | 4 =>
        slide ← Offsets_at ((dir_index dir + 2) mod Direction_Last);
        Ok (mkMove dir start
              (mkCoordinate (to_int (row + 2 * m_row slide))
                            (to_int (column + 2 * m_column slide))))
    | _ => Undefined
    end
  end.

Definition MoveToAction (move : Move) : Z :=
  let result := m_row (m_start move) in
  let result := result * kNumCols in
  let result := result + m_column (m_start move) in
  let result := result * Direction_Last in
  let result := result + dir_index (m_direction move) in
  let result := result * 5 in
  let offset := Offsets (m_direction move) in
  let sr := m_row (m_start move) in
  let sc := m_column (m_start move) in
  let er := m_row (m_end move) in
  let ec := m_column (m_end move) in
  if bool_decide (sr + m_row offset <> er)
     || bool_decide (sc + m_column offset <> ec)
  then
    let slideF := Offsets (fst (Sisters (m_direction move))) in
    let slideB := Offsets (snd (Sisters (m_direction move))) in
    if bool_decide (sr + m_row slideF = er)
       && bool_decide (sc + m_column slideF = ec)
    then result + 1
    else if bool_decide (sr + m_row slideB = er)
            && bool_decide (sc + m_column slideB = ec)
    then result + 2
    else if bool_decide (sr + m_row slideF + m_row slideF = er)
            && bool_decide (sc + m_column slideF + m_column slideF = ec)
    then result + 3
    else if bool_decide (sr + m_row slideB + m_row slideB = er)
            && bool_decide (sc + m_column slideB + m_column slideB = ec)
    then result + 4
    else result
  else result.



(** ** Move validation *)

Definition in_grid (row column : Z) : bool :=
  negb (bool_decide (row < 0) || bool_decide (row >= kNumRows)
        || bool_decide (column < 0) || bool_decide (column >= kNumCols)).

Definition all_directions : list Direction :=
  [RIGHT; UP_RIGHT; UP_LEFT; LEFT; DOWN_LEFT; DOWN_RIGHT].

(** The body of the [for] loop of [_IsValidSlide], [n] iterations left. *)
Fixpoint IsValidSlide_loop (n : nat) (st : AbaloneState) (player : CellState)
    (direction : Coordinate) (slide_line slide_column : Z)
    (current_row current_column : Z) : result bool :=
  match n with
  | O => Ok true
  | S n' =>
    cur ← BoardAt st current_row current_column;
    if bool_decide (cur <> player) then Ok false else
    let destination_row := current_row + m_row direction in
    let destination_column := current_column + m_column direction in
    if bool_decide (destination_row < 0)
       || bool_decide (destination_row >= kNumRows) then Ok false else
    if bool_decide (destination_column < 0)
       || bool_decide (destination_column >= kNumCols) then Ok false else
    dst ← BoardAt st destination_row destination_column;
    if bool_decide (dst <> kEmpty) then Ok false else
    IsValidSlide_loop n' st player direction slide_line slide_column
      (current_row + slide_line) (current_column + slide_column)
  end.

Definition _IsValidSlide (move : Move) (st : AbaloneState) : result bool :=
  let sr := m_row (m_start move) in
  let sc := m_column (m_start move) in
  let er := m_row (m_end move) in
  let ec := m_column (m_end move) in
  player ← BoardAt st sr sc;
  if bool_decide (player = kEmpty) || bool_decide (player = kInvalid)
  then Ok false else
  let rSize := Z.abs (er - sr) + 1 in
  let cSize := Z.abs (ec - sc) + 1 in
  if bool_decide (rSize > 3) then Ok false else
  if bool_decide (cSize > 3) then Ok false else
  let slide_line := Z.max (Z.min (er - sr) 1) (-1) in
  let slide_column := Z.max (Z.min (ec - sc) 1) (-1) in
  let valid_direction :=
    existsb (fun dir =>
               bool_decide (m_row (Offsets dir) = slide_line)
               && bool_decide (m_column (Offsets dir) = slide_column))
            all_directions in
  if negb valid_direction then Ok false else
  let direction := Offsets (m_direction move) in
  let size := Z.max cSize rSize in
  IsValidSlide_loop (Z.to_nat size) st player direction
    slide_line slide_column sr sc.

(** The loop of [IsValid] that fills [line_content], [n] cells left. *)
Fixpoint read_line (n : nat) (st : AbaloneState)
    (current_row current_column vectorR vectorC : Z)
  : result (list CellState) :=
  match n with
  | O => Ok []
  | S n' =>
    x ← (if bool_decide (current_row >= 0) && bool_decide (current_row < kNumRows)
            && bool_decide (current_column >= 0)
            && bool_decide (current_column < kNumCols)
         then BoardAt st current_row current_column
         else Ok kInvalid);
    rest ← read_line n' st (current_row + vectorR) (current_column + vectorC)
              vectorR vectorC;
    Ok (x :: rest)
  end.

(** [line_content[i]]. *)
Definition line_at (line_content : list CellState) (i : nat) : CellState :=
  nth i line_content kInvalid.

Definition cell_eqb (a b : CellState) : bool := bool_decide (a = b).

(** The chain of pattern tests that ends [IsValid]. *)
Definition line_tests (player : CellState) (lc : list CellState) : bool :=
  let opponent :=
    if cell_eqb player kPlayer1 then kPlayer2 else kPlayer1 in
  if cell_eqb (line_at lc 1) kEmpty then true else
  if cell_eqb (line_at lc 1) player && cell_eqb (line_at lc 2) kEmpty
  then true else
  if cell_eqb (line_at lc 1) player && cell_eqb (line_at lc 2) opponent
     && (cell_eqb (line_at lc 3) kInvalid || cell_eqb (line_at lc 3) kEmpty)
  then true else
  if cell_eqb (line_at lc 1) player && cell_eqb (line_at lc 2) player
     && cell_eqb (line_at lc 3) kEmpty
  then true else
  if cell_eqb (line_at lc 1) player && cell_eqb (line_at lc 2) player
     && cell_eqb (line_at lc 3) opponent
     && (cell_eqb (line_at lc 4) kInvalid || cell_eqb (line_at lc 4) kEmpty)
  then true else
  if cell_eqb (line_at lc 1) player && cell_eqb (line_at lc 2) player
     && cell_eqb (line_at lc 3) opponent && cell_eqb (line_at lc 4) opponent
     && (cell_eqb (line_at lc 5) kInvalid || cell_eqb (line_at lc 5) kEmpty)
  then true else
  false.

Definition IsValid (move : Move) (st : AbaloneState) : result bool :=
  let sr := m_row (m_start move) in
  let sc := m_column (m_start move) in
  let er := m_row (m_end move) in
  let ec := m_column (m_end move) in
  if bool_decide (sr < 0) || bool_decide (sr >= kNumRows) then Ok false else
  if bool_decide (sc < 0) || bool_decide (sc >= kNumCols) then Ok false else
  if bool_decide (er < 0) || bool_decide (er >= kNumRows) then Ok false else
  if bool_decide (ec < 0) || bool_decide (ec >= kNumCols) then Ok false else
  player ← BoardAt st sr sc;
  mine ← PlayerToState (CurrentPlayer st);
  if bool_decide (player <> mine) then Ok false else
  let vectorR := er - sr in
  let vectorC := ec - sc in
  let direction := Offsets (m_direction move) in
  if bool_decide (m_row direction <> vectorR)
     || bool_decide (m_column direction <> vectorC)
  then _IsValidSlide move st else
  line_content ← read_line 6 st sr sc vectorR vectorC;
  Ok (line_tests player line_content).

(** ** Move execution *)

(** The body of the [for] loop of [_ApplyParallelMove], [n] iterations
    left. *)
Fixpoint ApplyParallelMove_loop (n : nat) (st : AbaloneState)
    (player : CellState) (_dr _dc slide_row slide_column r c : Z)
  : result AbaloneState :=
  match n with
  | O => Ok st
  | S n' =>
    if bool_decide (r < 0) || bool_decide (r >= kNumRows)
       || bool_decide (c < 0) || bool_decide (c >= kNumCols) then Ok st else
    id ← BoardAt st r c;
    if bool_decide (id <> player) then Ok st else
    let dst_r := r + _dr in
    let dst_c := c + _dc in
    if bool_decide (dst_r < 0) || bool_decide (dst_r >= kNumRows)
       || bool_decide (dst_c < 0) || bool_decide (dst_c >= kNumCols)
    then Ok st else
    nextId ← BoardAt st dst_r dst_c;
    if bool_decide (nextId <> kEmpty) then Ok st else
    st1 ← SetBoard st dst_r dst_c player;
    st2 ← SetBoard st1 r c kEmpty;
    ApplyParallelMove_loop n' st2 player _dr _dc slide_row slide_column
      (r + slide_row) (c + slide_column)
  end.

Definition _ApplyParallelMove (move : Move) (st : AbaloneState) (_dr _dc : Z)
  : result AbaloneState :=
  let sr := m_row (m_start move) in
  let sc := m_column (m_start move) in
  let er := m_row (m_end move) in
  let ec := m_column (m_end move) in
  let slide_row := Z.max (Z.min (er - sr) 1) (-1) in
  let slide_column := Z.max (Z.min (ec - sc) 1) (-1) in
  let rSize := Z.abs (er - sr) in
  let cSize := Z.abs (ec - sc) in
  let size := Z.max rSize cSize in
  player ← BoardAt st sr sc;
  ApplyParallelMove_loop (Z.to_nat (size + 1)) st player _dr _dc
    slide_row slide_column sr sc.

(** The [while] loop of [_ApplySingleMove]; [fuel] bounds the number of
    iterations the model follows. *)
Fixpoint ApplySingleMove_loop (fuel : nat) (st : AbaloneState)
    (_dr _dc r c : Z) (nextId : CellState) : result AbaloneState :=
  match fuel with
  | O => OutOfFuel
  | S fuel' =>
    if bool_decide (r >= 0) && bool_decide (r < kNumRows)
       && bool_decide (c >= 0) && bool_decide (c < kNumCols)
    then
      currentId ← BoardAt st r c;
      if bool_decide (currentId = kInvalid) then Ok st else
      st1 ← SetBoard st r c nextId;
      if bool_decide (currentId = kEmpty) then Ok st1 else
      ApplySingleMove_loop fuel' st1 _dr _dc (r + _dr) (c + _dc) currentId
    else Ok st
  end.

(** A walk by a direction offset leaves the 9x9 grid within 9 steps, so
    ten rounds of the loop are enough. *)
Definition single_move_fuel : nat := 10.

Definition _ApplySingleMove (move : Move) (st : AbaloneState) (_dr _dc : Z)
  : result AbaloneState :=
  ApplySingleMove_loop single_move_fuel st _dr _dc
    (m_row (m_start move)) (m_column (m_start move)) kEmpty.

Definition Apply (move : Move) (st : AbaloneState) : result AbaloneState :=
  let offset := Offsets (m_direction move) in
  let vr := m_row (m_end move) - m_row (m_start move) in
  let vc := m_column (m_end move) - m_column (m_start move) in
  if bool_decide (m_row offset <> vr) || bool_decide (m_column offset <> vc)
  then _ApplyParallelMove move st (m_row offset) (m_column offset)
  else _ApplySingleMove move st (m_row offset) (m_column offset).

(** ** Scoring and the transition of the game state *)

(** The cells in the order the two nested loops of [Returns] visit
    them. *)
Definition scan_order : list (Z * Z) :=
  line ← seqZ 0 kNumRows; column ← seqZ 0 kNumCols; [(line, column)].

Fixpoint count_balls (cells : list (Z * Z)) (st : AbaloneState)
    (ballCount : Z * Z) : result (Z * Z) :=
  match cells with
  | [] => Ok ballCount
  | (line, column) :: rest =>
    slot ← BoardAt st line column;
    count_balls rest st
      (if bool_decide (slot = kPlayer1)
       then (fst ballCount + 1, snd ballCount)
       else if bool_decide (slot = kPlayer2)
       then (fst ballCount, snd ballCount + 1)
       else ballCount)
  end.

(** Single precision.  The number [n * 2^-e] rounded to the nearest
    [float] (IEEE binary32: a significand of 24 bits, ties to the even
    significand), as an exact rational.  Overflow and the subnormal range
    are not modelled: the products the program forms lie between 2^-4 and
    2^4 in magnitude, or are zero. *)
Definition round_binary32 (n e : Z) : Q :=
  let a := Z.abs n in
  let s := Z.log2 a - 23 in
  if bool_decide (s <= 0) then Qmake n (Z.to_pos (2 ^ e))
  else
    let q := a / 2 ^ s in
    let r := a mod 2 ^ s in
    let half := 2 ^ (s - 1) in
    let q' :=
      if bool_decide (half < r) || (bool_decide (r = half) && Z.odd q)
      then q + 1 else q in
    Qmake (Z.sgn n * q' * 2 ^ s) (Z.to_pos (2 ^ e)).

(** The reward per marble, [const float marble_reward = 0.1]: the
    [float] nearest to 0.1, which is 13421773 * 2^-27. *)
Definition marble_reward_significand : Z := 13421773.
Definition marble_reward_exponent : Z := 27.
Definition marble_reward : Q :=
  Qmake marble_reward_significand
        (Z.to_pos (2 ^ marble_reward_exponent)).

(** [balance * marble_reward]: the [int] is converted to [float] (exactly,
    for the balances of a board), the product is rounded to [float], and
    the widening to the [double] of the returned vector is exact. *)
Definition times_marble_reward (balance : Z) : Q :=
  round_binary32 (balance * marble_reward_significand)
                 marble_reward_exponent.

Definition Returns (st : AbaloneState) : result (Q * Q) :=
  if bool_decide (outcome_ st <> kInvalidPlayer)
     && bool_decide (outcome_ st = 0)
  then Ok (1%Q, (-1)%Q)
  else if bool_decide (outcome_ st <> kInvalidPlayer)
          && bool_decide (outcome_ st = 1)
  then Ok ((-1)%Q, 1%Q)
  else
    ballCount ← count_balls scan_order st (0, 0);
    if bool_decide (fst ballCount <= 14 - kMarblesToWin)
    then Ok ((-1)%Q, 1%Q)
    else if bool_decide (snd ballCount <= 14 - kMarblesToWin)
    then Ok (1%Q, (-1)%Q)
    else
      let marble_balance := (14 - snd ballCount) - (14 - fst ballCount) in
      Ok (times_marble_reward marble_balance,
          times_marble_reward (- marble_balance)).

(** The balances of two players with at most 14 marbles each. *)
Definition balances : list Z := seqZ (-14) 29.

(** [returns[player]] on the two-element vector. *)
Definition returns_at (returns : Q * Q) (player : Z) : result Q :=
  if bool_decide (player = 0) then Ok (fst returns)
  else if bool_decide (player = 1) then Ok (snd returns)
  else Undefined.

Definition DoApplyAction (action : Z) (st : AbaloneState)
  : result AbaloneState :=
  move ← ActionToMove action;
  valid ← IsValid move st;
  if valid : bool then
    st1 ← Apply move st;
    returns ← Returns st1;
    mine ← returns_at returns (current_player_ st1);
    let outcome :=
      if Qeq_bool mine 1 then current_player_ st1 else outcome_ st1 in
    Ok (mkState (board_ st1) (1 - current_player_ st1) outcome
          (num_moves_ st1 + 1))
  else
    Ok (mkState (board_ st) (current_player_ st) (1 - current_player_ st)
          (num_moves_ st)).

(** ** Fields of an action id *)

(** The decoder on the fields of an id. *)
Definition decode_fields (row col : Z) (dir : Direction) (k : Z) : Move :=
  let off :=
    match k with
    | 0 => Offsets dir
    | 1 | 3 => Offsets (fst (Sisters dir))
    | _ => Offsets (snd (Sisters dir))
    end in
  let n := if bool_decide (3 <= k) then 2 else 1 in
  mkMove dir (mkCoordinate row col)
    (mkCoordinate (row + n * m_row off) (col + n * m_column off)).


(** ** Vocabulary of the statements *)

(** The board is the array of [kNumCells] cells. *)
Definition wf_board (st : AbaloneState) : Prop :=
  length (board_ st) = Z.to_nat kNumCells.

(** A coordinate that addresses a cell of the 9x9 grid. *)
Definition InGrid (p : Coordinate) : Prop :=
  0 <= m_row p < kNumRows /\ 0 <= m_column p < kNumCols.

(** The content of a grid position; a position outside the grid reads as
    [kInvalid]. *)
Definition CellAt (st : AbaloneState) (row column : Z) : CellState :=
  if in_grid row column
  then default kInvalid (board_ st !! Z.to_nat (row * kNumCols + column))
  else kInvalid.

(** The marble of a player. *)
Definition marble_of (player : Z) : CellState :=
  if bool_decide (player = 0) then kPlayer1 else kPlayer2.

(** The line of [n] positions read from (row, column) by steps of
    (vr, vc). *)
Fixpoint line_of (n : nat) (st : AbaloneState) (row column vr vc : Z)
  : list CellState :=
  match n with
  | O => []
  | S n' => CellAt st row column
            :: line_of n' st (row + vr) (column + vc) vr vc
  end.

Definition empty_or_invalid (s : CellState) : Prop :=
  s = kInvalid \/ s = kEmpty.

(** The six patterns of a legal in-line move, on positions 1 to 5 of the
    line that starts at the moved marble. *)
Definition inline_patterns (own opp : CellState) (l : list CellState) : Prop :=
  line_at l 1 = kEmpty
  \/ (line_at l 1 = own /\ line_at l 2 = kEmpty)
  \/ (line_at l 1 = own /\ line_at l 2 = opp /\ empty_or_invalid (line_at l 3))
  \/ (line_at l 1 = own /\ line_at l 2 = own /\ line_at l 3 = kEmpty)
  \/ (line_at l 1 = own /\ line_at l 2 = own /\ line_at l 3 = opp
      /\ empty_or_invalid (line_at l 4))
  \/ (line_at l 1 = own /\ line_at l 2 = own /\ line_at l 3 = opp
      /\ line_at l 4 = opp /\ empty_or_invalid (line_at l 5)).

(** The slide rule in the words of the specification: both extents
    of the line are at most 3 cells, the normalized step from start toward
    end is one of the six offsets, and each of the max(extent) positions
    walked from start by that step holds the mover's marble while its
    translation by the offset of the move direction is in the grid and
    Empty. *)
Definition slide_legal (st : AbaloneState) (move : Move) : Prop :=
  let sr := m_row (m_start move) in
  let sc := m_column (m_start move) in
  let vr := m_row (m_end move) - sr in
  let vc := m_column (m_end move) - sc in
  let off := Offsets (m_direction move) in
  Z.abs vr + 1 <= 3 /\ Z.abs vc + 1 <= 3 /\
  (exists d, Offsets d = mkCoordinate (Z.sgn vr) (Z.sgn vc)) /\
  forall i, 0 <= i < Z.max (Z.abs vr + 1) (Z.abs vc + 1) ->
    let r := sr + i * Z.sgn vr in
    let c := sc + i * Z.sgn vc in
    CellAt st r c = marble_of (current_player_ st) /\
    (0 <= r + m_row off < kNumRows /\ 0 <= c + m_column off < kNumCols) /\
    CellAt st (r + m_row off) (c + m_column off) = kEmpty.

(** The positions walked by the slide validator all lie in the grid. *)
Definition walk_in_grid (move : Move) : Prop :=
  let sr := m_row (m_start move) in
  let sc := m_column (m_start move) in
  let vr := m_row (m_end move) - sr in
  let vc := m_column (m_end move) - sc in
  forall i, 0 <= i < Z.max (Z.abs vr + 1) (Z.abs vc + 1) ->
    0 <= sr + i * Z.sgn vr < kNumRows /\ 0 <= sc + i * Z.sgn vc < kNumCols.

(** A board on which a slide walk runs past column 9 of row f: marbles of
    player 0 on d8, e9 and e1, nothing else. *)
Definition board_wrap : list CellState :=
  [ cX;  cX;  cX;  cX;  c_;  c_;  c_;  c_;  c_;
    cX;  cX;  cX;  c_;  c_;  c_;  c_;  c_;  c_;
    cX;  cX;  c_;  c_;  c_;  c_;  c_;  c_;  c_;
    cX;  c_;  c_;  c_;  c_;  c_;  c_;  c_;  c_;
    c1;  c_;  c_;  c_;  c_;  c_;  c_;  c_;  c1;
    c_;  c_;  c_;  c_;  c_;  c_;  c_;  c1;  cX;
    c_;  c_;  c_;  c_;  c_;  c_;  c_;  cX;  cX;
    c_;  c_;  c_;  c_;  c_;  c_;  cX;  cX;  cX;
    c_;  c_;  c_;  c_;  c_;  cX;  cX;  cX;  cX ].

(** The number of cells of a board in state [s]. *)
Definition count_cells (s : CellState) (b : list CellState) : Z :=
  Z.of_nat (length (filter (fun x => x = s) b)).

(** An upper bound on the number of grid positions a walk from
    (row, column) along direction [d] still visits. *)
Definition steps_left (d : Direction) (row column : Z) : Z :=
  match d with
  | RIGHT | UP_RIGHT => kNumCols - column
  | LEFT | DOWN_LEFT => column + 1
  | UP_LEFT => row + 1
  | DOWN_RIGHT => kNumRows - row
  end.

(** The states a game can be in: the initial state and whatever
    [DoApplyAction] returns from one of them. *)
Inductive reachable : AbaloneState -> Prop :=
  | reachable_init : reachable NewInitialState
  | reachable_step st action st' :
      reachable st -> DoApplyAction action st = Ok st' -> reachable st'.

(** A player id is on move. *)
Definition player_ok (st : AbaloneState) : Prop :=
  current_player_ st = 0 \/ current_player_ st = 1.

(** The turn passes: the current player toggles and the counter of moves
    grows by one. *)
Definition turn_passes (action : Z) (st : AbaloneState) : Prop :=
  exists st',
    DoApplyAction action st = Ok st' /\
    current_player_ st' = 1 - current_player_ st /\
    num_moves_ st' = num_moves_ st + 1.

Definition is_marble (s : CellState) : Prop := s = kPlayer1 \/ s = kPlayer2.

(** The positions 0 to [n] of the line from (row, column) along (dr, dc)
    after a shift by one step: the first is Empty, each of the others holds
    what the position before it held, and no other cell has changed. *)
Definition shifted (st st' : AbaloneState) (row column dr dc n : Z) : Prop :=
  CellAt st' row column = kEmpty /\
  (forall j, 1 <= j <= n ->
     CellAt st' (row + j * dr) (column + j * dc)
     = CellAt st (row + (j - 1) * dr) (column + (j - 1) * dc)) /\
  (forall r c,
     (forall j, 0 <= j <= n -> ~ (r = row + j * dr /\ c = column + j * dc)) ->
     CellAt st' r c = CellAt st r c).

(** 1 when the two cell states are equal, 0 otherwise. *)
Definition same (a b : CellState) : Z := if bool_decide (a = b) then 1 else 0.

Definition marbles (st : AbaloneState) : Z :=
  count_cells kPlayer1 (board_ st) + count_cells kPlayer2 (board_ st).

(** The outcome of an in-line push of the run of [k] marbles at the start
    of the move: the marbles never get more; either the position after
    the run is Empty, both players keep their marbles and the run is
    shifted onto it, or that position reads Invalid, the front marble, of
    the opponent, is gone and the rest of the run is shifted. *)
Definition push_outcome (st st' : AbaloneState) (move : Move) (k : Z) : Prop :=
  let sr := m_row (m_start move) in
  let sc := m_column (m_start move) in
  let dr := m_row (Offsets (m_direction move)) in
  let dc := m_column (Offsets (m_direction move)) in
  let own := marble_of (current_player_ st) in
  let opp := marble_of (1 - current_player_ st) in
  1 <= k <= 5 /\
  (forall j, 0 <= j < k -> is_marble (CellAt st (sr + j * dr) (sc + j * dc))) /\
  marbles st' <= marbles st /\
  ((CellAt st (sr + k * dr) (sc + k * dc) = kEmpty /\
    count_cells kPlayer1 (board_ st') = count_cells kPlayer1 (board_ st) /\
    count_cells kPlayer2 (board_ st') = count_cells kPlayer2 (board_ st) /\
    shifted st st' sr sc dr dc k)
   \/
   (CellAt st (sr + k * dr) (sc + k * dc) = kInvalid /\
    CellAt st (sr + (k - 1) * dr) (sc + (k - 1) * dc) = opp /\
    count_cells own (board_ st') = count_cells own (board_ st) /\
    count_cells opp (board_ st') = count_cells opp (board_ st) - 1 /\
    marbles st' = marbles st - 1 /\
    shifted st st' sr sc dr dc (k - 1))).

(** A board with a push off the hex board inside the grid: player 0 on
    a3 and a4, player 1 on a5, and the Invalid cell a6 behind it. *)
Definition board_edge : list CellState :=
  [ cX;  cX;  cX;  cX;  c_;  c_;  c_;  c_;  c_;
    cX;  cX;  cX;  c_;  c_;  c_;  c_;  c_;  c_;
    cX;  cX;  c_;  c_;  c_;  c_;  c_;  c_;  c_;
    cX;  c_;  c_;  c_;  c_;  c_;  c_;  c_;  c_;
    c_;  c_;  c_;  c_;  c_;  c_;  c_;  c_;  c_;
    c_;  c_;  c_;  c_;  c_;  c_;  c_;  c_;  cX;
    c_;  c_;  c_;  c_;  c_;  c_;  c_;  cX;  cX;
    c_;  c_;  c_;  c_;  c_;  c_;  cX;  cX;  cX;
    c_;  c_;  c1;  c1;  c2;  cX;  cX;  cX;  cX ].

(** A board on which a slide walk runs past the last row: marbles of
    player 0 on b3 and a2, nothing else. *)
Definition board_past_end : list CellState :=
  [ cX;  cX;  cX;  cX;  c_;  c_;  c_;  c_;  c_;
    cX;  cX;  cX;  c_;  c_;  c_;  c_;  c_;  c_;
    cX;  cX;  c_;  c_;  c_;  c_;  c_;  c_;  c_;
    cX;  c_;  c_;  c_;  c_;  c_;  c_;  c_;  c_;
    c_;  c_;  c_;  c_;  c_;  c_;  c_;  c_;  c_;
    c_;  c_;  c_;  c_;  c_;  c_;  c_;  c_;  cX;
    c_;  c_;  c_;  c_;  c_;  c_;  c_;  cX;  cX;
    c_;  c_;  c1;  c_;  c_;  c_;  cX;  cX;  cX;
    c_;  c1;  c_;  c_;  c_;  cX;  cX;  cX;  cX ].

(** The concrete positions used below. *)
Definition state_wrap : AbaloneState := mkState board_wrap 0 kInvalidPlayer 0.
Definition move_wrap : Move :=
  mkMove LEFT (mkCoordinate 5 7) (mkCoordinate 3 8).
(** [state_wrap] with the marble on e1 taken off. *)
Definition state_wrap_e1_empty : AbaloneState :=
  mkState (<[36%nat := kEmpty]> board_wrap) 0 kInvalidPlayer 0.
Definition state_edge : AbaloneState := mkState board_edge 0 kInvalidPlayer 0.
Definition move_edge : Move :=
  mkMove RIGHT (mkCoordinate 8 2) (mkCoordinate 8 3).
Definition move_c5_c6 : Move :=
  mkMove RIGHT (mkCoordinate 6 4) (mkCoordinate 6 5).
Definition move_slide_c5_c4 : Move :=
  mkMove UP_RIGHT (mkCoordinate 6 4) (mkCoordinate 6 3).

(** ** Enumeration of the legal actions *)

(** The [for] loop of [LegalActions], [n] ids left, [i] the next one. *)
Fixpoint LegalActions_loop (n : nat) (i : Z) (st : AbaloneState)
    (moves : list Z) : result (list Z) :=
  match n with
  | O => Ok moves
  | S n' =>
    move ← ActionToMove i;
    valid ← IsValid move st;
    LegalActions_loop n' (i + 1) st
      (if valid : bool then moves ++ [i] else moves)
  end.

Definition LegalActions (st : AbaloneState) : result (list Z) :=
  if IsTerminal st then Ok []
  else LegalActions_loop (Z.to_nat (kNumCells * kNumActionsPerCell)) 0 st [].

(** An id whose move the validator accepts. *)
Definition legal_action (st : AbaloneState) (action : Z) : Prop :=
  exists m, ActionToMove action = Ok m /\ IsValid m st = Ok true.

(** The cell of a flat index of the board. *)
Definition cell_of_index (i : Z) : Z * Z := (i / kNumCols, i mod kNumCols).

(** The state whose board is the mask [VALID_BOARD] of the header. *)
Definition mask_state : AbaloneState := mkState VALID_BOARD 0 kInvalidPlayer 0.

(** What holds of every state of a game. *)
Definition game_inv (st : AbaloneState) : Prop :=
  wf_board st /\ player_ok st /\
  0 <= num_moves_ st <= kHistoryMax /\
  (outcome_ st = kInvalidPlayer \/ outcome_ st = 1 - current_player_ st) /\
  (forall r c, CellAt st r c = kInvalid <-> CellAt mask_state r c = kInvalid) /\
  count_cells kPlayer1 (board_ st) <= 14 /\
  count_cells kPlayer2 (board_ st) <= 14 /\
  (outcome_ st = kInvalidPlayer ->
   14 - kMarblesToWin < count_cells kPlayer1 (board_ st) /\
   14 - kMarblesToWin < count_cells kPlayer2 (board_ st)).

(** The board after the slide of a line: each of the [n] positions
    walked from (row, column) by the step (sl, sc) is Empty, its
    translation by (dr, dc) holds [player], and no other cell has
    changed. *)
Definition slid (st st' : AbaloneState) (player : CellState)
    (row column sl sc dr dc n : Z) : Prop :=
  (forall i, 0 <= i < n ->
     CellAt st' (row + i * sl) (column + i * sc) = kEmpty /\
     CellAt st' (row + i * sl + dr) (column + i * sc + dc) = player) /\
  (forall r c,
     (forall i, 0 <= i < n ->
        ~ (r = row + i * sl /\ c = column + i * sc) /\
        ~ (r = row + i * sl + dr /\ c = column + i * sc + dc)) ->
     CellAt st' r c = CellAt st r c).

(** ** Textual notation of a move *)

(** A [std::string] is a [String.string]; a [char] is read as an [int]
    through [char_value], in which the signedness of [char], left to the
    implementation, is the parameter [char_signed]. *)
Definition char_code (a : Ascii.ascii) : Z := Z.of_N (Ascii.N_of_ascii a).

Definition char_value (char_signed : bool) (a : Ascii.ascii) : Z :=
  if char_signed && bool_decide (128 <= char_code a)
  then char_code a - 256 else char_code a.

(** [tolower] of the C library in the "C" locale, the one a program that
    never calls [setlocale] runs in.  Its argument must be [EOF] (-1) or
    the value of an [unsigned char]. *)
Definition tolower (c : Z) : result Z :=
  if bool_decide (c = -1) then Ok (-1)
  else if bool_decide (0 <= c <= 255)
  then Ok (if bool_decide (65 <= c <= 90) then c + 32 else c)
  else Undefined.

(** The loop [_str[i] = tolower(_str[i])] on the values of the
    characters. *)
Fixpoint lower_all (cs : list Z) : result (list Z) :=
  match cs with
  | [] => Ok []
  | c :: rest =>
    c' ← tolower c;
    rest' ← lower_all rest;
    Ok (c' :: rest')
  end.

(** [Move()]: every field zero. *)
Definition Move_default : Move :=
  mkMove RIGHT (mkCoordinate 0 0) (mkCoordinate 0 0).

(** The recurring parse of a letter and a digit into a coordinate of the
    grid; rows are stored in inverted order. *)
Definition parse_coordinate (letter digit : Z) : option Coordinate :=
  let rowIndex := (kNumRows - 1) - (letter - 97) in
  let colIndex := digit - 49 in
  if bool_decide (rowIndex < 0) || bool_decide (rowIndex >= kNumRows)
     || bool_decide (colIndex < 0) || bool_decide (colIndex >= kNumCols)
  then None
  else Some (mkCoordinate rowIndex colIndex).

(** The [for] loop over the directions: the first one whose offset is
    (vl, vc). *)
Fixpoint find_direction (dirs : list Direction) (vl vc : Z)
  : option Direction :=
  match dirs with
  | [] => None
  | dir :: rest =>
    if bool_decide (vl = m_row (Offsets dir))
       && bool_decide (vc = m_column (Offsets dir))
    then Some dir
    else find_direction rest vl vc
  end.

Definition from_string (char_signed : bool) (_str : String.string)
  : result (bool * Move) :=
  let chars := String.list_ascii_of_string _str in
  if bool_decide (length chars <> 4%nat) && bool_decide (length chars <> 6%nat)
  then Ok (false, Move_default) else
  cs ← lower_all (map (char_value char_signed) chars);
  let at_ (i : nat) := nth i cs 0 in
  match parse_coordinate (at_ 0%nat) (at_ 1%nat) with
  | None => Ok (false, Move_default)
  | Some start =>
    match parse_coordinate (at_ 2%nat) (at_ 3%nat) with
    | None => Ok (false, Move_default)
    | Some end_ =>
      if bool_decide (length chars = 4%nat) then
        let vl := m_row end_ - m_row start in
        let vc := m_column end_ - m_column start in
        match find_direction all_directions vl vc with
        | Some dir => Ok (true, mkMove dir start end_)
        | None => Ok (false, Move_default)
        end
      else
        let start_slide := end_ in
        let slide_line := m_row start_slide - m_row start in
        let slide_column := m_column start_slide - m_column start in
        if bool_decide (Z.max (Z.abs slide_line) (Z.abs slide_column) > 2)
        then Ok (false, Move_default) else
        let slide_line := Z.max (Z.min slide_line 1) (-1) in
        let slide_column := Z.max (Z.min slide_column 1) (-1) in
        let slide := mkCoordinate slide_line slide_column in
        match parse_coordinate (at_ 4%nat) (at_ 5%nat) with
        | None => Ok (false, Move_default)
        | Some end_ =>
          let vl := m_row end_ - m_row start in
          let vc := m_column end_ - m_column start in
          match find_direction all_directions vl vc with
          | Some dir =>
            if bool_decide (Offsets (fst (Sisters dir)) = slide)
               || bool_decide (Offsets (snd (Sisters dir)) = slide)
            then Ok (true, mkMove dir start start_slide)
            else Ok (true, mkMove dir start_slide start)
          | None => Ok (false, Move_default)
          end
        end
    end
  end.

(** The character that [%c] prints for an [int]: its value as an
    [unsigned char]. *)
Definition char_of_int (z : Z) : Ascii.ascii :=
  Ascii.ascii_of_N (Z.to_N (z mod 256)).

(** [std::string(buff)]: the characters up to the first NUL. *)
Fixpoint c_str (l : list Ascii.ascii) : list Ascii.ascii :=
  match l with
  | [] => []
  | a :: rest => if bool_decide (char_code a = 0) then [] else a :: c_str rest
  end.

Definition to_string (move : Move) : String.string :=
  let offset := Offsets (m_direction move) in
  let vl := m_row (m_end move) - m_row (m_start move) in
  let vc := m_column (m_end move) - m_column (m_start move) in
  let sr := m_row (m_start move) in
  let sc := m_column (m_start move) in
  let er := m_row (m_end move) in
  let ec := m_column (m_end move) in
  if bool_decide (m_row offset <> vl) || bool_decide (m_column offset <> vc)
  then
    String.string_of_list_ascii
      (c_str [ char_of_int (97 + ((kNumRows - 1) - sr));
               char_of_int (49 + sc);
               char_of_int (97 + ((kNumRows - 1) - er));
               char_of_int (49 + ec);
               char_of_int (97 + ((kNumRows - 1) - (sr + m_row offset)));
               char_of_int (49 + sc + m_column offset) ])
  else
    String.string_of_list_ascii
      (c_str [ char_of_int (97 + ((kNumRows - 1) - sr));
               char_of_int (49 + sc);
               char_of_int (97 + ((kNumRows - 1) - er));
               char_of_int (49 + ec) ]).

(** [AbaloneGame::ActionToString]. *)
Definition ActionToString (action_id : Z) : result String.string :=
  move ← ActionToMove action_id;
  Ok (to_string move).

(** A move whose text names cells of the grid only. *)
Definition printable (move : Move) : bool :=
  let offset := Offsets (m_direction move) in
  in_grid (m_row (m_start move)) (m_column (m_start move))
  && in_grid (m_row (m_end move)) (m_column (m_end move))
  && (negb (bool_decide (m_row offset
                         <> m_row (m_end move) - m_row (m_start move))
            || bool_decide (m_column offset
                            <> m_column (m_end move)
                               - m_column (m_start move)))
      || in_grid (m_row (m_start move) + m_row offset)
                 (m_column (m_start move) + m_column offset)).

(** The text of the move of an id parses back to the move, when the move
    is printable. *)
Definition text_round_trip (char_signed : bool) (action : Z) : bool :=
  match ActionToMove action with
  | Ok m =>
    if printable m then
      match from_string char_signed (to_string m) with
      | Ok (true, m') => bool_decide (m' = m)
      | _ => false
      end
    else true
  | _ => true
  end.

(** The line of a slide written from its other end. *)
Definition reversed_line (move : Move) : Move :=
  mkMove (m_direction move) (m_end move) (m_start move).

Definition is_slide (move : Move) : bool :=
  bool_decide (m_row (Offsets (m_direction move))
               <> m_row (m_end move) - m_row (m_start move))
  || bool_decide (m_column (Offsets (m_direction move))
                  <> m_column (m_end move) - m_column (m_start move)).

(** The text of the slide of an id, written from the other end of the
    line, parses to the move of the id. *)
Definition text_far_end (char_signed : bool) (action : Z) : bool :=
  match ActionToMove action with
  | Ok m =>
    if is_slide m && printable (reversed_line m) then
      match from_string char_signed (to_string (reversed_line m)) with
      | Ok (true, m') => bool_decide (m' = m)
      | _ => false
      end
    else true
  | _ => true
  end.

(** * Properties *)

(** ** Codec round trip *)

Ltac unfold_consts :=
  unfold kNumCells, kNumActionsPerCell, kNumRows, kNumCols, Direction_Last,
    kNumActionsPerDirection, kHistoryMax, kInvalidPlayer, kTerminalPlayerId,
    kMarblesToWin in *.

Lemma to_int_small z : - 2 ^ 31 <= z < 2 ^ 31 -> to_int z = z.
Proof.
  intros Hz. unfold to_int.
  rewrite Z.mod_small by lia. lia.
Qed.

(** Field decomposition of a non-negative action id. *)
Lemma action_fields a :
  0 <= a ->
  exists row col d k,
    0 <= row /\ 0 <= col < kNumCols /\
    0 <= d < Direction_Last /\ 0 <= k < kNumActionsPerDirection /\
    a = ((row * kNumCols + col) * Direction_Last + d)
        * kNumActionsPerDirection + k /\
    Z.rem a kNumActionsPerDirection = k /\
    Z.rem (Z.quot a kNumActionsPerDirection) Direction_Last = d /\
    Z.rem (Z.quot (Z.quot a kNumActionsPerDirection) Direction_Last)
          kNumCols = col /\
    Z.quot (Z.quot (Z.quot a kNumActionsPerDirection) Direction_Last)
           kNumCols = row.
Proof.
  unfold kNumCols, Direction_Last, kNumActionsPerDirection.
  intros Ha.
  rewrite (Z.rem_mod_nonneg a 5), (Z.quot_div_nonneg a 5) by lia.
  assert (0 <= a / 5) by (apply Z.div_pos; lia).
  rewrite (Z.rem_mod_nonneg (a / 5) 6), (Z.quot_div_nonneg (a / 5) 6) by lia.
  assert (0 <= a / 5 / 6) by (apply Z.div_pos; lia).
  rewrite (Z.rem_mod_nonneg (a / 5 / 6) 9), (Z.quot_div_nonneg (a / 5 / 6) 9)
    by lia.
  assert (0 <= a / 5 / 6 / 9) by (apply Z.div_pos; lia).
  exists (a / 5 / 6 / 9), (a / 5 / 6 mod 9), (a / 5 mod 6), (a mod 5).
  pose proof (Z.mod_pos_bound a 5).
  pose proof (Z.mod_pos_bound (a / 5) 6).
  pose proof (Z.mod_pos_bound (a / 5 / 6) 9).
  pose proof (Z.div_mod a 5).
  pose proof (Z.div_mod (a / 5) 6).
  pose proof (Z.div_mod (a / 5 / 6) 9).
  repeat split; try lia.
Qed.

(** The decoder on the ids whose row field, moved by up to two rows,
    fits an [int]. *)
Lemma ActionToMove_fields a :
  0 <= a < kNumCols * kNumActionsPerCell * (2 ^ 31 - 2) ->
  exists row col dir k,
    0 <= row /\ 0 <= col < kNumCols /\
    0 <= k < kNumActionsPerDirection /\
    a = ((row * kNumCols + col) * Direction_Last + dir_index dir)
        * kNumActionsPerDirection + k /\
    ActionToMove a = Ok (decode_fields row col dir k).
Proof.
  intros Ha.
  destruct (action_fields a)
    as (row & col & d & k & Hr & Hc & Hd & Hk & Ea & E1 & E2 & E3 & E4);
    [lia|].
  unfold_consts.
  assert (Hdir : exists dir, Direction_of_Z d = Some dir /\ dir_index dir = d).
  { assert (d = 0 \/ d = 1 \/ d = 2 \/ d = 3 \/ d = 4 \/ d = 5) as Hcases by lia.
    destruct Hcases as [-> | [-> | [-> | [-> | [-> | ->]]]]];
      eexists; split; reflexivity. }
  destruct Hdir as (dir & Hdir & Hidx).
  exists row, col, dir, k.
  repeat split; try lia.
  unfold ActionToMove.
  unfold_consts.
  rewrite E1, E2, E3, E4, Hdir.
  assert (row < 2 ^ 31 - 2) as Hrow by lia.
  assert (k = 0 \/ k = 1 \/ k = 2 \/ k = 3 \/ k = 4) as Hcases by lia.
  destruct Hcases as [-> | [-> | [-> | [-> | ->]]]];
    destruct dir; unfold decode_fields, Offsets_at; simpl;
    rewrite !to_int_small by lia; repeat f_equal; lia.
Qed.

(** The start of the decoded move, on the ids whose row field fits an
    [int]. *)
Lemma ActionToMove_start a :
  0 <= a < kNumCols * kNumActionsPerCell * 2 ^ 31 ->
  exists row col d k m,
    0 <= row /\ 0 <= col < kNumCols /\
    0 <= d < Direction_Last /\ 0 <= k < kNumActionsPerDirection /\
    a = ((row * kNumCols + col) * Direction_Last + d)
        * kNumActionsPerDirection + k /\
    ActionToMove a = Ok m /\ m_start m = mkCoordinate row col.
Proof.
  intros Ha.
  destruct (action_fields a)
    as (row & col & d & k & Hr & Hc & Hd & Hk & Ea & E1 & E2 & E3 & E4);
    [lia|].
  exists row, col, d, k.
  unfold ActionToMove.
  unfold_consts.
  rewrite E1, E2, E3, E4.
  assert (row < 2 ^ 31) as Hrow by lia.
  assert (d = 0 \/ d = 1 \/ d = 2 \/ d = 3 \/ d = 4 \/ d = 5) as Hd' by lia.
  assert (k = 0 \/ k = 1 \/ k = 2 \/ k = 3 \/ k = 4) as Hk' by lia.
  destruct Hd' as [-> | [-> | [-> | [-> | [-> | ->]]]]];
    destruct Hk' as [-> | [-> | [-> | [-> | ->]]]];
    unfold Offsets_at; simpl; eexists;
    (repeat split; try lia; try reflexivity);
    simpl; rewrite !to_int_small by lia; reflexivity.
Qed.

Lemma MoveToAction_fields row col dir k :
  0 <= k < kNumActionsPerDirection ->
  MoveToAction (decode_fields row col dir k)
  = ((row * kNumCols + col) * Direction_Last + dir_index dir)
    * kNumActionsPerDirection + k.
Proof.
  unfold kNumActionsPerDirection. intros Hk.
  assert (k = 0 \/ k = 1 \/ k = 2 \/ k = 3 \/ k = 4) as Hcases by lia.
  destruct Hcases as [-> | [-> | [-> | [-> | ->]]]];
    destruct dir; unfold MoveToAction, decode_fields; cbn;
    repeat (case_bool_decide; cbn); lia.
Qed.

(** C1. For every action id [a] of the action space
    [0, rows * cols * 6 * 5) the decoder returns a move, encoding that move
    gives [a] back, and decoding the encoding of a decoder-produced move
    gives an equal move. *)
Theorem C1_codec_roundtrip a :
  0 <= a < kNumRows * kNumCols * 6 * 5 ->
  exists m,
    ActionToMove a = Ok m /\
    MoveToAction m = a /\
    ActionToMove (MoveToAction m) = Ok m.
Proof.
  intros Ha.
  destruct (ActionToMove_fields a)
    as (row & col & dir & k & Hr & Hc & Hk & Ea & Em);
    [unfold_consts; lia|].
  exists (decode_fields row col dir k).
  assert (MoveToAction (decode_fields row col dir k) = a) as Hback.
  { rewrite MoveToAction_fields by exact Hk. symmetry. exact Ea. }
  rewrite Hback. auto.
Qed.

Lemma C1_codec_roundtrip_witness :
  exists m,
    ActionToMove 1234 = Ok m /\
    MoveToAction m = 1234 /\
    ActionToMove (MoveToAction m) = Ok m.
Proof. apply (C1_codec_roundtrip 1234). unfold kNumRows, kNumCols. lia. Defined.

(** ** Reading and writing the board *)

Lemma in_grid_true row column :
  in_grid row column = true <-> 0 <= row < kNumRows /\ 0 <= column < kNumCols.
Proof.
  unfold in_grid. unfold_consts.
  repeat case_bool_decide; cbn; split; intros; try lia; try discriminate.
Qed.

Lemma in_grid_false row column :
  in_grid row column = false <->
  ~ (0 <= row < kNumRows /\ 0 <= column < kNumCols).
Proof.
  rewrite <- in_grid_true. destruct (in_grid row column); split; intros;
    try congruence; try discriminate.
Qed.

Lemma BoardAt_CellAt st row column :
  wf_board st -> 0 <= row < kNumRows -> 0 <= column < kNumCols ->
  BoardAt st row column = Ok (CellAt st row column).
Proof.
  unfold wf_board, BoardAt, board_read, CellAt. intros Hwf Hr Hc.
  assert (in_grid row column = true) as -> by (apply in_grid_true; auto).
  unfold_consts.
  rewrite bool_decide_true by lia.
  destruct (board_ st !! Z.to_nat (row * 9 + column)) eqn:Hl; [reflexivity|].
  apply lookup_ge_None in Hl. lia.
Qed.

Lemma SetBoard_ok st row column s :
  wf_board st -> 0 <= row < kNumRows -> 0 <= column < kNumCols ->
  exists st',
    SetBoard st row column s = Ok st' /\
    board_ st' = <[Z.to_nat (row * kNumCols + column) := s]> (board_ st) /\
    current_player_ st' = current_player_ st /\
    outcome_ st' = outcome_ st /\
    num_moves_ st' = num_moves_ st /\
    wf_board st'.
Proof.
  unfold wf_board, SetBoard, board_write. intros Hwf Hr Hc.
  unfold_consts.
  rewrite bool_decide_true by lia. cbn.
  eexists; repeat split; cbn.
  rewrite length_insert. exact Hwf.
Qed.

Lemma CellAt_insert st st' row column s r c :
  wf_board st -> 0 <= row < kNumRows -> 0 <= column < kNumCols ->
  board_ st' = <[Z.to_nat (row * kNumCols + column) := s]> (board_ st) ->
  CellAt st' r c
  = if bool_decide (r = row /\ c = column) then s else CellAt st r c.
Proof.
  unfold wf_board, CellAt. intros Hwf Hr Hc ->.
  case_bool_decide as Heq.
  - destruct Heq as [-> ->].
    assert (in_grid row column = true) as -> by (apply in_grid_true; auto).
    unfold_consts. rewrite list_lookup_insert_eq by lia. reflexivity.
  - destruct (in_grid r c) eqn:Hg; [|reflexivity].
    apply in_grid_true in Hg. unfold_consts.
    rewrite list_lookup_insert_ne by lia. reflexivity.
Qed.

(** ** The in-line patterns (C2) *)

Lemma read_line_line_of n st row column vr vc :
  wf_board st ->
  read_line n st row column vr vc = Ok (line_of n st row column vr vc).
Proof.
  intros Hwf. revert row column.
  induction n as [|n IH]; intros row column; cbn [read_line line_of];
    [reflexivity|].
  rewrite IH.
  destruct (bool_decide (row >= 0) && bool_decide (row < kNumRows)
            && bool_decide (column >= 0) && bool_decide (column < kNumCols))
    eqn:Hg.
  - rewrite !andb_true_iff, !bool_decide_eq_true in Hg.
    rewrite BoardAt_CellAt by (auto; lia). reflexivity.
  - assert (in_grid row column = false) as Hg'.
    { apply in_grid_false. intros [? ?].
      rewrite !bool_decide_true in Hg by lia. discriminate. }
    unfold CellAt. rewrite Hg'. reflexivity.
Qed.

Lemma line_at_line_of n st row column vr vc (i : nat) :
  (i < n)%nat ->
  line_at (line_of n st row column vr vc) i
  = CellAt st (row + Z.of_nat i * vr) (column + Z.of_nat i * vc).
Proof.
  revert row column i. induction n as [|n IH]; intros row column i Hi; [lia|].
  destruct i as [|i]; cbn [line_of].
  - unfold line_at; cbn. f_equal; lia.
  - unfold line_at in *. cbn [nth]. rewrite IH by lia. f_equal; lia.
Qed.

(** The chain of tests of [IsValid] decides the six patterns. *)
Lemma line_tests_patterns own l :
  own = kPlayer1 \/ own = kPlayer2 ->
  line_tests own l = true <->
  inline_patterns own (if cell_eqb own kPlayer1 then kPlayer2 else kPlayer1) l.
Proof.
  intros Hown. unfold line_tests, inline_patterns, empty_or_invalid.
  set (opp := if cell_eqb own kPlayer1 then kPlayer2 else kPlayer1).
  assert (opp <> own /\ opp <> kEmpty /\ own <> kEmpty) as (Ho1 & Ho2 & Ho3).
  { subst opp. destruct Hown as [-> | ->]; cbn; repeat split; discriminate. }
  unfold cell_eqb.
  repeat (case_bool_decide; cbn [andb orb]);
    split; intros Hx; try reflexivity; try discriminate;
    try (exfalso; intuition congruence); try tauto.
Qed.

Lemma CurrentPlayer_active st :
  IsTerminal st = false -> CurrentPlayer st = current_player_ st.
Proof. unfold CurrentPlayer. intros ->. reflexivity. Qed.

Lemma PlayerToState_marble p :
  p = 0 \/ p = 1 -> PlayerToState p = Ok (marble_of p).
Proof. intros [-> | ->]; reflexivity. Qed.

(** [IsValid] on an in-line candidate of the player to move: the answer
    is the chain of tests on the line read along the direction. *)
Lemma IsValid_inline st move :
  wf_board st ->
  IsTerminal st = false ->
  current_player_ st = 0 \/ current_player_ st = 1 ->
  InGrid (m_start move) -> InGrid (m_end move) ->
  CellAt st (m_row (m_start move)) (m_column (m_start move))
  = marble_of (current_player_ st) ->
  m_row (m_end move)
  = m_row (m_start move) + m_row (Offsets (m_direction move)) ->
  m_column (m_end move)
  = m_column (m_start move) + m_column (Offsets (m_direction move)) ->
  IsValid move st
  = Ok (line_tests (marble_of (current_player_ st))
          (line_of 6 st (m_row (m_start move)) (m_column (m_start move))
             (m_row (Offsets (m_direction move)))
             (m_column (Offsets (m_direction move))))).
Proof.
  intros Hwf Hterm Hcp [Hsr Hsc] [Her Hec] Hown Hr Hc.
  unfold IsValid.
  unfold_consts.
  rewrite !(bool_decide_false (_ < 0)) by lia.
  rewrite !(bool_decide_false (_ >= 9)) by lia.
  cbn [orb].
  rewrite BoardAt_CellAt by (auto; unfold_consts; lia).
  rewrite Hown. cbn [mbind result_bind].
  rewrite CurrentPlayer_active by exact Hterm.
  rewrite PlayerToState_marble by exact Hcp. cbn [mbind result_bind].
  rewrite (bool_decide_false (_ <> _)) by tauto.
  rewrite !(bool_decide_false (_ <> _)) by lia.
  cbn [orb].
  rewrite read_line_line_of by exact Hwf. cbn [mbind result_bind].
  repeat f_equal; lia.
Qed.

Lemma marble_of_opponent p :
  p = 0 \/ p = 1 ->
  (if cell_eqb (marble_of p) kPlayer1 then kPlayer2 else kPlayer1)
  = marble_of (1 - p).
Proof. intros [-> | ->]; reflexivity. Qed.

(** C2. An in-line candidate (end = start + offset of the direction) with
    both ends in the grid and the current player's marble on its start cell
    is accepted by [IsValid] exactly when the six cells read from the start
    along the direction, positions outside the grid reading as Invalid,
    match one of the six patterns.  In particular two own marbles push one
    opposing marble into an Empty-or-Invalid position, and two own marbles
    against two opposing ones are rejected. *)
Theorem C2_inline_validity st move :
  wf_board st ->
  IsTerminal st = false ->
  current_player_ st = 0 \/ current_player_ st = 1 ->
  InGrid (m_start move) -> InGrid (m_end move) ->
  CellAt st (m_row (m_start move)) (m_column (m_start move))
  = marble_of (current_player_ st) ->
  m_row (m_end move)
  = m_row (m_start move) + m_row (Offsets (m_direction move)) ->
  m_column (m_end move)
  = m_column (m_start move) + m_column (Offsets (m_direction move)) ->
  let own := marble_of (current_player_ st) in
  let opp := marble_of (1 - current_player_ st) in
  let l := line_of 6 st (m_row (m_start move)) (m_column (m_start move))
             (m_row (Offsets (m_direction move)))
             (m_column (Offsets (m_direction move))) in
  (exists b, IsValid move st = Ok b /\ (b = true <-> inline_patterns own opp l))
  /\ (line_at l 1 = own -> line_at l 2 = opp ->
      empty_or_invalid (line_at l 3) -> IsValid move st = Ok true)
  /\ (line_at l 1 = own -> line_at l 2 = opp -> line_at l 3 = opp ->
      IsValid move st = Ok false).
Proof.
  intros Hwf Hterm Hcp Hs He Hown Hr Hc own opp l.
  pose proof (IsValid_inline st move Hwf Hterm Hcp Hs He Hown Hr Hc) as Hv.
  fold own in Hv. fold l in Hv.
  assert (own = kPlayer1 \/ own = kPlayer2) as Hown'.
  { subst own. destruct Hcp as [-> | ->]; auto. }
  pose proof (line_tests_patterns own l Hown') as Hpat.
  unfold own in Hpat at 3. rewrite marble_of_opponent in Hpat by exact Hcp.
  fold opp in Hpat.
  assert (opp <> own /\ opp <> kEmpty /\ opp <> kInvalid /\ own <> kEmpty)
    as (Hn1 & Hn2 & Hn3 & Hn4).
  { subst own opp. destruct Hcp as [-> | ->]; cbn; repeat split; discriminate. }
  split; [|split].
  - eexists; split; [exact Hv | exact Hpat].
  - intros H1 H2 H3. rewrite Hv. f_equal. apply Hpat.
    right; right; left. auto.
  - intros H1 H2 H3. rewrite Hv. f_equal.
    destruct (line_tests own l) eqn:Ht; [|reflexivity].
    exfalso. assert (inline_patterns own opp l) as Hp by (apply Hpat; reflexivity).
    unfold inline_patterns, empty_or_invalid in Hp.
    intuition congruence.
Qed.

Lemma C2_inline_validity_witness :
  let st := NewInitialState in
  let move := move_c5_c6 in
  let own := marble_of (current_player_ st) in
  let opp := marble_of (1 - current_player_ st) in
  let l := line_of 6 st (m_row (m_start move)) (m_column (m_start move))
             (m_row (Offsets (m_direction move)))
             (m_column (Offsets (m_direction move))) in
  (exists b, IsValid move st = Ok b /\ (b = true <-> inline_patterns own opp l))
  /\ (line_at l 1 = own -> line_at l 2 = opp ->
      empty_or_invalid (line_at l 3) -> IsValid move st = Ok true)
  /\ (line_at l 1 = own -> line_at l 2 = opp -> line_at l 3 = opp ->
      IsValid move st = Ok false).
Proof.
  apply (C2_inline_validity NewInitialState move_c5_c6).
  - reflexivity.
  - reflexivity.
  - left; reflexivity.
  - unfold InGrid; cbn; unfold kNumRows, kNumCols; lia.
  - unfold InGrid; cbn; unfold kNumRows, kNumCols; lia.
  - reflexivity.
  - reflexivity.
  - reflexivity.
Defined.

(** ** Slides (C4) *)

Lemma clamp_sgn x : Z.max (Z.min x 1) (-1) = Z.sgn x.
Proof. lia. Qed.

Lemma valid_direction_spec sl sc :
  existsb (fun dir => bool_decide (m_row (Offsets dir) = sl)
                      && bool_decide (m_column (Offsets dir) = sc))
          all_directions = true
  <-> exists d, Offsets d = mkCoordinate sl sc.
Proof.
  rewrite existsb_exists. split.
  - intros (d & _ & Hd). exists d.
    rewrite andb_true_iff, !bool_decide_eq_true in Hd.
    destruct (Offsets d); cbn in *. destruct Hd; congruence.
  - intros (d & Hd). exists d. split.
    + destruct d; cbn; tauto.
    + rewrite Hd. cbn. rewrite !bool_decide_true by reflexivity. reflexivity.
Qed.

(** The validator's walk, as long as it stays in the grid. *)
Lemma IsValidSlide_loop_spec n st player direction sl sc r c :
  wf_board st ->
  (forall i, 0 <= i < Z.of_nat n ->
     0 <= r + i * sl < kNumRows /\ 0 <= c + i * sc < kNumCols) ->
  exists b,
    IsValidSlide_loop n st player direction sl sc r c = Ok b /\
    (b = true <->
     forall i, 0 <= i < Z.of_nat n ->
       CellAt st (r + i * sl) (c + i * sc) = player /\
       (0 <= r + i * sl + m_row direction < kNumRows /\
        0 <= c + i * sc + m_column direction < kNumCols) /\
       CellAt st (r + i * sl + m_row direction)
                 (c + i * sc + m_column direction) = kEmpty).
Proof.
  intros Hwf. revert r c.
  induction n as [|n IH]; intros r c Hin.
  - exists true. split; [reflexivity|]. split; [intros _ i Hi; lia | reflexivity].
  - cbn [IsValidSlide_loop].
    assert (0 <= r < kNumRows /\ 0 <= c < kNumCols) as [Hr Hc].
    { specialize (Hin 0). rewrite !Z.mul_0_l, !Z.add_0_r in Hin.
      apply Hin. lia. }
    rewrite (BoardAt_CellAt st r c) by (first [assumption | lia]).
    cbn [mbind result_bind].
    assert (forall P : Z -> Prop, P 0 ->
              (forall i, 0 <= i < Z.of_nat n -> P (i + 1)) ->
              forall i, 0 <= i < Z.of_nat (S n) -> P i) as Hsplit.
    { intros P H0 Hs i Hi. destruct (decide (i = 0)) as [-> | Hne]; [exact H0|].
      replace i with (i - 1 + 1) by lia. apply Hs. lia. }
    case_bool_decide as Hcur.
    { exists false. split; [reflexivity|]. split; [discriminate|].
      intros Hall. exfalso. apply Hcur.
      specialize (Hall 0). rewrite !Z.mul_0_l, !Z.add_0_r in Hall.
      apply Hall. lia. }
    destruct (bool_decide (r + m_row direction < 0)
              || bool_decide (r + m_row direction >= kNumRows)) eqn:Hdr.
    { exists false. split; [reflexivity|]. split; [discriminate|].
      intros Hall. exfalso.
      specialize (Hall 0). rewrite !Z.mul_0_l, !Z.add_0_r in Hall.
      apply orb_true_iff in Hdr.
      rewrite !bool_decide_eq_true in Hdr. lia. }
    destruct (bool_decide (c + m_column direction < 0)
              || bool_decide (c + m_column direction >= kNumCols)) eqn:Hdc.
    { exists false. split; [reflexivity|]. split; [discriminate|].
      intros Hall. exfalso.
      specialize (Hall 0). rewrite !Z.mul_0_l, !Z.add_0_r in Hall.
      apply orb_true_iff in Hdc.
      rewrite !bool_decide_eq_true in Hdc. lia. }
    apply orb_false_iff in Hdr, Hdc.
    rewrite !bool_decide_eq_false in Hdr, Hdc.
    rewrite BoardAt_CellAt by (first [assumption | lia]).
    cbn [mbind result_bind].
    case_bool_decide as Hdst.
    { exists false. split; [reflexivity|]. split; [discriminate|].
      intros Hall. exfalso. apply Hdst.
      specialize (Hall 0). rewrite !Z.mul_0_l, !Z.add_0_r in Hall.
      apply Hall. lia. }
    destruct (IH (r + sl) (c + sc)) as (b & Hb & Hiff).
    { intros i Hi. specialize (Hin (i + 1)).
      replace (r + sl + i * sl) with (r + (i + 1) * sl) by lia.
      replace (c + sc + i * sc) with (c + (i + 1) * sc) by lia.
      apply Hin. lia. }
    exists b. split; [exact Hb|]. rewrite Hiff. split.
    + intros Hall. apply Hsplit.
      * rewrite !Z.mul_0_l, !Z.add_0_r.
        split; [exact Hcur|]. split; [lia|]. exact Hdst.
      * intros i Hi. specialize (Hall i Hi).
        replace (r + (i + 1) * sl) with (r + sl + i * sl) by lia.
        replace (c + (i + 1) * sc) with (c + sc + i * sc) by lia.
        exact Hall.
    + intros Hall i Hi. specialize (Hall (i + 1)).
      replace (r + sl + i * sl) with (r + (i + 1) * sl) by lia.
      replace (c + sc + i * sc) with (c + (i + 1) * sc) by lia.
      apply Hall. lia.
Qed.

(** [IsValid] on a slide candidate of the player to move whose walked
    positions stay in the grid: the answer is the slide rule.  The
    decoder only produces such geometries ([decoded_walk_in_grid]). *)
Lemma IsValid_slide_in_grid st move :
  wf_board st ->
  IsTerminal st = false ->
  current_player_ st = 0 \/ current_player_ st = 1 ->
  InGrid (m_start move) -> InGrid (m_end move) ->
  CellAt st (m_row (m_start move)) (m_column (m_start move))
  = marble_of (current_player_ st) ->
  (m_row (m_end move) - m_row (m_start move)
   <> m_row (Offsets (m_direction move))
   \/ m_column (m_end move) - m_column (m_start move)
      <> m_column (Offsets (m_direction move))) ->
  walk_in_grid move ->
  exists b, IsValid move st = Ok b /\ (b = true <-> slide_legal st move).
Proof.
  intros Hwf Hterm Hcp [Hsr Hsc] [Her Hec] Hown Hslide Hwalk.
  unfold IsValid.
  rewrite !(bool_decide_false (_ < 0)) by lia.
  rewrite !(bool_decide_false (_ >= _)) by lia.
  cbn [orb].
  rewrite BoardAt_CellAt by (first [assumption | lia]).
  rewrite Hown. cbn [mbind result_bind].
  rewrite CurrentPlayer_active by exact Hterm.
  rewrite PlayerToState_marble by exact Hcp. cbn [mbind result_bind].
  rewrite (bool_decide_false (_ <> _)) by tauto.
  assert (bool_decide (m_row (Offsets (m_direction move))
                       <> m_row (m_end move) - m_row (m_start move))
          || bool_decide (m_column (Offsets (m_direction move))
                          <> m_column (m_end move) - m_column (m_start move))
          = true) as ->.
  { apply orb_true_iff. rewrite !bool_decide_eq_true.
    destruct Hslide; [left | right]; congruence. }
  unfold _IsValidSlide.
  rewrite BoardAt_CellAt by (first [assumption | lia]).
  rewrite Hown. cbn [mbind result_bind].
  assert (bool_decide (marble_of (current_player_ st) = kEmpty)
          || bool_decide (marble_of (current_player_ st) = kInvalid) = false)
    as ->.
  { destruct Hcp as [-> | ->]; reflexivity. }
  unfold slide_legal, walk_in_grid in *.
  set (vr := m_row (m_end move) - m_row (m_start move)) in *.
  set (vc := m_column (m_end move) - m_column (m_start move)) in *.
  case_bool_decide as Hrs.
  { exists false. split; [reflexivity|]. split; [discriminate|]. lia. }
  case_bool_decide as Hcs.
  { exists false. split; [reflexivity|]. split; [discriminate|]. lia. }
  rewrite !clamp_sgn.
  destruct (existsb _ all_directions) eqn:Hdir; cbn [negb].
  - apply valid_direction_spec in Hdir.
    destruct (IsValidSlide_loop_spec
                (Z.to_nat (Z.max (Z.abs vc + 1) (Z.abs vr + 1))) st
                (marble_of (current_player_ st))
                (Offsets (m_direction move)) (Z.sgn vr) (Z.sgn vc)
                (m_row (m_start move)) (m_column (m_start move)) Hwf)
      as (b & Hb & Hiff).
    { intros i Hi. apply Hwalk. lia. }
    exists b. split; [exact Hb|]. rewrite Hiff. split.
    + intros Hall. repeat split; try lia; try exact Hdir;
        apply Hall; lia.
    + intros (_ & _ & _ & Hall) i Hi. apply Hall. lia.
  - exists false. split; [reflexivity|]. split; [discriminate|].
    intros (_ & _ & Hd & _). apply valid_direction_spec in Hd. congruence.
Qed.

(** A latent gap of the slide validator, on a move the decoder never
    produces.  The slide candidate d8-f9 moved LEFT has extents 3 and 2
    and step (-1, +1); the third position of the walk is row f, column 10,
    outside the grid, so the slide rule does not hold.  [_IsValidSlide]
    reads that position without a bounds test, as flat index 36, the cell
    e1, finds a marble of the mover there and answers true; with e1
    emptied and every other cell as before it answers false.  No action
    id decodes to such a move ([ActionToMove_in_grid],
    [decoded_walk_in_grid]), and [IsValid] is called on decoded moves
    only. *)
Remark slide_walk_unchecked :
  InGrid (m_start move_wrap) /\ InGrid (m_end move_wrap) /\
  CellAt state_wrap 5 7 = marble_of (current_player_ state_wrap) /\
  IsValid move_wrap state_wrap = Ok true /\
  BoardAt state_wrap 3 9 = Ok (CellAt state_wrap 4 0) /\
  CellAt state_wrap 3 9 = kInvalid /\
  ~ slide_legal state_wrap move_wrap /\
  IsValid move_wrap state_wrap_e1_empty = Ok false /\
  (forall r c, ~ (r = 4 /\ c = 0) ->
     CellAt state_wrap_e1_empty r c = CellAt state_wrap r c).
Proof.
  split; [vm_compute; intuition congruence|].
  split; [vm_compute; intuition congruence|].
  split; [reflexivity|].
  split; [vm_compute; reflexivity|].
  split; [vm_compute; reflexivity|].
  split; [reflexivity|].
  split; [|split].
  - intros (_ & _ & _ & Hall).
    specialize (Hall 2). cbn in Hall.
    destruct Hall as [Hcell _]; [lia|]. vm_compute in Hcell.
    discriminate Hcell.
  - vm_compute; reflexivity.
  - intros r c Hne.
    rewrite (CellAt_insert state_wrap state_wrap_e1_empty 4 0 kEmpty r c).
    + rewrite bool_decide_false by exact Hne. reflexivity.
    + reflexivity.
    + unfold kNumRows; lia.
    + unfold kNumCols; lia.
    + reflexivity.
Qed.

(** The same unchecked read can leave the array: the candidate b3-a1
    moved UP_LEFT has step (+1, -1) and walks b3, a2 and then row 9,
    column 0, flat index 81. *)
Example slide_walk_past_the_array :
  IsValid (mkMove UP_LEFT (mkCoordinate 7 2) (mkCoordinate 8 0))
          (mkState board_past_end 0 kInvalidPlayer 0) = Undefined /\
  BoardAt (mkState board_past_end 0 kInvalidPlayer 0) 9 0 = Undefined.
Proof. split; vm_compute; reflexivity. Qed.

(** ** Counting cells under a write *)

Lemma count_cells_cons s x b :
  count_cells s (x :: b) = same x s + count_cells s b.
Proof.
  unfold count_cells, same. rewrite filter_cons.
  case_decide; case_bool_decide; try contradiction; cbn [length]; lia.
Qed.

Lemma count_cells_insert s b (i : nat) v old :
  b !! i = Some old ->
  count_cells s (<[i := v]> b) = count_cells s b - same old s + same v s.
Proof.
  revert i. induction b as [|x b IH]; intros i Hl; [discriminate|].
  destruct i as [|i]; cbn in Hl.
  - injection Hl as ->.
    change (<[0%nat := v]> (old :: b)) with (v :: b).
    rewrite !count_cells_cons. lia.
  - change (<[S i := v]> (x :: b)) with (x :: <[i := v]> b).
    rewrite !count_cells_cons, (IH i Hl). lia.
Qed.

Lemma lookup_CellAt st row column :
  wf_board st -> 0 <= row < kNumRows -> 0 <= column < kNumCols ->
  board_ st !! Z.to_nat (row * kNumCols + column) = Some (CellAt st row column).
Proof.
  unfold wf_board, CellAt. intros Hwf Hr Hc.
  assert (in_grid row column = true) as -> by (apply in_grid_true; auto).
  destruct (board_ st !! _) eqn:Hl; [reflexivity|].
  apply lookup_ge_None in Hl. unfold_consts. lia.
Qed.

(** One write through [SetBoard] at a grid position. *)
Lemma SetBoard_spec st row column v :
  wf_board st -> 0 <= row < kNumRows -> 0 <= column < kNumCols ->
  exists st',
    SetBoard st row column v = Ok st' /\
    wf_board st' /\
    current_player_ st' = current_player_ st /\
    outcome_ st' = outcome_ st /\
    num_moves_ st' = num_moves_ st /\
    (forall r c, CellAt st' r c
                 = if bool_decide (r = row /\ c = column) then v
                   else CellAt st r c) /\
    (forall s, count_cells s (board_ st')
               = count_cells s (board_ st) - same (CellAt st row column) s
                 + same v s).
Proof.
  intros Hwf Hr Hc.
  destruct (SetBoard_ok st row column v Hwf Hr Hc)
    as (st' & Hset & Hb & Hcp & Ho & Hn & Hwf').
  exists st'. repeat split; auto.
  - intros r c. eapply CellAt_insert; eauto.
  - intros s. rewrite Hb. apply count_cells_insert.
    apply lookup_CellAt; auto.
Qed.

(** ** Slides on the board (C10) *)

(** The slide executor always returns; it keeps the number of cells of
    every state, and it keeps Invalid cells Invalid when the moved value is
    not [kInvalid]. *)
Lemma ApplyParallelMove_loop_spec n st player dr dc sl sc r c :
  wf_board st ->
  exists st',
    ApplyParallelMove_loop n st player dr dc sl sc r c = Ok st' /\
    wf_board st' /\
    current_player_ st' = current_player_ st /\
    outcome_ st' = outcome_ st /\
    num_moves_ st' = num_moves_ st /\
    (forall s, count_cells s (board_ st') = count_cells s (board_ st)) /\
    (player <> kInvalid ->
     forall r' c', CellAt st r' c' = kInvalid -> CellAt st' r' c' = kInvalid).
Proof.
  revert st r c. induction n as [|n IH]; intros st r c Hwf.
  { exists st. cbn. repeat split; auto. }
  cbn [ApplyParallelMove_loop].
  destruct (bool_decide (r < 0) || bool_decide (r >= kNumRows)
            || bool_decide (c < 0) || bool_decide (c >= kNumCols)) eqn:Hg.
  { exists st. repeat split; auto. }
  rewrite !orb_false_iff, !bool_decide_eq_false in Hg.
  rewrite (BoardAt_CellAt st r c) by (first [assumption | lia]).
  cbn [mbind result_bind].
  case_bool_decide as Hid.
  { exists st. repeat split; auto. }
  destruct (bool_decide (r + dr < 0) || bool_decide (r + dr >= kNumRows)
            || bool_decide (c + dc < 0) || bool_decide (c + dc >= kNumCols))
    eqn:Hd.
  { exists st. repeat split; auto. }
  rewrite !orb_false_iff, !bool_decide_eq_false in Hd.
  rewrite (BoardAt_CellAt st (r + dr) (c + dc))
    by (first [assumption | lia]).
  cbn [mbind result_bind].
  case_bool_decide as Hnext.
  { exists st. repeat split; auto. }
  destruct (SetBoard_spec st (r + dr) (c + dc) player Hwf)
    as (st1 & -> & Hwf1 & Hcp1 & Ho1 & Hn1 & Hcell1 & Hcnt1); [lia | lia |].
  cbn [mbind result_bind].
  destruct (SetBoard_spec st1 r c kEmpty Hwf1)
    as (st2 & -> & Hwf2 & Hcp2 & Ho2 & Hn2 & Hcell2 & Hcnt2); [lia | lia |].
  cbn [mbind result_bind].
  destruct (IH st2 (r + sl) (c + sc) Hwf2)
    as (st' & -> & Hwf' & Hcp' & Ho' & Hn' & Hcnt' & Hinv').
  exists st'. repeat split; auto; try congruence.
  - intros s. rewrite Hcnt', Hcnt2, Hcnt1, Hcell1, Hnext, Hid.
    case_bool_decide; unfold same; repeat case_bool_decide; lia.
  - intros Hp r' c' Hi. apply Hinv'; [exact Hp|].
    rewrite Hcell2, Hcell1.
    repeat case_bool_decide; try reflexivity; try congruence.
    + destruct_and!. subst. congruence.
    + destruct_and!. subst. congruence.
Qed.

Lemma board_read_ok b i :
  0 <= i < Z.of_nat (length b) -> exists s, board_read b i = Ok s.
Proof.
  intros Hi. unfold board_read. rewrite bool_decide_true by lia.
  destruct (b !! Z.to_nat i) eqn:Hl; [eauto|].
  apply lookup_ge_None in Hl. lia.
Qed.

(** C10. Whatever the board and the move, valid or not, as long as its
    start coordinate addresses a cell of the board array: the slide branch
    of [Apply] returns, and the new board has as many marbles of each
    player as the old one (as many cells of every state, in fact). *)
Theorem C10_slide_preserves_counts st move :
  wf_board st ->
  0 <= m_row (m_start move) * kNumCols + m_column (m_start move) < kNumCells ->
  (m_row (Offsets (m_direction move))
   <> m_row (m_end move) - m_row (m_start move)
   \/ m_column (Offsets (m_direction move))
      <> m_column (m_end move) - m_column (m_start move)) ->
  exists st',
    Apply move st = Ok st' /\
    count_cells kPlayer1 (board_ st') = count_cells kPlayer1 (board_ st) /\
    count_cells kPlayer2 (board_ st') = count_cells kPlayer2 (board_ st) /\
    (forall s, count_cells s (board_ st') = count_cells s (board_ st)).
Proof.
  intros Hwf Hstart Hslide. unfold Apply.
  assert (bool_decide (m_row (Offsets (m_direction move))
                       <> m_row (m_end move) - m_row (m_start move))
          || bool_decide (m_column (Offsets (m_direction move))
                          <> m_column (m_end move) - m_column (m_start move))
          = true) as ->.
  { apply orb_true_iff. rewrite !bool_decide_eq_true. exact Hslide. }
  unfold _ApplyParallelMove, BoardAt.
  destruct (board_read_ok (board_ st)
              (m_row (m_start move) * kNumCols + m_column (m_start move)))
    as (player & ->).
  { unfold wf_board in Hwf. rewrite Hwf. unfold_consts. lia. }
  cbn [mbind result_bind].
  match goal with
  | |- context [ApplyParallelMove_loop ?n st ?p ?dr ?dc ?sl ?sc ?r ?c] =>
    destruct (ApplyParallelMove_loop_spec n st p dr dc sl sc r c Hwf)
      as (st' & -> & _ & _ & _ & _ & Hcnt & _)
  end.
  exists st'. auto.
Qed.

Lemma C10_slide_preserves_counts_witness :
  exists st',
    Apply move_slide_c5_c4 NewInitialState = Ok st' /\
    count_cells kPlayer1 (board_ st')
    = count_cells kPlayer1 (board_ NewInitialState) /\
    count_cells kPlayer2 (board_ st')
    = count_cells kPlayer2 (board_ NewInitialState) /\
    (forall s, count_cells s (board_ st')
               = count_cells s (board_ NewInitialState)).
Proof.
  apply (C10_slide_preserves_counts NewInitialState move_slide_c5_c4).
  - reflexivity.
  - cbn; unfold kNumCells, kNumRows, kNumCols; lia.
  - left. cbn. lia.
Defined.

(** ** In-line moves on the board *)

Lemma steps_left_next d row column :
  steps_left d (row + m_row (Offsets d)) (column + m_column (Offsets d))
  = steps_left d row column - 1.
Proof. destruct d; cbn; lia. Qed.

Lemma steps_left_pos d row column :
  0 <= row < kNumRows -> 0 <= column < kNumCols ->
  0 < steps_left d row column <= 9.
Proof. intros Hr Hc. destruct d; cbn; unfold_consts; lia. Qed.

(** The in-line executor returns within its budget.  It writes only cells
    that are not Invalid, and the cells it rewrites carry, together with
    the value still in hand when the walk stops ([dropped]), what they
    carried before together with the initial value in hand. *)
Lemma ApplySingleMove_loop_spec d fuel st r c nextId :
  wf_board st ->
  (0 < fuel)%nat ->
  (0 <= r < kNumRows -> 0 <= c < kNumCols ->
   steps_left d r c < Z.of_nat fuel) ->
  exists st' dropped,
    ApplySingleMove_loop fuel st (m_row (Offsets d)) (m_column (Offsets d))
      r c nextId = Ok st' /\
    wf_board st' /\
    current_player_ st' = current_player_ st /\
    outcome_ st' = outcome_ st /\
    num_moves_ st' = num_moves_ st /\
    (forall s, count_cells s (board_ st') + same dropped s
               = count_cells s (board_ st) + same nextId s) /\
    (forall r' c', CellAt st r' c' = kInvalid -> CellAt st' r' c' = kInvalid).
Proof.
  revert st r c nextId.
  induction fuel as [|fuel IH]; intros st r c nextId Hwf Hfuel Hsteps; [lia|].
  cbn [ApplySingleMove_loop].
  destruct (bool_decide (r >= 0) && bool_decide (r < kNumRows)
            && bool_decide (c >= 0) && bool_decide (c < kNumCols)) eqn:Hg.
  2:{ exists st, nextId. repeat split; auto. }
  rewrite !andb_true_iff, !bool_decide_eq_true in Hg.
  assert (0 <= r < kNumRows) as Hr by lia.
  assert (0 <= c < kNumCols) as Hc by lia.
  rewrite (BoardAt_CellAt st r c) by assumption.
  cbn [mbind result_bind].
  case_bool_decide as Hinv.
  { exists st, nextId. repeat split; auto. }
  destruct (SetBoard_spec st r c nextId Hwf Hr Hc)
    as (st1 & -> & Hwf1 & Hcp1 & Ho1 & Hn1 & Hcell1 & Hcnt1).
  cbn [mbind result_bind].
  assert (forall r' c', CellAt st r' c' = kInvalid -> CellAt st1 r' c' = kInvalid)
    as Hinv1.
  { intros r' c' Hi. rewrite Hcell1. case_bool_decide as He; [|exact Hi].
    destruct He as [-> ->]. congruence. }
  case_bool_decide as Hempty.
  { exists st1, kEmpty. repeat split; auto.
    intros s. rewrite Hcnt1, Hempty. lia. }
  specialize (Hsteps Hr Hc).
  destruct fuel as [|fuel].
  { pose proof (steps_left_pos d r c Hr Hc). lia. }
  destruct (IH st1 (r + m_row (Offsets d)) (c + m_column (Offsets d))
              (CellAt st r c) Hwf1)
    as (st' & dropped & -> & Hwf' & Hcp' & Ho' & Hn' & Hcnt' & Hinv');
    [lia | intros _ _; rewrite steps_left_next; lia |].
  exists st', dropped. repeat split; auto; try congruence.
  intros s. rewrite Hcnt', Hcnt1. lia.
Qed.

(** [Apply] always returns on a board of 81 cells when the start of the
    move addresses a cell of the array; apart from the board it changes
    nothing, and cells that are Invalid stay so when the start cell holds
    a marble. *)
Lemma Apply_spec st move :
  wf_board st ->
  0 <= m_row (m_start move) < kNumRows ->
  0 <= m_column (m_start move) < kNumCols ->
  exists st',
    Apply move st = Ok st' /\
    wf_board st' /\
    current_player_ st' = current_player_ st /\
    outcome_ st' = outcome_ st /\
    num_moves_ st' = num_moves_ st /\
    marbles st' <= marbles st /\
    (CellAt st (m_row (m_start move)) (m_column (m_start move)) <> kInvalid ->
     forall r c, CellAt st r c = kInvalid -> CellAt st' r c = kInvalid).
Proof.
  intros Hwf Hr Hc. unfold Apply.
  destruct (bool_decide _ || bool_decide _).
  - unfold _ApplyParallelMove.
    rewrite (BoardAt_CellAt st _ _ Hwf Hr Hc). cbn [mbind result_bind].
    match goal with
    | |- context [ApplyParallelMove_loop ?n st ?p ?dr ?dc ?sl ?sc ?r ?c] =>
      destruct (ApplyParallelMove_loop_spec n st p dr dc sl sc r c Hwf)
        as (st' & -> & Hwf' & Hcp & Ho & Hn & Hcnt & Hinv)
    end.
    exists st'. repeat split; auto.
    unfold marbles. rewrite !Hcnt. lia.
  - unfold _ApplySingleMove.
    destruct (ApplySingleMove_loop_spec (m_direction move) single_move_fuel
                st (m_row (m_start move)) (m_column (m_start move)) kEmpty Hwf)
      as (st' & dropped & -> & Hwf' & Hcp & Ho & Hn & Hcnt & Hinv).
    { unfold single_move_fuel. lia. }
    { intros _ _. pose proof (steps_left_pos (m_direction move) _ _ Hr Hc).
      unfold single_move_fuel. lia. }
    exists st'. repeat split; auto.
    unfold marbles.
    pose proof (Hcnt kPlayer1) as H1. pose proof (Hcnt kPlayer2) as H2.
    unfold same in H1, H2.
    repeat case_bool_decide; try discriminate; try congruence; lia.
Qed.

(** ** The transition of the game state *)

Lemma IsValid_start_outside st move :
  ~ InGrid (m_start move) -> IsValid move st = Ok false.
Proof.
  unfold InGrid, IsValid. intros Hout.
  repeat (case_bool_decide; cbn [orb]); try reflexivity; lia.
Qed.

(** What an accepted move tells about the state. *)
Lemma IsValid_true_inv st move :
  wf_board st -> player_ok st ->
  IsValid move st = Ok true ->
  InGrid (m_start move) /\ InGrid (m_end move) /\
  IsTerminal st = false /\
  CellAt st (m_row (m_start move)) (m_column (m_start move))
  = marble_of (current_player_ st).
Proof.
  intros Hwf Hcp Hv. unfold IsValid in Hv.
  repeat match type of Hv with
  | (if ?b then Ok false else _) = _ =>
      destruct b eqn:?; [discriminate|]
  end.
  repeat match goal with
  | H : _ || _ = false |- _ =>
      apply orb_false_iff in H as [? ?]
  | H : bool_decide _ = false |- _ =>
      apply bool_decide_eq_false in H
  end.
  assert (InGrid (m_start move)) as Hs by (unfold InGrid; lia).
  assert (InGrid (m_end move)) as He by (unfold InGrid; lia).
  rewrite BoardAt_CellAt in Hv by (first [assumption | apply Hs]).
  cbn [mbind result_bind] in Hv. unfold CurrentPlayer in Hv.
  destruct (IsTerminal st); [discriminate|].
  rewrite PlayerToState_marble in Hv by exact Hcp.
  cbn [mbind result_bind] in Hv.
  case_bool_decide as Hmine; [discriminate|].
  auto.
Qed.

(** A move the validator can answer about: on a live state it answers
    false unless both ends are in the grid and the start cell holds the
    marble of the player to move. *)
Lemma IsValid_reject st move :
  wf_board st -> IsTerminal st = false -> player_ok st ->
  ~ (InGrid (m_start move) /\ InGrid (m_end move) /\
     CellAt st (m_row (m_start move)) (m_column (m_start move))
     = marble_of (current_player_ st)) ->
  IsValid move st = Ok false.
Proof.
  intros Hwf Hterm Hcp Hnot.
  destruct (decide (InGrid (m_start move))) as [Hs | Hs];
    [|apply IsValid_start_outside; exact Hs].
  unfold IsValid.
  repeat match goal with
  | |- (if ?b then Ok false else _) = _ =>
      destruct b eqn:?; [reflexivity|]
  end.
  repeat match goal with
  | H : _ || _ = false |- _ =>
      apply orb_false_iff in H as [? ?]
  | H : bool_decide _ = false |- _ =>
      apply bool_decide_eq_false in H
  end.
  assert (InGrid (m_end move)) as He by (unfold InGrid; lia).
  rewrite BoardAt_CellAt by (first [assumption | apply Hs]).
  cbn [mbind result_bind].
  rewrite CurrentPlayer_active by exact Hterm.
  rewrite PlayerToState_marble by exact Hcp. cbn [mbind result_bind].
  case_bool_decide as Hmine; [reflexivity|].
  exfalso. apply Hnot. auto.
Qed.

Lemma decoded_walk_in_grid row col dir k :
  0 <= k < kNumActionsPerDirection ->
  InGrid (m_start (decode_fields row col dir k)) ->
  InGrid (m_end (decode_fields row col dir k)) ->
  walk_in_grid (decode_fields row col dir k).
Proof.
  unfold kNumActionsPerDirection, InGrid, walk_in_grid. intros Hk.
  assert (k = 0 \/ k = 1 \/ k = 2 \/ k = 3 \/ k = 4) as Hcases by lia.
  destruct Hcases as [-> | [-> | [-> | [-> | ->]]]];
    destruct dir; cbn; intros Hs He i Hi;
    repeat match goal with
    | |- context [row + ?x - row] =>
        replace (row + x - row) with x in * by lia
    | |- context [col + ?x - col] =>
        replace (col + x - col) with x in * by lia
    end; cbn in *; lia.
Qed.






(** On a live state every id of the action space decodes to a move the
    validator answers about. *)
Lemma IsValid_decoded_total st a :
  wf_board st -> IsTerminal st = false -> player_ok st ->
  0 <= a < kNumCells * kNumActionsPerCell ->
  exists m b, ActionToMove a = Ok m /\ IsValid m st = Ok b.
Proof.
  intros Hwf Hterm Hcp Ha.
  destruct (ActionToMove_fields a)
    as (row & col & dir & k & Hr & Hc & Hk & Ea & Em);
    [unfold_consts; lia|].
  set (m := decode_fields row col dir k) in *.
  exists m.
  destruct (decide (InGrid (m_start m) /\ InGrid (m_end m) /\
                    CellAt st (m_row (m_start m)) (m_column (m_start m))
                    = marble_of (current_player_ st)))
    as [(Hs & He & Hown) | Hnot].
  2:{ exists false. split; [exact Em|]. apply IsValid_reject; auto. }
  destruct (decide (m_row (m_end m) - m_row (m_start m)
                    = m_row (Offsets (m_direction m))
                    /\ m_column (m_end m) - m_column (m_start m)
                       = m_column (Offsets (m_direction m))))
    as [[Hvr Hvc] | Hslide].
  - eexists. split; [exact Em|].
    apply IsValid_inline; auto; lia.
  - destruct (IsValid_slide_in_grid st m) as (b & Hb & _); auto.
    + lia.
    + apply decoded_walk_in_grid; auto.
    + exists b. auto.
Qed.

Lemma scan_order_in_grid :
  forallb (fun p => in_grid (fst p) (snd p)) scan_order = true.
Proof. reflexivity. Qed.

Lemma count_balls_ok cells st ballCount :
  wf_board st ->
  forallb (fun p => in_grid (fst p) (snd p)) cells = true ->
  exists bc, count_balls cells st ballCount = Ok bc.
Proof.
  intros Hwf. revert ballCount.
  induction cells as [|[line column] cells IH]; intros ballCount Hall.
  - eexists; reflexivity.
  - cbn in Hall. apply andb_true_iff in Hall as [Hg Hall].
    apply in_grid_true in Hg as [Hr Hc].
    cbn [count_balls]. rewrite BoardAt_CellAt by assumption.
    cbn [mbind result_bind]. apply IH. exact Hall.
Qed.

Lemma Returns_ok st : wf_board st -> exists v, Returns st = Ok v.
Proof.
  intros Hwf. unfold Returns.
  destruct (_ && _); [eauto|]. destruct (_ && _); [eauto|].
  destruct (count_balls_ok scan_order st (0, 0) Hwf scan_order_in_grid)
    as (bc & ->).
  cbn [mbind result_bind].
  repeat case_bool_decide; eauto.
Qed.

(** The two branches of [DoApplyAction]. *)
Lemma DoApplyAction_invalid a st m :
  ActionToMove a = Ok m -> IsValid m st = Ok false ->
  DoApplyAction a st
  = Ok (mkState (board_ st) (current_player_ st) (1 - current_player_ st)
          (num_moves_ st)).
Proof. intros Hm Hv. unfold DoApplyAction. rewrite Hm; cbn. rewrite Hv. reflexivity. Qed.

Lemma DoApplyAction_valid a st m :
  wf_board st -> player_ok st ->
  ActionToMove a = Ok m -> IsValid m st = Ok true ->
  exists st1 st',
    Apply m st = Ok st1 /\
    DoApplyAction a st = Ok st' /\
    board_ st' = board_ st1 /\
    wf_board st' /\
    current_player_ st' = 1 - current_player_ st /\
    num_moves_ st' = num_moves_ st + 1 /\
    marbles st1 <= marbles st /\
    (forall r c, CellAt st r c = kInvalid -> CellAt st' r c = kInvalid).
Proof.
  intros Hwf Hcp Hm Hv.
  destruct (IsValid_true_inv st m Hwf Hcp Hv) as ([Hsr Hsc] & _ & Hterm & Hown).
  destruct (Apply_spec st m Hwf Hsr Hsc)
    as (st1 & Happ & Hwf1 & Hcp1 & Ho1 & Hn1 & Hle & Hinv).
  destruct (Returns_ok st1 Hwf1) as (v & Hret).
  assert (exists mine, returns_at v (current_player_ st1) = Ok mine)
    as (mine & Hmine).
  { unfold returns_at. rewrite Hcp1. destruct Hcp as [-> | ->]; cbn; eauto. }
  exists st1. eexists. split; [exact Happ|].
  unfold DoApplyAction. rewrite Hm; cbn. rewrite Hv, Happ; cbn.
  rewrite Hret; cbn. rewrite Hmine; cbn.
  split; [reflexivity|]. cbn.
  split; [reflexivity|]. split; [exact Hwf1|].
  split; [congruence|]. split; [congruence|]. split; [exact Hle|].
  intros r c Hi.
  change (CellAt st1 r c = kInvalid). apply Hinv; [|exact Hi].
  rewrite Hown. destruct Hcp as [-> | ->]; discriminate.
Qed.

Lemma DoApplyAction_preserves a st st' :
  wf_board st -> player_ok st ->
  DoApplyAction a st = Ok st' ->
  wf_board st' /\ player_ok st' /\
  (forall r c, CellAt st r c = kInvalid -> CellAt st' r c = kInvalid).
Proof.
  intros Hwf Hcp Hdo.
  destruct (ActionToMove a) as [m| | |] eqn:Hm;
    try (unfold DoApplyAction in Hdo; rewrite Hm in Hdo; discriminate).
  destruct (IsValid m st) as [[|]| | |] eqn:Hv;
    try (unfold DoApplyAction in Hdo; rewrite Hm in Hdo; cbn in Hdo;
         rewrite Hv in Hdo; discriminate).
  - destruct (DoApplyAction_valid a st m Hwf Hcp Hm Hv)
      as (st1 & st2 & _ & Hdo2 & _ & Hwf2 & Hcp2 & _ & _ & Hinv).
    rewrite Hdo in Hdo2. injection Hdo2 as <-.
    repeat split; auto. unfold player_ok in *. lia.
  - rewrite (DoApplyAction_invalid a st m Hm Hv) in Hdo.
    injection Hdo as <-. repeat split; auto.
Qed.

Lemma reachable_wf st : reachable st -> wf_board st /\ player_ok st.
Proof.
  induction 1 as [|st a st' _ [Hwf Hcp] Hdo].
  - split; [reflexivity | left; reflexivity].
  - destruct (DoApplyAction_preserves a st st' Hwf Hcp Hdo) as (? & ? & _).
    auto.
Qed.

(** ** C3: the turn *)

(** C3, as the code has it.  On a live state an action that decodes to a
    move [IsValid] accepts toggles the current player once and adds one to
    the counter of moves; an action that decodes to a rejected move sets
    the outcome to the other player and returns at once: current player
    and counter of moves stay as they were. *)
Theorem C3_turn_passes_on_accepted_moves st a m :
  wf_board st -> player_ok st -> IsTerminal st = false ->
  ActionToMove a = Ok m ->
  (IsValid m st = Ok true -> turn_passes a st) /\
  (IsValid m st = Ok false ->
   exists st',
     DoApplyAction a st = Ok st' /\
     current_player_ st' = current_player_ st /\
     num_moves_ st' = num_moves_ st /\
     outcome_ st' = 1 - current_player_ st).
Proof.
  intros Hwf Hcp _ Hm. split; intros Hv.
  - destruct (DoApplyAction_valid a st m Hwf Hcp Hm Hv)
      as (st1 & st' & _ & Hdo & _ & _ & Hcp' & Hn' & _).
    exists st'. auto.
  - rewrite (DoApplyAction_invalid a st m Hm Hv).
    eexists. split; [reflexivity|]. cbn. auto.
Qed.

Lemma C3_turn_passes_witness :
  (IsValid (mkMove RIGHT (mkCoordinate 6 4) (mkCoordinate 6 5))
     NewInitialState = Ok true ->
   turn_passes 1740 NewInitialState) /\
  (IsValid (mkMove RIGHT (mkCoordinate 6 4) (mkCoordinate 6 5))
     NewInitialState = Ok false ->
   exists st',
     DoApplyAction 1740 NewInitialState = Ok st' /\
     current_player_ st' = current_player_ NewInitialState /\
     num_moves_ st' = num_moves_ NewInitialState /\
     outcome_ st' = 1 - current_player_ NewInitialState).
Proof.
  apply (C3_turn_passes_on_accepted_moves NewInitialState 1740
           (mkMove RIGHT (mkCoordinate 6 4) (mkCoordinate 6 5))).
  - reflexivity.
  - left; reflexivity.
  - reflexivity.
  - vm_compute; reflexivity.
Defined.

(** C3 as stated fails on a forfeiting action: from the initial state the
    action that pushes b1 to the right is rejected (six marbles in line),
    and the turn does not pass. *)
Lemma C3_forfeit_keeps_turn :
  IsTerminal NewInitialState = false /\
  DoApplyAction 1890 NewInitialState
  = Ok (mkState ABALONE_INIT_CLASSIC 0 1 0) /\
  ~ turn_passes 1890 NewInitialState.
Proof.
  assert (DoApplyAction 1890 NewInitialState
          = Ok (mkState ABALONE_INIT_CLASSIC 0 1 0)) as Hval
    by (vm_compute; reflexivity).
  split; [reflexivity|]. split; [exact Hval|].
  intros (st' & Hdo & Hcp & _).
  rewrite Hval in Hdo. injection Hdo as <-. cbn in Hcp. discriminate Hcp.
Qed.

(** ** C5: forfeiture *)

(** C5. On a live state every action id of the action space decodes to a
    move the validator answers about; when the answer is no,
    [DoApplyAction] returns a state with the same board which is terminal
    and whose returns are (-1, +1) when player 0 submitted the action and
    (+1, -1) when player 1 did, whatever the board. *)
Theorem C5_illegal_action_forfeits st a :
  wf_board st -> player_ok st -> IsTerminal st = false ->
  0 <= a < kNumCells * kNumActionsPerCell ->
  exists m b,
    ActionToMove a = Ok m /\ IsValid m st = Ok b /\
    (b = false ->
     exists st',
       DoApplyAction a st = Ok st' /\
       board_ st' = board_ st /\
       IsTerminal st' = true /\
       (current_player_ st = 0 -> Returns st' = Ok ((-1)%Q, 1%Q)) /\
       (current_player_ st = 1 -> Returns st' = Ok (1%Q, (-1)%Q))).
Proof.
  intros Hwf Hcp Hterm Ha.
  destruct (IsValid_decoded_total st a Hwf Hterm Hcp Ha) as (m & b & Hm & Hv).
  exists m, b. split; [exact Hm|]. split; [exact Hv|].
  intros ->. rewrite (DoApplyAction_invalid a st m Hm Hv).
  eexists. split; [reflexivity|]. cbn [board_].
  split; [reflexivity|].
  destruct Hcp as [H0 | H1].
  - rewrite H0. split; [reflexivity|]. split; [reflexivity | discriminate].
  - rewrite H1. split; [reflexivity|]. split; [discriminate | reflexivity].
Qed.

Lemma C5_illegal_action_forfeits_witness :
  exists m b,
    ActionToMove 1890 = Ok m /\ IsValid m NewInitialState = Ok b /\
    (b = false ->
     exists st',
       DoApplyAction 1890 NewInitialState = Ok st' /\
       board_ st' = board_ NewInitialState /\
       IsTerminal st' = true /\
       (current_player_ NewInitialState = 0 ->
        Returns st' = Ok ((-1)%Q, 1%Q)) /\
       (current_player_ NewInitialState = 1 ->
        Returns st' = Ok (1%Q, (-1)%Q))).
Proof.
  apply (C5_illegal_action_forfeits NewInitialState 1890).
  - reflexivity.
  - left; reflexivity.
  - reflexivity.
  - unfold kNumCells, kNumActionsPerCell, kNumRows, kNumCols,
      Direction_Last, kNumActionsPerDirection. lia.
Defined.

(** ** C6: ids outside the action space *)

Lemma ActionToMove_not_Fatal a : ActionToMove a <> Fatal.
Proof.
  unfold ActionToMove, Offsets_at.
  repeat match goal with
  | |- context [match ?x with _ => _ end] => destruct x
  end; cbn; discriminate.
Qed.

(** C6, as the code has it.  The decoder has no range check: for no id
    outside the action space does it end in a fatal error.  An id at or
    above the size of the action space (with a row field that fits an
    [int]) decodes to a move whose start row lies at or beyond the last
    row; [IsValid] answers false on it in every state, and
    [DoApplyAction] takes it for an illegal submission. *)
Theorem C6_decoder_has_no_range_check a :
  ~ (0 <= a < kNumCells * kNumActionsPerCell) ->
  ActionToMove a <> Fatal /\
  (0 <= a < kNumCols * kNumActionsPerCell * 2 ^ 31 ->
   exists m,
     ActionToMove a = Ok m /\
     kNumRows <= m_row (m_start m) /\
     (forall st, IsValid m st = Ok false) /\
     (forall st,
        DoApplyAction a st
        = Ok (mkState (board_ st) (current_player_ st)
                (1 - current_player_ st) (num_moves_ st)))).
Proof.
  intros Hout. split; [apply ActionToMove_not_Fatal|].
  intros Ha.
  destruct (ActionToMove_start a Ha)
    as (row & col & d & k & m & Hr & Hc & Hd & Hk & Ea & Em & Hstart).
  exists m.
  assert (kNumRows <= row) as Hrow by (unfold_consts; lia).
  assert (forall st, IsValid m st = Ok false) as Hrej.
  { intros st. apply IsValid_start_outside. unfold InGrid.
    rewrite Hstart. cbn. lia. }
  split; [exact Em|].
  split; [rewrite Hstart; exact Hrow|]. split; [exact Hrej|].
  intros st. apply (DoApplyAction_invalid a st _ Em (Hrej st)).
Qed.

Lemma C6_decoder_has_no_range_check_witness :
  ActionToMove 2430 <> Fatal /\
  exists m,
    ActionToMove 2430 = Ok m /\
    kNumRows <= m_row (m_start m) /\
    (forall st, IsValid m st = Ok false) /\
    (forall st,
       DoApplyAction 2430 st
       = Ok (mkState (board_ st) (current_player_ st)
               (1 - current_player_ st) (num_moves_ st))).
Proof.
  destruct (C6_decoder_has_no_range_check 2430) as [Hnf Hdec].
  - unfold kNumCells, kNumActionsPerCell, kNumRows, kNumCols,
      Direction_Last, kNumActionsPerDirection. lia.
  - split; [exact Hnf|]. apply Hdec.
    unfold kNumActionsPerCell, kNumCols, Direction_Last,
      kNumActionsPerDirection. lia.
Defined.

(** C6 as stated fails at the first id past the action space: the decoder
    returns a move, on row 9. *)
Lemma C6_id_2430_decodes :
  ~ (0 <= 2430 < kNumCells * kNumActionsPerCell) /\
  ActionToMove 2430
  = Ok (mkMove RIGHT (mkCoordinate 9 0) (mkCoordinate 9 1)) /\
  ActionToMove 2430 <> Fatal.
Proof.
  split; [unfold_consts; lia|].
  split; [reflexivity | discriminate].
Qed.

(** ** C8: the scenario on the classic layout *)

(** C8, as the code has it.  Action 1890 is the step of the marble on b1
    (row index 7, column index 0) in the direction of offset (0, +1).  In
    the classic layout b2 to b6 hold marbles of player 0 as well, so the
    move is rejected and the action is a forfeiture: same board, player 0
    still current, no move counted, outcome player 1, terminal.  The step
    of that kind which the layout allows, c5 to the Empty cell c6, empties
    its source, puts a marble of player 0 on its destination and passes
    the turn. *)
Theorem C8_classic_first_moves :
  ActionToMove 1890
  = Ok (mkMove RIGHT (mkCoordinate 7 0) (mkCoordinate 7 1)) /\
  Offsets RIGHT = mkCoordinate 0 1 /\
  line_of 6 NewInitialState 7 0 0 1
  = [kPlayer1; kPlayer1; kPlayer1; kPlayer1; kPlayer1; kPlayer1] /\
  IsValid (mkMove RIGHT (mkCoordinate 7 0) (mkCoordinate 7 1))
    NewInitialState = Ok false /\
  (exists st',
     DoApplyAction 1890 NewInitialState = Ok st' /\
     board_ st' = board_ NewInitialState /\
     CellAt st' 7 0 = kPlayer1 /\ CellAt st' 7 1 = kPlayer1 /\
     current_player_ st' = 0 /\ num_moves_ st' = 0 /\
     outcome_ st' = 1 /\ IsTerminal st' = true) /\
  ActionToMove 1740
  = Ok (mkMove RIGHT (mkCoordinate 6 4) (mkCoordinate 6 5)) /\
  CellAt NewInitialState 6 4 = kPlayer1 /\
  CellAt NewInitialState 6 5 = kEmpty /\
  (exists st',
     DoApplyAction 1740 NewInitialState = Ok st' /\
     CellAt st' 6 4 = kEmpty /\ CellAt st' 6 5 = kPlayer1 /\
     current_player_ st' = 1 /\ num_moves_ st' = 1 /\
     IsTerminal st' = false).
Proof.
  repeat match goal with
  | |- _ /\ _ => split
  | |- exists _, DoApplyAction ?a ?st = _ /\ _ =>
      let r := eval vm_compute in (DoApplyAction a st) in
      match r with
      | Ok ?s => exists s
      end
  end; vm_compute; reflexivity.
Qed.

(** C8 as stated fails: after the action that steps b1 to the right the
    cell b1 is not Empty, and none of the state changes of the scenario
    took place. *)
Lemma C8_b1_right_forfeits :
  ActionToMove 1890
  = Ok (mkMove RIGHT (mkCoordinate 7 0) (mkCoordinate 7 1)) /\
  ~ (exists st',
       DoApplyAction 1890 NewInitialState = Ok st' /\
       CellAt st' 7 0 = kEmpty /\ CellAt st' 7 1 = kPlayer1 /\
       current_player_ st' = 1 /\ num_moves_ st' = 1 /\
       IsTerminal st' = false).
Proof.
  split; [reflexivity|].
  intros (st' & Hdo & Hsrc & _).
  assert (DoApplyAction 1890 NewInitialState
          = Ok (mkState ABALONE_INIT_CLASSIC 0 1 0)) as Hval
    by (vm_compute; reflexivity).
  rewrite Hval in Hdo. injection Hdo as <-.
  vm_compute in Hsrc. discriminate Hsrc.
Qed.

(** ** C9: Invalid cells *)

(** C9. From a reachable state, [DoApplyAction] returns for every id of
    the action space as long as the game is live, and whenever it returns,
    for whatever action, every cell of the grid that was Invalid is still
    Invalid. *)
Theorem C9_invalid_cells_stay_invalid st a :
  reachable st ->
  (IsTerminal st = false -> 0 <= a < kNumCells * kNumActionsPerCell ->
   exists st', DoApplyAction a st = Ok st') /\
  (forall st', DoApplyAction a st = Ok st' ->
   forall r c, 0 <= r < kNumRows -> 0 <= c < kNumCols ->
     BoardAt st r c = Ok kInvalid -> BoardAt st' r c = Ok kInvalid).
Proof.
  intros Hreach. destruct (reachable_wf st Hreach) as [Hwf Hcp]. split.
  - intros Hterm Ha.
    destruct (IsValid_decoded_total st a Hwf Hterm Hcp Ha)
      as (m & [|] & Hm & Hv).
    + destruct (DoApplyAction_valid a st m Hwf Hcp Hm Hv)
        as (_ & st' & _ & Hdo & _). eauto.
    + rewrite (DoApplyAction_invalid a st m Hm Hv). eauto.
  - intros st' Hdo r c Hr Hc.
    destruct (DoApplyAction_preserves a st st' Hwf Hcp Hdo)
      as (Hwf' & _ & Hinv).
    rewrite !BoardAt_CellAt by assumption.
    intros Hi. f_equal. apply Hinv. congruence.
Qed.

Lemma C9_invalid_cells_stay_invalid_witness :
  (IsTerminal NewInitialState = false ->
   0 <= 1740 < kNumCells * kNumActionsPerCell ->
   exists st', DoApplyAction 1740 NewInitialState = Ok st') /\
  (forall st', DoApplyAction 1740 NewInitialState = Ok st' ->
   forall r c, 0 <= r < kNumRows -> 0 <= c < kNumCols ->
     BoardAt NewInitialState r c = Ok kInvalid ->
     BoardAt st' r c = Ok kInvalid).
Proof.
  apply (C9_invalid_cells_stay_invalid NewInitialState 1740).
  apply reachable_init.
Defined.

(** ** C7: marbles under an in-line push *)

Lemma CellAt_in_grid st r c :
  CellAt st r c <> kInvalid -> 0 <= r < kNumRows /\ 0 <= c < kNumCols.
Proof.
  unfold CellAt. destruct (in_grid r c) eqn:Hg; [|congruence].
  intros _. apply in_grid_true. exact Hg.
Qed.

Section SingleMoveWalk.

Variables dr dc : Z.
Hypothesis step_nonzero : dr <> 0 \/ dc <> 0.

(** One round of the loop on a cell that is neither Invalid nor Empty. *)
Lemma ApplySingleMove_loop_marble fuel st r c nextId :
  wf_board st -> is_marble (CellAt st r c) ->
  exists st1,
    ApplySingleMove_loop (S fuel) st dr dc r c nextId
    = ApplySingleMove_loop fuel st1 dr dc (r + dr) (c + dc) (CellAt st r c) /\
    wf_board st1 /\
    (forall r' c', CellAt st1 r' c'
                   = if bool_decide (r' = r /\ c' = c) then nextId
                     else CellAt st r' c') /\
    (forall s, count_cells s (board_ st1)
               = count_cells s (board_ st) - same (CellAt st r c) s
                 + same nextId s).
Proof.
  intros Hwf Hm.
  destruct (CellAt_in_grid st r c) as [Hr Hc];
    [destruct Hm as [-> | ->]; discriminate|].
  destruct (SetBoard_spec st r c nextId Hwf Hr Hc)
    as (st1 & Hset & Hwf1 & _ & _ & _ & Hcell & Hcnt).
  exists st1. split; [|auto].
  cbn [ApplySingleMove_loop].
  rewrite !bool_decide_true by lia. cbn [andb].
  rewrite BoardAt_CellAt by assumption. cbn [mbind result_bind].
  rewrite Hset. cbn [mbind result_bind].
  destruct Hm as [Hm | Hm]; rewrite Hm; reflexivity.
Qed.

(** The last round, on an Empty cell. *)
Lemma ApplySingleMove_loop_empty fuel st r c nextId :
  wf_board st -> CellAt st r c = kEmpty ->
  exists st1,
    ApplySingleMove_loop (S fuel) st dr dc r c nextId = Ok st1 /\
    wf_board st1 /\
    (forall r' c', CellAt st1 r' c'
                   = if bool_decide (r' = r /\ c' = c) then nextId
                     else CellAt st r' c') /\
    (forall s, count_cells s (board_ st1)
               = count_cells s (board_ st) - same kEmpty s + same nextId s).
Proof.
  intros Hwf He.
  destruct (CellAt_in_grid st r c) as [Hr Hc]; [congruence|].
  destruct (SetBoard_spec st r c nextId Hwf Hr Hc)
    as (st1 & Hset & Hwf1 & _ & _ & _ & Hcell & Hcnt).
  exists st1. rewrite He in Hcnt. split; [|auto].
  cbn [ApplySingleMove_loop].
  rewrite !bool_decide_true by lia. cbn [andb].
  rewrite BoardAt_CellAt by assumption. cbn [mbind result_bind].
  rewrite Hset, He. reflexivity.
Qed.

(** The walk stops, with nothing written, on a position that reads
    Invalid: an Invalid cell or a position outside the grid. *)
Lemma ApplySingleMove_loop_invalid fuel st r c nextId :
  wf_board st -> CellAt st r c = kInvalid ->
  ApplySingleMove_loop (S fuel) st dr dc r c nextId = Ok st.
Proof.
  intros Hwf Hi. cbn [ApplySingleMove_loop].
  destruct (bool_decide (r >= 0) && bool_decide (r < kNumRows)
            && bool_decide (c >= 0) && bool_decide (c < kNumCols)) eqn:Hg;
    [|reflexivity].
  rewrite !andb_true_iff, !bool_decide_eq_true in Hg.
  rewrite BoardAt_CellAt by (first [assumption | lia]).
  rewrite Hi. reflexivity.
Qed.

(** The walk over a run of [k] marbles that ends on a position reading
    [stop], Empty or Invalid.  [n] is the last position written; [out]
    is the value in hand when the walk stops. *)
Lemma ApplySingleMove_loop_run k :
  forall fuel st r c nextId stop,
    wf_board st -> (k < fuel)%nat ->
    (forall j, 0 <= j < Z.of_nat k ->
       is_marble (CellAt st (r + j * dr) (c + j * dc))) ->
    CellAt st (r + Z.of_nat k * dr) (c + Z.of_nat k * dc) = stop ->
    stop = kEmpty \/ stop = kInvalid ->
    exists st' out,
      ApplySingleMove_loop fuel st dr dc r c nextId = Ok st' /\
      wf_board st' /\
      let n := if bool_decide (stop = kEmpty)
               then Z.of_nat k else Z.of_nat k - 1 in
      (0 <= n -> CellAt st' r c = nextId) /\
      (forall j, 1 <= j <= n ->
         CellAt st' (r + j * dr) (c + j * dc)
         = CellAt st (r + (j - 1) * dr) (c + (j - 1) * dc)) /\
      (forall r' c',
         (forall j, 0 <= j <= n -> ~ (r' = r + j * dr /\ c' = c + j * dc)) ->
         CellAt st' r' c' = CellAt st r' c') /\
      (forall s, count_cells s (board_ st') + same out s
                 = count_cells s (board_ st) + same nextId s) /\
      (stop = kEmpty -> out = kEmpty) /\
      (stop = kInvalid -> k = 0%nat -> out = nextId) /\
      (stop = kInvalid -> (0 < k)%nat ->
       out = CellAt st (r + (Z.of_nat k - 1) * dr)
                       (c + (Z.of_nat k - 1) * dc)).
Proof.
  induction k as [|k IH]; intros fuel st r c nextId stop Hwf Hfuel Hrun Hstop Hkind.
  - destruct fuel as [|fuel]; [lia|].
    rewrite !Z.mul_0_l, !Z.add_0_r in Hstop.
    destruct Hkind as [-> | ->].
    + destruct (ApplySingleMove_loop_empty fuel st r c nextId Hwf Hstop)
        as (st1 & Hloop & Hwf1 & Hcell & Hcnt).
      exists st1, kEmpty. rewrite bool_decide_true by reflexivity.
      split; [exact Hloop|]. split; [exact Hwf1|]. cbn zeta.
      split; [|split; [|split; [|split; [|split; [|split]]]]].
      * intros _. rewrite Hcell, bool_decide_true by auto. reflexivity.
      * intros j Hj. lia.
      * intros r' c' Hout. rewrite Hcell, bool_decide_false; [reflexivity|].
        intros [-> ->]. apply (Hout 0); [lia|]. lia.
      * intros s. rewrite Hcnt. lia.
      * reflexivity.
      * intros Hx. discriminate Hx.
      * intros Hx. discriminate Hx.
    + exists st, nextId. rewrite bool_decide_false by discriminate.
      split; [apply ApplySingleMove_loop_invalid; assumption|].
      split; [exact Hwf|]. cbn zeta.
      split; [|split; [|split; [|split; [|split; [|split]]]]].
      * intros Hn. lia.
      * intros j Hj. lia.
      * reflexivity.
      * reflexivity.
      * intros Hx. discriminate Hx.
      * reflexivity.
      * intros _ Hk. lia.
  - destruct fuel as [|fuel]; [lia|].
    assert (is_marble (CellAt st r c)) as Hm.
    { specialize (Hrun 0). rewrite !Z.mul_0_l, !Z.add_0_r in Hrun.
      apply Hrun. lia. }
    destruct (ApplySingleMove_loop_marble fuel st r c nextId Hwf Hm)
      as (st1 & Hloop & Hwf1 & Hcell & Hcnt).
    assert (forall j, 0 <= j ->
              CellAt st1 (r + dr + j * dr) (c + dc + j * dc)
              = CellAt st (r + (j + 1) * dr) (c + (j + 1) * dc)) as Hahead.
    { intros j Hj. rewrite Hcell, bool_decide_false.
      - f_equal; lia.
      - intros [Hx Hy]. destruct step_nonzero; nia. }
    destruct (IH fuel st1 (r + dr) (c + dc) (CellAt st r c) stop Hwf1)
      as (st' & out & Hloop' & Hwf' & Hfirst & Hshift & Hother & Hcnt'
          & Hout1 & Hout2 & Hout3).
    { lia. }
    { intros j Hj. rewrite Hahead by lia. apply Hrun. lia. }
    { rewrite Hahead by lia. rewrite <- Hstop. f_equal; lia. }
    { exact Hkind. }
    exists st', out. rewrite Hloop.
    split; [exact Hloop'|]. split; [exact Hwf'|]. cbn zeta in *.
    set (n' := if bool_decide (stop = kEmpty)
               then Z.of_nat k else Z.of_nat k - 1) in *.
    assert ((if bool_decide (stop = kEmpty)
             then Z.of_nat (S k) else Z.of_nat (S k) - 1) = n' + 1) as ->.
    { subst n'. case_bool_decide; lia. }
    assert (-1 <= n') as Hn' by (subst n'; case_bool_decide; lia).
    split; [|split; [|split; [|split; [|split; [|split]]]]].
    + intros _. rewrite Hother.
      * rewrite Hcell, bool_decide_true by auto. reflexivity.
      * intros j Hj [Hx Hy]. destruct step_nonzero; nia.
    + intros j Hj. destruct (decide (j = 1)) as [-> | Hj1].
      * replace (r + 1 * dr) with (r + dr) by lia.
        replace (c + 1 * dc) with (c + dc) by lia.
        rewrite Hfirst by lia. f_equal; lia.
      * replace (r + j * dr) with (r + dr + (j - 1) * dr) by lia.
        replace (c + j * dc) with (c + dc + (j - 1) * dc) by lia.
        rewrite Hshift by lia.
        replace (r + dr + (j - 1 - 1) * dr) with (r + dr + (j - 2) * dr)
          by lia.
        replace (c + dc + (j - 1 - 1) * dc) with (c + dc + (j - 2) * dc)
          by lia.
        rewrite Hahead by lia. f_equal; lia.
    + intros r' c' Hout. rewrite Hother.
      * rewrite Hcell, bool_decide_false; [reflexivity|].
        intros [-> ->]. apply (Hout 0); [lia|]. lia.
      * intros j Hj [-> ->]. apply (Hout (j + 1)); [lia|]. lia.
    + intros s. rewrite Hcnt', Hcnt. lia.
    + exact Hout1.
    + intros _ Hk. lia.
    + intros Hi _. destruct k as [|k'].
      * rewrite (Hout2 Hi eq_refl). f_equal; lia.
      * rewrite (Hout3 Hi) by lia.
        replace (r + dr + (Z.of_nat (S k') - 1) * dr)
          with (r + dr + Z.of_nat k' * dr) by lia.
        replace (c + dc + (Z.of_nat (S k') - 1) * dc)
          with (c + dc + Z.of_nat k' * dc) by lia.
        rewrite Hahead by lia. f_equal; lia.
Qed.

End SingleMoveWalk.

Lemma Offsets_nonzero d :
  m_row (Offsets d) <> 0 \/ m_column (Offsets d) <> 0.
Proof. destruct d; cbn; lia. Qed.

Lemma inline_push_run st move (k : nat) :
  wf_board st -> player_ok st ->
  m_row (m_end move)
  = m_row (m_start move) + m_row (Offsets (m_direction move)) ->
  m_column (m_end move)
  = m_column (m_start move) + m_column (Offsets (m_direction move)) ->
  (1 <= k <= 5)%nat ->
  (forall j, 0 <= j < Z.of_nat k ->
     is_marble (CellAt st
                  (m_row (m_start move)
                   + j * m_row (Offsets (m_direction move)))
                  (m_column (m_start move)
                   + j * m_column (Offsets (m_direction move))))) ->
  (CellAt st
     (m_row (m_start move) + Z.of_nat k * m_row (Offsets (m_direction move)))
     (m_column (m_start move)
      + Z.of_nat k * m_column (Offsets (m_direction move))) = kEmpty
   \/
   (CellAt st
      (m_row (m_start move) + Z.of_nat k * m_row (Offsets (m_direction move)))
      (m_column (m_start move)
       + Z.of_nat k * m_column (Offsets (m_direction move))) = kInvalid
    /\
    CellAt st
      (m_row (m_start move)
       + (Z.of_nat k - 1) * m_row (Offsets (m_direction move)))
      (m_column (m_start move)
       + (Z.of_nat k - 1) * m_column (Offsets (m_direction move)))
    = marble_of (1 - current_player_ st))) ->
  exists st', Apply move st = Ok st' /\ push_outcome st st' move (Z.of_nat k).
Proof.
  intros Hwf Hcp Her Hec Hk Hrun Hstop.
  set (sr := m_row (m_start move)) in *.
  set (sc := m_column (m_start move)) in *.
  set (dr := m_row (Offsets (m_direction move))) in *.
  set (dc := m_column (Offsets (m_direction move))) in *.
  assert (Apply move st
          = ApplySingleMove_loop single_move_fuel st dr dc sr sc kEmpty) as ->.
  { unfold Apply, _ApplySingleMove. fold sr sc dr dc.
    rewrite !bool_decide_false by lia. reflexivity. }
  assert (dr <> 0 \/ dc <> 0) as Hnz by apply Offsets_nonzero.
  assert (marble_of (1 - current_player_ st)
          <> marble_of (current_player_ st)
          /\ is_marble (marble_of (1 - current_player_ st))
          /\ is_marble (marble_of (current_player_ st))) as (Hne & Hmo & Hmw).
  { destruct Hcp as [-> | ->]; cbn; unfold is_marble;
      repeat split; auto; discriminate. }
  unfold push_outcome. fold sr sc dr dc.
  destruct Hstop as [Hempty | [Hinvalid Hfront]].
  - destruct (ApplySingleMove_loop_run dr dc Hnz k single_move_fuel st sr sc
                kEmpty kEmpty Hwf)
      as (st' & out & Hloop & Hwf' & Hfirst & Hshift & Hother & Hcnt
          & Hout & _ & _); auto.
    { unfold single_move_fuel. lia. }
    rewrite bool_decide_true in Hfirst, Hshift, Hother by reflexivity.
    rewrite (Hout eq_refl) in Hcnt.
    assert (forall s, count_cells s (board_ st') = count_cells s (board_ st))
      as Hsame by (intros s; specialize (Hcnt s); lia).
    exists st'. split; [exact Hloop|].
    split; [lia|]. split; [exact Hrun|].
    split; [unfold marbles; rewrite !Hsame; lia|].
    left. split; [exact Hempty|]. split; [apply Hsame|].
    split; [apply Hsame|].
    split; [apply Hfirst; lia|]. split; [exact Hshift | exact Hother].
  - destruct (ApplySingleMove_loop_run dr dc Hnz k single_move_fuel st sr sc
                kEmpty kInvalid Hwf)
      as (st' & out & Hloop & Hwf' & Hfirst & Hshift & Hother & Hcnt
          & _ & _ & Hout); auto.
    { unfold single_move_fuel. lia. }
    rewrite bool_decide_false in Hfirst, Hshift, Hother by discriminate.
    rewrite (Hout eq_refl) in Hcnt by lia. rewrite Hfront in Hcnt.
    pose proof (Hcnt kPlayer1) as H1. pose proof (Hcnt kPlayer2) as H2.
    assert (count_cells (marble_of (current_player_ st)) (board_ st')
            = count_cells (marble_of (current_player_ st)) (board_ st)
            /\ count_cells (marble_of (1 - current_player_ st)) (board_ st')
               = count_cells (marble_of (1 - current_player_ st)) (board_ st)
                 - 1
            /\ marbles st' = marbles st - 1) as (Hown & Hopp & Hall).
    { unfold marbles, same in *.
      destruct Hcp as [Hp | Hp]; rewrite Hp in *;
        [ change (marble_of (1 - 0)) with kPlayer2 in *;
          change (marble_of 0) with kPlayer1 in *
        | change (marble_of (1 - 1)) with kPlayer1 in *;
          change (marble_of 1) with kPlayer2 in * ];
        repeat case_bool_decide; try congruence; lia. }
    exists st'. split; [exact Hloop|].
    split; [lia|]. split; [exact Hrun|].
    split; [lia|].
    right. split; [exact Hinvalid|]. split; [exact Hfront|].
    split; [exact Hown|]. split; [exact Hopp|]. split; [exact Hall|].
    split; [apply Hfirst; lia|]. split; [exact Hshift | exact Hother].
Qed.

(** Every position of a run listed in the hypotheses holds a marble. *)
Ltac run_cells :=
  let j := fresh "j" in
  let Hj := fresh "Hj" in
  intros j Hj;
  repeat match goal with
  | H : CellAt _ (_ + ?n * _) (_ + ?n * _) = _ |- _ =>
      destruct (decide (j = n)) as [-> | ?]; [rewrite H; assumption|];
      clear H
  end; lia.

(** C7, as the code has it.  A legal in-line push never adds a marble.
    The number of marbles goes down, by exactly one marble of the
    opponent, only when the position the run is pushed onto reads Invalid:
    an Invalid cell of the grid or a position beyond the grid.  When that
    position is Empty every marble of the run moves one step and each
    player keeps all marbles. *)
Theorem C7_inline_push_marbles st move :
  wf_board st -> player_ok st ->
  m_row (m_end move)
  = m_row (m_start move) + m_row (Offsets (m_direction move)) ->
  m_column (m_end move)
  = m_column (m_start move) + m_column (Offsets (m_direction move)) ->
  IsValid move st = Ok true ->
  exists st' k, Apply move st = Ok st' /\ push_outcome st st' move k.
Proof.
  intros Hwf Hcp Her Hec Hv.
  destruct (IsValid_true_inv st move Hwf Hcp Hv) as (Hs & He & Hterm & Hown).
  pose proof (IsValid_inline st move Hwf Hterm Hcp Hs He Hown Her Hec) as Hv'.
  assert (line_tests (marble_of (current_player_ st))
            (line_of 6 st (m_row (m_start move)) (m_column (m_start move))
               (m_row (Offsets (m_direction move)))
               (m_column (Offsets (m_direction move)))) = true) as Htests
    by congruence.
  apply line_tests_patterns in Htests;
    [|destruct Hcp as [-> | ->]; auto].
  rewrite marble_of_opponent in Htests by exact Hcp.
  unfold inline_patterns, empty_or_invalid in Htests.
  rewrite !line_at_line_of in Htests by lia.
  change (Z.of_nat 1) with 1 in Htests. change (Z.of_nat 2) with 2 in Htests.
  change (Z.of_nat 3) with 3 in Htests. change (Z.of_nat 4) with 4 in Htests.
  change (Z.of_nat 5) with 5 in Htests.
  set (sr := m_row (m_start move)) in *.
  set (sc := m_column (m_start move)) in *.
  set (dr := m_row (Offsets (m_direction move))) in *.
  set (dc := m_column (Offsets (m_direction move))) in *.
  set (own := marble_of (current_player_ st)) in *.
  set (opp := marble_of (1 - current_player_ st)) in *.
  assert (is_marble own /\ is_marble opp) as [Hmw Hmo].
  { subst own opp. destruct Hcp as [-> | ->]; cbn; unfold is_marble; auto. }
  assert (CellAt st (sr + 0 * dr) (sc + 0 * dc) = own) as H0.
  { rewrite !Z.mul_0_l, !Z.add_0_r. exact Hown. }
  assert (forall k : nat,
            (1 <= k <= 5)%nat ->
            (forall j, 0 <= j < Z.of_nat k ->
               is_marble (CellAt st (sr + j * dr) (sc + j * dc))) ->
            (CellAt st (sr + Z.of_nat k * dr) (sc + Z.of_nat k * dc) = kEmpty
             \/ (CellAt st (sr + Z.of_nat k * dr) (sc + Z.of_nat k * dc)
                 = kInvalid
                 /\ CellAt st (sr + (Z.of_nat k - 1) * dr)
                              (sc + (Z.of_nat k - 1) * dc) = opp)) ->
            exists st' k', Apply move st = Ok st' /\ push_outcome st st' move k')
    as Hcore.
  { intros k Hk Hrun Hstop.
    destruct (inline_push_run st move k Hwf Hcp Her Hec Hk Hrun Hstop)
      as (st' & Happ & Hout).
    exists st', (Z.of_nat k). auto. }
  destruct Htests as
    [H1 | [(H1 & H2) | [(H1 & H2 & H3) | [(H1 & H2 & H3)
    | [(H1 & H2 & H3 & H4) | (H1 & H2 & H3 & H4 & H5)]]]]].
  - apply (Hcore 1%nat); [lia | run_cells | left; exact H1].
  - apply (Hcore 2%nat); [lia | run_cells | left; exact H2].
  - apply (Hcore 3%nat); [lia | run_cells |].
    destruct H3 as [H3 | H3]; [right | left]; auto.
  - apply (Hcore 3%nat); [lia | run_cells | left; exact H3].
  - apply (Hcore 4%nat); [lia | run_cells |].
    destruct H4 as [H4 | H4]; [right | left]; auto.
  - apply (Hcore 5%nat); [lia | run_cells |].
    destruct H5 as [H5 | H5]; [right | left]; auto.
Qed.

Lemma C7_inline_push_marbles_witness :
  exists st' k,
    Apply move_edge state_edge = Ok st' /\
    push_outcome state_edge st' move_edge k.
Proof.
  apply (C7_inline_push_marbles state_edge move_edge).
  - reflexivity.
  - left; reflexivity.
  - reflexivity.
  - reflexivity.
  - vm_compute; reflexivity.
Defined.

(** C7 as stated fails on a push off the hex board inside the grid: on
    row a, two marbles of player 0 push the marble of player 1 on a5 onto
    a6.  The move is legal, a6 is a cell of the 9x9 grid, an Invalid one,
    and the board has one marble less afterwards. *)
Lemma C7_push_onto_invalid_cell :
  IsValid move_edge state_edge = Ok true /\
  m_end move_edge
  = mkCoordinate (m_row (m_start move_edge)
                  + m_row (Offsets (m_direction move_edge)))
                 (m_column (m_start move_edge)
                  + m_column (Offsets (m_direction move_edge))) /\
  InGrid (mkCoordinate 8 5) /\
  BoardAt state_edge 8 5 = Ok kInvalid /\
  exists st',
    Apply move_edge state_edge = Ok st' /\
    CellAt st' 8 3 = kPlayer1 /\ CellAt st' 8 4 = kPlayer1 /\
    marbles state_edge = 3 /\ marbles st' = 2.
Proof.
  split; [vm_compute; reflexivity|]. split; [reflexivity|].
  split; [unfold InGrid; cbn; unfold_consts; lia|].
  split; [vm_compute; reflexivity|].
  match eval vm_compute in (Apply move_edge state_edge) with
  | Ok ?s => exists s
  end.
  repeat split; vm_compute; reflexivity.
Qed.

(** * Further properties of the code *)

(** ** LegalActions *)

Lemma LegalActions_loop_spec st n :
  wf_board st -> IsTerminal st = false -> player_ok st ->
  forall i moves,
    0 <= i -> i + Z.of_nat n <= kNumCells * kNumActionsPerCell ->
    exists l,
      LegalActions_loop n i st moves = Ok (moves ++ l) /\
      (forall a, a ∈ l <-> i <= a < i + Z.of_nat n /\ legal_action st a) /\
      StronglySorted Z.lt l.
Proof.
  intros Hwf Hterm Hcp.
  induction n as [|n IH]; intros i moves Hi Hn.
  - exists []. cbn [LegalActions_loop]. rewrite app_nil_r.
    split; [reflexivity|]. split; [|constructor].
    intros a. split; [intros Ha; inversion Ha | lia].
  - destruct (IsValid_decoded_total st i Hwf Hterm Hcp) as (m & b & Hm & Hv);
      [lia|].
    cbn [LegalActions_loop]. rewrite Hm. cbn [mbind result_bind].
    rewrite Hv. cbn [mbind result_bind].
    destruct (IH (i + 1) (if b then moves ++ [i] else moves))
      as (l & Hl & Hmem & Hsorted); [lia | lia |].
    rewrite Hl.
    destruct b.
    + exists (i :: l). split; [rewrite <- app_assoc; reflexivity|].
      split.
      * intros a. rewrite elem_of_cons, Hmem. split.
        -- intros [-> | [Ha Hleg]]; [|split; [lia | exact Hleg]].
           split; [lia|]. exists m. auto.
        -- intros [Ha Hleg].
           destruct (decide (a = i)) as [-> | Hne]; [left; reflexivity|].
           right. split; [lia | exact Hleg].
      * constructor; [exact Hsorted|].
        apply List.Forall_forall. intros a Ha.
        apply list_elem_of_In, Hmem in Ha. lia.
    + exists l. split; [reflexivity|]. split; [|exact Hsorted].
      intros a. rewrite Hmem. split.
      * intros [Ha Hleg]. split; [lia | exact Hleg].
      * intros [Ha Hleg]. split; [|exact Hleg].
        destruct (decide (a = i)) as [-> | Hne]; [|lia].
        destruct Hleg as (m' & Hm' & Hv'). congruence.
Qed.

(** The list [LegalActions] returns on a live state. *)
Lemma LegalActions_spec st :
  wf_board st -> player_ok st -> IsTerminal st = false ->
  exists l,
    LegalActions st = Ok l /\
    (forall a, a ∈ l <->
               0 <= a < kNumCells * kNumActionsPerCell /\ legal_action st a) /\
    StronglySorted Z.lt l /\ NoDup l.
Proof.
  intros Hwf Hcp Hterm. unfold LegalActions. rewrite Hterm.
  destruct (LegalActions_loop_spec st
              (Z.to_nat (kNumCells * kNumActionsPerCell)) Hwf Hterm Hcp 0 [])
    as (l & Hl & Hmem & Hsorted); [lia | unfold_consts; lia |].
  exists l. split; [exact Hl|]. split; [|split; [exact Hsorted|]].
  - intros a. rewrite Hmem. unfold_consts. split; intros [Ha Hleg];
      (split; [lia | exact Hleg]).
  - clear Hl Hmem. induction Hsorted as [|x l Hs IH Hall]; constructor.
    + intros Hx. apply list_elem_of_In in Hx.
      rewrite List.Forall_forall in Hall. specialize (Hall x Hx). lia.
    + exact IH.
Qed.

(** X1. On a live state [LegalActions] returns the ids of the action
    space whose decoded move [IsValid] accepts, all of them and no other,
    in strictly ascending order (so without repetition). *)
Theorem LegalActions_sound_complete st :
  wf_board st -> player_ok st -> IsTerminal st = false ->
  exists l,
    LegalActions st = Ok l /\
    (forall a, a ∈ l <->
               0 <= a < kNumCells * kNumActionsPerCell /\ legal_action st a) /\
    StronglySorted Z.lt l /\ NoDup l.
Proof.
  intros Hwf Hcp Hterm.
  destruct (LegalActions_spec st Hwf Hcp Hterm)
    as (l & Hl & Hmem & Hsorted & Hnodup).
  exists l. auto.
Qed.

Lemma LegalActions_sound_complete_witness :
  exists l,
    LegalActions NewInitialState = Ok l /\
    (forall a, a ∈ l <->
               0 <= a < kNumCells * kNumActionsPerCell
               /\ legal_action NewInitialState a) /\
    StronglySorted Z.lt l /\ NoDup l.
Proof.
  apply (LegalActions_sound_complete NewInitialState).
  - reflexivity.
  - left; reflexivity.
  - reflexivity.
Defined.

(** X2. The enumeration and the transition agree.  On a live state an id
    listed by [LegalActions] passes the turn when applied, and an id of
    the action space that is not listed is a forfeiture: the board stays
    and the outcome goes to the other player. *)
Theorem LegalActions_DoApplyAction st a :
  wf_board st -> player_ok st -> IsTerminal st = false ->
  0 <= a < kNumCells * kNumActionsPerCell ->
  exists l,
    LegalActions st = Ok l /\
    (a ∈ l -> turn_passes a st) /\
    (a ∉ l ->
     DoApplyAction a st
     = Ok (mkState (board_ st) (current_player_ st) (1 - current_player_ st)
             (num_moves_ st))).
Proof.
  intros Hwf Hcp Hterm Ha.
  destruct (LegalActions_spec st Hwf Hcp Hterm)
    as (l & Hl & Hmem & _).
  exists l. split; [exact Hl|]. split.
  - intros Hin. apply Hmem in Hin as [_ (m & Hm & Hv)].
    destruct (DoApplyAction_valid a st m Hwf Hcp Hm Hv)
      as (st1 & st' & _ & Hdo & _ & _ & Hcp' & Hn' & _).
    exists st'. auto.
  - intros Hnot.
    destruct (IsValid_decoded_total st a Hwf Hterm Hcp Ha)
      as (m & [|] & Hm & Hv).
    + exfalso. apply Hnot, Hmem. split; [exact Ha|]. exists m. auto.
    + apply (DoApplyAction_invalid a st m Hm Hv).
Qed.

Lemma LegalActions_DoApplyAction_witness :
  exists l,
    LegalActions NewInitialState = Ok l /\
    (1740 ∈ l -> turn_passes 1740 NewInitialState) /\
    (1740 ∉ l ->
     DoApplyAction 1740 NewInitialState
     = Ok (mkState (board_ NewInitialState) (current_player_ NewInitialState)
             (1 - current_player_ NewInitialState)
             (num_moves_ NewInitialState))).
Proof.
  apply (LegalActions_DoApplyAction NewInitialState 1740).
  - reflexivity.
  - left; reflexivity.
  - reflexivity.
  - unfold kNumCells, kNumActionsPerCell, kNumRows, kNumCols,
      Direction_Last, kNumActionsPerDirection. lia.
Defined.

(** ** What the executors never write *)

Lemma ApplySingleMove_loop_no_new_invalid fuel :
  forall st dr dc r c nextId st',
    wf_board st -> nextId <> kInvalid ->
    ApplySingleMove_loop fuel st dr dc r c nextId = Ok st' ->
    forall r' c', CellAt st' r' c' = kInvalid -> CellAt st r' c' = kInvalid.
Proof.
  induction fuel as [|fuel IH]; intros st dr dc r c nextId st' Hwf Hnext Hloop;
    [discriminate|].
  cbn [ApplySingleMove_loop] in Hloop.
  destruct (bool_decide (r >= 0) && bool_decide (r < kNumRows)
            && bool_decide (c >= 0) && bool_decide (c < kNumCols)) eqn:Hg.
  2:{ injection Hloop as <-. auto. }
  rewrite !andb_true_iff, !bool_decide_eq_true in Hg.
  assert (0 <= r < kNumRows) as Hr by lia.
  assert (0 <= c < kNumCols) as Hc by lia.
  rewrite (BoardAt_CellAt st r c) in Hloop by assumption.
  cbn [mbind result_bind] in Hloop.
  case_bool_decide as Hinv; [injection Hloop as <-; auto|].
  destruct (SetBoard_spec st r c nextId Hwf Hr Hc)
    as (st1 & Hset & Hwf1 & _ & _ & _ & Hcell1 & _).
  rewrite Hset in Hloop. cbn [mbind result_bind] in Hloop.
  assert (forall r' c', CellAt st1 r' c' = kInvalid -> CellAt st r' c' = kInvalid)
    as Hback.
  { intros r' c'. rewrite Hcell1.
    destruct (bool_decide (r' = r /\ c' = c)); [intros; congruence | auto]. }
  case_bool_decide as Hempty; [injection Hloop as <-; exact Hback|].
  intros r' c' Hi. apply Hback.
  apply (IH st1 dr dc (r + dr) (c + dc) (CellAt st r c) st' Hwf1 Hinv Hloop).
  exact Hi.
Qed.

Lemma ApplyParallelMove_loop_no_new_invalid n :
  forall st player dr dc sl sc r c st',
    wf_board st -> player <> kInvalid ->
    ApplyParallelMove_loop n st player dr dc sl sc r c = Ok st' ->
    forall r' c', CellAt st' r' c' = kInvalid -> CellAt st r' c' = kInvalid.
Proof.
  induction n as [|n IH]; intros st player dr dc sl sc r c st' Hwf Hp Hloop.
  { injection Hloop as <-. auto. }
  cbn [ApplyParallelMove_loop] in Hloop.
  destruct (bool_decide (r < 0) || bool_decide (r >= kNumRows)
            || bool_decide (c < 0) || bool_decide (c >= kNumCols)) eqn:Hg;
    [injection Hloop as <-; auto|].
  rewrite !orb_false_iff, !bool_decide_eq_false in Hg.
  rewrite (BoardAt_CellAt st r c) in Hloop by (first [assumption | lia]).
  cbn [mbind result_bind] in Hloop.
  case_bool_decide as Hid; [injection Hloop as <-; auto|].
  destruct (bool_decide (r + dr < 0) || bool_decide (r + dr >= kNumRows)
            || bool_decide (c + dc < 0) || bool_decide (c + dc >= kNumCols))
    eqn:Hd; [injection Hloop as <-; auto|].
  rewrite !orb_false_iff, !bool_decide_eq_false in Hd.
  rewrite (BoardAt_CellAt st (r + dr) (c + dc)) in Hloop
    by (first [assumption | lia]).
  cbn [mbind result_bind] in Hloop.
  case_bool_decide as Hnext; [injection Hloop as <-; auto|].
  destruct (SetBoard_spec st (r + dr) (c + dc) player Hwf)
    as (st1 & Hset1 & Hwf1 & _ & _ & _ & Hcell1 & _); [lia | lia |].
  rewrite Hset1 in Hloop. cbn [mbind result_bind] in Hloop.
  destruct (SetBoard_spec st1 r c kEmpty Hwf1)
    as (st2 & Hset2 & Hwf2 & _ & _ & _ & Hcell2 & _); [lia | lia |].
  rewrite Hset2 in Hloop. cbn [mbind result_bind] in Hloop.
  intros r' c' Hi.
  pose proof (IH st2 player dr dc sl sc (r + sl) (c + sc) st' Hwf2 Hp Hloop
                r' c' Hi) as H2.
  rewrite Hcell2 in H2. case_bool_decide; [discriminate H2|].
  rewrite Hcell1 in H2. case_bool_decide; [congruence | exact H2].
Qed.

(** A move from a cell that holds a marble creates no Invalid cell. *)
Lemma Apply_no_new_invalid st move st' :
  wf_board st ->
  is_marble (CellAt st (m_row (m_start move)) (m_column (m_start move))) ->
  Apply move st = Ok st' ->
  forall r c, CellAt st' r c = kInvalid -> CellAt st r c = kInvalid.
Proof.
  intros Hwf Hm Happ.
  destruct (CellAt_in_grid st (m_row (m_start move)) (m_column (m_start move)))
    as [Hr Hc]; [destruct Hm as [Hm | Hm]; rewrite Hm; discriminate|].
  unfold Apply in Happ.
  destruct (bool_decide _ || bool_decide _).
  - unfold _ApplyParallelMove in Happ.
    rewrite (BoardAt_CellAt st _ _ Hwf Hr Hc) in Happ.
    cbn [mbind result_bind] in Happ.
    eapply ApplyParallelMove_loop_no_new_invalid; [exact Hwf | | exact Happ].
    destruct Hm as [Hm | Hm]; rewrite Hm; discriminate.
  - unfold _ApplySingleMove in Happ.
    eapply ApplySingleMove_loop_no_new_invalid; [exact Hwf | | exact Happ].
    discriminate.
Qed.

(** ** Marbles under an accepted move *)

Lemma inline_push_outcome st move :
  wf_board st -> player_ok st ->
  m_row (m_end move)
  = m_row (m_start move) + m_row (Offsets (m_direction move)) ->
  m_column (m_end move)
  = m_column (m_start move) + m_column (Offsets (m_direction move)) ->
  IsValid move st = Ok true ->
  exists st' k, Apply move st = Ok st' /\ push_outcome st st' move k.
Proof.
  intros Hwf Hcp Her Hec Hv.
  destruct (IsValid_true_inv st move Hwf Hcp Hv) as (Hs & He & Hterm & Hown).
  pose proof (IsValid_inline st move Hwf Hterm Hcp Hs He Hown Her Hec) as Hv'.
  assert (line_tests (marble_of (current_player_ st))
            (line_of 6 st (m_row (m_start move)) (m_column (m_start move))
               (m_row (Offsets (m_direction move)))
               (m_column (Offsets (m_direction move)))) = true) as Htests
    by congruence.
  apply line_tests_patterns in Htests;
    [|destruct Hcp as [-> | ->]; auto].
  rewrite marble_of_opponent in Htests by exact Hcp.
  unfold inline_patterns, empty_or_invalid in Htests.
  rewrite !line_at_line_of in Htests by lia.
  change (Z.of_nat 1) with 1 in Htests. change (Z.of_nat 2) with 2 in Htests.
  change (Z.of_nat 3) with 3 in Htests. change (Z.of_nat 4) with 4 in Htests.
  change (Z.of_nat 5) with 5 in Htests.
  set (sr := m_row (m_start move)) in *.
  set (sc := m_column (m_start move)) in *.
  set (dr := m_row (Offsets (m_direction move))) in *.
  set (dc := m_column (Offsets (m_direction move))) in *.
  set (own := marble_of (current_player_ st)) in *.
  set (opp := marble_of (1 - current_player_ st)) in *.
  assert (is_marble own /\ is_marble opp) as [Hmw Hmo].
  { subst own opp. destruct Hcp as [-> | ->]; cbn; unfold is_marble; auto. }
  assert (CellAt st (sr + 0 * dr) (sc + 0 * dc) = own) as H0.
  { rewrite !Z.mul_0_l, !Z.add_0_r. exact Hown. }
  assert (forall k : nat,
            (1 <= k <= 5)%nat ->
            (forall j, 0 <= j < Z.of_nat k ->
               is_marble (CellAt st (sr + j * dr) (sc + j * dc))) ->
            (CellAt st (sr + Z.of_nat k * dr) (sc + Z.of_nat k * dc) = kEmpty
             \/ (CellAt st (sr + Z.of_nat k * dr) (sc + Z.of_nat k * dc)
                 = kInvalid
                 /\ CellAt st (sr + (Z.of_nat k - 1) * dr)
                              (sc + (Z.of_nat k - 1) * dc) = opp)) ->
            exists st' k', Apply move st = Ok st' /\ push_outcome st st' move k')
    as Hcore.
  { intros k Hk Hrun Hstop.
    destruct (inline_push_run st move k Hwf Hcp Her Hec Hk Hrun Hstop)
      as (st' & Happ & Hout).
    exists st', (Z.of_nat k). auto. }
  destruct Htests as
    [H1 | [(H1 & H2) | [(H1 & H2 & H3) | [(H1 & H2 & H3)
    | [(H1 & H2 & H3 & H4) | (H1 & H2 & H3 & H4 & H5)]]]]].
  - apply (Hcore 1%nat); [lia | run_cells | left; exact H1].
  - apply (Hcore 2%nat); [lia | run_cells | left; exact H2].
  - apply (Hcore 3%nat); [lia | run_cells |].
    destruct H3 as [H3 | H3]; [right | left]; auto.
  - apply (Hcore 3%nat); [lia | run_cells | left; exact H3].
  - apply (Hcore 4%nat); [lia | run_cells |].
    destruct H4 as [H4 | H4]; [right | left]; auto.
  - apply (Hcore 5%nat); [lia | run_cells |].
    destruct H5 as [H5 | H5]; [right | left]; auto.
Qed.

Lemma slide_keeps_counts st move :
  wf_board st ->
  0 <= m_row (m_start move) * kNumCols + m_column (m_start move) < kNumCells ->
  (m_row (Offsets (m_direction move))
   <> m_row (m_end move) - m_row (m_start move)
   \/ m_column (Offsets (m_direction move))
      <> m_column (m_end move) - m_column (m_start move)) ->
  exists st',
    Apply move st = Ok st' /\
    (forall s, count_cells s (board_ st') = count_cells s (board_ st)).
Proof.
  intros Hwf Hstart Hslide. unfold Apply.
  assert (bool_decide (m_row (Offsets (m_direction move))
                       <> m_row (m_end move) - m_row (m_start move))
          || bool_decide (m_column (Offsets (m_direction move))
                          <> m_column (m_end move) - m_column (m_start move))
          = true) as ->.
  { apply orb_true_iff. rewrite !bool_decide_eq_true. exact Hslide. }
  unfold _ApplyParallelMove, BoardAt.
  destruct (board_read_ok (board_ st)
              (m_row (m_start move) * kNumCols + m_column (m_start move)))
    as (player & ->).
  { unfold wf_board in Hwf. rewrite Hwf. unfold_consts. lia. }
  cbn [mbind result_bind].
  match goal with
  | |- context [ApplyParallelMove_loop ?n st ?p ?dr ?dc ?sl ?sc ?r ?c] =>
    destruct (ApplyParallelMove_loop_spec n st p dr dc sl sc r c Hwf)
      as (st' & -> & _ & _ & _ & _ & Hcnt & _)
  end.
  exists st'. auto.
Qed.

(** An accepted move never costs the mover a marble and costs the
    opponent at most one. *)
Lemma Apply_valid_marbles st move :
  wf_board st -> player_ok st ->
  IsValid move st = Ok true ->
  exists st',
    Apply move st = Ok st' /\
    count_cells (marble_of (current_player_ st)) (board_ st')
    = count_cells (marble_of (current_player_ st)) (board_ st) /\
    count_cells (marble_of (1 - current_player_ st)) (board_ st)  - 1
    <= count_cells (marble_of (1 - current_player_ st)) (board_ st')
    <= count_cells (marble_of (1 - current_player_ st)) (board_ st).
Proof.
  intros Hwf Hcp Hv.
  destruct (IsValid_true_inv st move Hwf Hcp Hv) as ([Hsr Hsc] & _ & _ & _).
  destruct (decide (m_row (m_end move)
                    = m_row (m_start move) + m_row (Offsets (m_direction move))
                    /\ m_column (m_end move)
                       = m_column (m_start move)
                         + m_column (Offsets (m_direction move))))
    as [[Her Hec] | Hslide].
  - destruct (inline_push_outcome st move Hwf Hcp Her Hec Hv)
      as (st' & k & Happ & _ & _ & _ & Hout).
    exists st'. split; [exact Happ|].
    destruct Hout as [(_ & H1 & H2 & _) | (_ & _ & Hown & Hopp & _)].
    + destruct Hcp as [Hp | Hp]; rewrite Hp;
        [ change (marble_of (1 - 0)) with kPlayer2;
          change (marble_of 0) with kPlayer1
        | change (marble_of (1 - 1)) with kPlayer1;
          change (marble_of 1) with kPlayer2 ]; lia.
    + lia.
  - destruct (slide_keeps_counts st move) as (st' & Happ & Hcnt).
    + exact Hwf.
    + unfold_consts. lia.
    + lia.
    + exists st'. split; [exact Happ|]. rewrite !Hcnt. lia.
Qed.

(** ** Scoring *)

Lemma scan_order_indices :
  scan_order = map cell_of_index (seqZ 0 (kNumRows * kNumCols)).
Proof. reflexivity. Qed.

Lemma count_balls_indices st (n : nat) :
  forall (k : nat) acc,
    (k + n <= length (board_ st))%nat ->
    (length (board_ st) <= 81)%nat ->
    count_balls (map cell_of_index (seqZ (Z.of_nat k) (Z.of_nat n))) st acc
    = Ok (fst acc + count_cells kPlayer1 (take n (drop k (board_ st))),
          snd acc + count_cells kPlayer2 (take n (drop k (board_ st)))).
Proof.
  induction n as [|n IH]; intros k acc Hk Hlen.
  - rewrite seqZ_nil by lia. rewrite take_0. cbn [map count_balls].
    destruct acc as [n1 n2]. unfold count_cells. cbn.
    f_equal. f_equal; lia.
  - rewrite seqZ_cons by lia.
    replace (Z.pred (Z.of_nat (S n))) with (Z.of_nat n) by lia.
    replace (Z.succ (Z.of_nat k)) with (Z.of_nat (S k)) by lia.
    cbn [map count_balls cell_of_index].
    destruct (lookup_lt_is_Some_2 (board_ st) k) as [x Hx]; [lia|].
    assert (BoardAt st (Z.of_nat k / kNumCols) (Z.of_nat k mod kNumCols)
            = Ok x) as ->.
    { unfold BoardAt, board_read.
      replace (Z.of_nat k / kNumCols * kNumCols + Z.of_nat k mod kNumCols)
        with (Z.of_nat k).
      - rewrite bool_decide_true by lia. rewrite Nat2Z.id, Hx. reflexivity.
      - unfold kNumCols. pose proof (Z.div_mod (Z.of_nat k) 9). lia. }
    cbn [mbind result_bind].
    rewrite IH by lia.
    rewrite (drop_S _ _ _ Hx). rewrite firstn_cons. rewrite !count_cells_cons.
    unfold same. f_equal.
    repeat case_bool_decide; subst; try discriminate; cbn [fst snd];
      f_equal; lia.
Qed.

Lemma count_balls_counts st :
  wf_board st ->
  count_balls scan_order st (0, 0)
  = Ok (count_cells kPlayer1 (board_ st), count_cells kPlayer2 (board_ st)).
Proof.
  intros Hwf. unfold wf_board in Hwf.
  rewrite scan_order_indices.
  change (kNumRows * kNumCols) with (Z.of_nat 81).
  change 0 with (Z.of_nat 0) at 1.
  rewrite count_balls_indices by (rewrite Hwf; unfold_consts; lia).
  rewrite drop_0, firstn_all2 by (rewrite Hwf; unfold_consts; lia).
  reflexivity.
Qed.

(** [Returns] while no outcome is set: the two thresholds, then the
    balance of marbles. *)
Lemma Returns_unset st :
  wf_board st -> outcome_ st = kInvalidPlayer ->
  Returns st
  = Ok (let n1 := count_cells kPlayer1 (board_ st) in
        let n2 := count_cells kPlayer2 (board_ st) in
        if bool_decide (n1 <= 14 - kMarblesToWin) then ((-1)%Q, 1%Q)
        else if bool_decide (n2 <= 14 - kMarblesToWin) then (1%Q, (-1)%Q)
        else (times_marble_reward ((14 - n2) - (14 - n1)),
              times_marble_reward (- ((14 - n2) - (14 - n1))))).
Proof.
  intros Hwf Hout. unfold Returns. rewrite Hout.
  rewrite (bool_decide_false (kInvalidPlayer <> kInvalidPlayer)) by tauto.
  cbn [andb]. rewrite count_balls_counts by exact Hwf.
  cbn [mbind result_bind fst snd].
  repeat case_bool_decide; reflexivity.
Qed.

Lemma balance_cases b : -14 <= b <= 14 -> List.In b balances.
Proof.
  intros Hb. apply list_elem_of_In, elem_of_seqZ. lia.
Qed.

Lemma times_marble_reward_exact :
  (marble_reward == times_marble_reward 1)%Q.
Proof. vm_compute; reflexivity. Qed.

(** The product is rounded: three marbles are not worth three times one
    marble, and ten marbles are worth exactly 1. *)
Lemma times_marble_reward_rounds :
  ~ (times_marble_reward 3 == 3 * times_marble_reward 1)%Q /\
  (times_marble_reward 10 == 1)%Q.
Proof. split; vm_compute; [discriminate | reflexivity]. Qed.

Lemma shaping_is_not_a_win b :
  -14 <= b <= 14 -> b <> 10 -> Qeq_bool (times_marble_reward b) 1 = false.
Proof.
  intros Hb Hne.
  assert (forallb (fun b => bool_decide (b = 10)
                            || negb (Qeq_bool (times_marble_reward b) 1))
                  balances = true) as Hall
    by (vm_compute; reflexivity).
  rewrite forallb_forall in Hall.
  specialize (Hall b (balance_cases b Hb)).
  rewrite (bool_decide_false (b = 10)) in Hall by exact Hne.
  cbn [orb] in Hall. apply negb_true_iff in Hall. exact Hall.
Qed.

(** Rounding is symmetric and keeps the shaping values of a game in
    progress within the utilities. *)
Lemma shaping_zero_sum_bounded b :
  -14 <= b <= 14 ->
  (times_marble_reward b + times_marble_reward (- b) == 0)%Q /\
  (-5 <= b <= 5 ->
   (-1 <= times_marble_reward b)%Q /\ (times_marble_reward b <= 1)%Q).
Proof.
  intros Hb.
  assert (forallb
            (fun b =>
               Qeq_bool (times_marble_reward b + times_marble_reward (- b)) 0
               && (negb (bool_decide (-5 <= b <= 5))
                   || (Qle_bool (-1) (times_marble_reward b)
                       && Qle_bool (times_marble_reward b) 1)))
            balances = true) as Hall
    by (vm_compute; reflexivity).
  rewrite forallb_forall in Hall.
  specialize (Hall b (balance_cases b Hb)).
  apply andb_true_iff in Hall as [Hsum Hbound].
  split; [apply Qeq_bool_iff; exact Hsum|].
  intros Hsmall.
  rewrite (bool_decide_true (-5 <= b <= 5)) in Hbound by exact Hsmall.
  cbn [negb orb] in Hbound.
  apply andb_true_iff in Hbound as [Hlo Hhi].
  split; apply Qle_bool_iff; assumption.
Qed.

(** The accepted branch of [DoApplyAction], with the new outcome. *)
Lemma DoApplyAction_valid_eq a st m :
  wf_board st -> player_ok st ->
  ActionToMove a = Ok m -> IsValid m st = Ok true ->
  exists st1 v mine,
    Apply m st = Ok st1 /\ wf_board st1 /\
    outcome_ st1 = outcome_ st /\
    Returns st1 = Ok v /\
    returns_at v (current_player_ st) = Ok mine /\
    DoApplyAction a st
    = Ok (mkState (board_ st1) (1 - current_player_ st)
            (if Qeq_bool mine 1 then current_player_ st else outcome_ st)
            (num_moves_ st + 1)).
Proof.
  intros Hwf Hcp Hm Hv.
  destruct (IsValid_true_inv st m Hwf Hcp Hv) as ([Hsr Hsc] & _ & Hterm & Hown).
  destruct (Apply_spec st m Hwf Hsr Hsc)
    as (st1 & Happ & Hwf1 & Hcp1 & Ho1 & Hn1 & _ & _).
  destruct (Returns_ok st1 Hwf1) as (v & Hret).
  assert (exists mine, returns_at v (current_player_ st) = Ok mine)
    as (mine & Hmine).
  { unfold returns_at. destruct Hcp as [-> | ->]; cbn; eauto. }
  exists st1, v, mine. repeat split; auto.
  unfold DoApplyAction. rewrite Hm; cbn. rewrite Hv, Happ; cbn.
  rewrite Hret; cbn. rewrite Hcp1, Hmine; cbn. rewrite Ho1, Hn1. reflexivity.
Qed.

(** After a move of player [p] who has more than 8 marbles left, the
    test [returns[p] == 1.0] of [DoApplyAction] succeeds exactly when the
    other player is down to 8 marbles or fewer. *)
Lemma mover_wins_iff st p v mine :
  wf_board st -> outcome_ st = kInvalidPlayer ->
  p = 0 \/ p = 1 ->
  14 - kMarblesToWin < count_cells (marble_of p) (board_ st) ->
  count_cells kPlayer1 (board_ st) <= 14 ->
  count_cells kPlayer2 (board_ st) <= 14 ->
  Returns st = Ok v -> returns_at v p = Ok mine ->
  (Qeq_bool mine 1 = true
   <-> count_cells (marble_of (1 - p)) (board_ st) <= 14 - kMarblesToWin).
Proof.
  intros Hwf Hout Hp Hown H1 H2 Hret Hmine.
  rewrite (Returns_unset st Hwf Hout) in Hret. injection Hret as <-.
  cbn zeta in Hmine. unfold kMarblesToWin in *.
  set (n1 := count_cells kPlayer1 (board_ st)) in *.
  set (n2 := count_cells kPlayer2 (board_ st)) in *.
  destruct Hp as [-> | ->].
  - change (marble_of (1 - 0)) with kPlayer2.
    change (marble_of 0) with kPlayer1 in Hown. fold n1 in Hown. fold n2.
    unfold returns_at in Hmine. cbn in Hmine.
    destruct (bool_decide (n1 <= 14 - 6)) eqn:E1;
      [apply bool_decide_eq_true in E1; lia|].
    destruct (bool_decide (n2 <= 14 - 6)) eqn:E2;
      cbn in Hmine; injection Hmine as <-.
    + apply bool_decide_eq_true in E2. split; [intros _; lia | reflexivity].
    + apply bool_decide_eq_false in E2.
      rewrite shaping_is_not_a_win by lia. split; [discriminate | lia].
  - change (marble_of (1 - 1)) with kPlayer1.
    change (marble_of 1) with kPlayer2 in Hown. fold n2 in Hown. fold n1.
    unfold returns_at in Hmine. cbn in Hmine.
    destruct (bool_decide (n1 <= 14 - 6)) eqn:E1;
      cbn in Hmine.
    + injection Hmine as <-. apply bool_decide_eq_true in E1.
      split; [intros _; lia | reflexivity].
    + apply bool_decide_eq_false in E1.
      destruct (bool_decide (n2 <= 14 - 6)) eqn:E2;
        [apply bool_decide_eq_true in E2; lia|].
      cbn in Hmine. injection Hmine as <-.
      rewrite shaping_is_not_a_win by lia. split; [discriminate | lia].
Qed.

(** ** Invariants of a game *)

Lemma mask_of_initial_board r c :
  CellAt NewInitialState r c = kInvalid <-> CellAt mask_state r c = kInvalid.
Proof.
  unfold CellAt. destruct (in_grid r c) eqn:Hg; [|tauto].
  apply in_grid_true in Hg. unfold_consts.
  assert (r = 0 \/ r = 1 \/ r = 2 \/ r = 3 \/ r = 4 \/ r = 5 \/ r = 6
          \/ r = 7 \/ r = 8) as Hr by lia.
  assert (c = 0 \/ c = 1 \/ c = 2 \/ c = 3 \/ c = 4 \/ c = 5 \/ c = 6
          \/ c = 7 \/ c = 8) as Hc by lia.
  destruct Hr as [-> | [-> | [-> | [-> | [-> | [-> | [-> | [-> | ->]]]]]]]];
    destruct Hc as [-> | [-> | [-> | [-> | [-> | [-> | [-> | [-> | ->]]]]]]]];
    vm_compute; split; intros H; first [exact H | discriminate H | reflexivity].
Qed.

Lemma game_inv_init : game_inv NewInitialState.
Proof.
  unfold game_inv.
  split; [reflexivity|]. split; [left; reflexivity|].
  split; [vm_compute; split; discriminate|].
  split; [left; reflexivity|].
  split; [apply mask_of_initial_board|].
  split; [vm_compute; discriminate|]. split; [vm_compute; discriminate|].
  intros _. vm_compute. split; reflexivity.
Qed.

Lemma IsTerminal_false st :
  IsTerminal st = false ->
  outcome_ st = kInvalidPlayer /\ num_moves_ st < kHistoryMax.
Proof.
  unfold IsTerminal. intros H. apply orb_false_iff in H as [H1 H2].
  apply bool_decide_eq_false in H1, H2.
  split; [destruct (decide (outcome_ st = kInvalidPlayer)); tauto | lia].
Qed.

Lemma game_inv_step a st st' :
  game_inv st -> DoApplyAction a st = Ok st' -> game_inv st'.
Proof.
  intros (Hwf & Hcp & Hnum & Hout & Hmask & H1 & H2 & Hlive) Hdo.
  destruct (ActionToMove a) as [m| | |] eqn:Hm;
    try (unfold DoApplyAction in Hdo; rewrite Hm in Hdo; discriminate).
  destruct (IsValid m st) as [[|]| | |] eqn:Hv;
    try (unfold DoApplyAction in Hdo; rewrite Hm in Hdo; cbn in Hdo;
         rewrite Hv in Hdo; discriminate).
  - destruct (IsValid_true_inv st m Hwf Hcp Hv)
      as ([Hsr Hsc] & _ & Hterm & Hown).
    destruct (IsTerminal_false st Hterm) as [Hunset Hlt].
    destruct (Hlive Hunset) as [Hl1 Hl2].
    destruct (DoApplyAction_valid_eq a st m Hwf Hcp Hm Hv)
      as (st1 & v & mine & Happ & Hwf1 & Ho1 & Hret & Hmine & Hdo').
    rewrite Hdo in Hdo'. injection Hdo' as ->.
    destruct (Apply_valid_marbles st m Hwf Hcp Hv)
      as (st1' & Happ' & Hown_cnt & Hopp_cnt).
    rewrite Happ in Happ'. injection Happ' as <-.
    destruct (Apply_spec st m Hwf Hsr Hsc)
      as (st1' & Happ' & _ & _ & _ & _ & _ & Hfwd).
    rewrite Happ in Happ'. injection Happ' as <-.
    assert (is_marble (CellAt st (m_row (m_start m)) (m_column (m_start m))))
      as Hmarble.
    { rewrite Hown. destruct Hcp as [-> | ->]; [left | right]; reflexivity. }
    pose proof (Apply_no_new_invalid st m st1 Hwf Hmarble Happ) as Hback.
    assert (count_cells kPlayer1 (board_ st1) <= 14
            /\ count_cells kPlayer2 (board_ st1) <= 14
            /\ 14 - kMarblesToWin
               < count_cells (marble_of (current_player_ st)) (board_ st1))
      as (Hc1 & Hc2 & Hmine_cnt).
    { destruct Hcp as [Hp | Hp]; rewrite Hp in *;
        [ change (marble_of (1 - 0)) with kPlayer2 in *;
          change (marble_of 0) with kPlayer1 in *
        | change (marble_of (1 - 1)) with kPlayer1 in *;
          change (marble_of 1) with kPlayer2 in * ]; lia. }
    assert (outcome_ st1 = kInvalidPlayer) as Hunset1 by congruence.
    pose proof (mover_wins_iff st1 (current_player_ st) v mine Hwf1 Hunset1
                  Hcp Hmine_cnt Hc1 Hc2 Hret Hmine) as Hwin.
    unfold game_inv. cbn [board_ current_player_ outcome_ num_moves_].
    split; [exact Hwf1|].
    split; [unfold player_ok in *; cbn; lia|].
    split; [lia|].
    split; [destruct (Qeq_bool mine 1); [right; lia | left; exact Hunset]|].
    split.
    { intros r c. change (CellAt st1 r c = kInvalid
                          <-> CellAt mask_state r c = kInvalid).
      rewrite <- Hmask. split; [apply Hback | apply Hfwd].
      destruct Hmarble as [Hx | Hx]; rewrite Hx; discriminate. }
    split; [exact Hc1|]. split; [exact Hc2|].
    intros Hnew.
    destruct (Qeq_bool mine 1) eqn:Htest.
    { exfalso. unfold player_ok, kInvalidPlayer in *. lia. }
    assert (~ count_cells (marble_of (1 - current_player_ st)) (board_ st1)
              <= 14 - kMarblesToWin) as Hopp.
    { intros Hle. apply Hwin in Hle. discriminate Hle. }
    destruct Hcp as [Hp | Hp]; rewrite Hp in *;
      [ change (marble_of (1 - 0)) with kPlayer2 in *;
        change (marble_of 0) with kPlayer1 in *
      | change (marble_of (1 - 1)) with kPlayer1 in *;
        change (marble_of 1) with kPlayer2 in * ]; lia.
  - rewrite (DoApplyAction_invalid a st m Hm Hv) in Hdo.
    injection Hdo as <-.
    unfold game_inv. cbn [board_ current_player_ outcome_ num_moves_].
    split; [exact Hwf|]. split; [exact Hcp|]. split; [exact Hnum|].
    split; [right; reflexivity|].
    split; [exact Hmask|]. split; [exact H1|]. split; [exact H2|].
    intros Hnew. exfalso. unfold player_ok, kInvalidPlayer in *. lia.
Qed.

Lemma reachable_game_inv st : reachable st -> game_inv st.
Proof.
  induction 1 as [|st a st' _ IH Hdo].
  - apply game_inv_init.
  - apply (game_inv_step a st st' IH Hdo).
Qed.

(** The accepted branch of [DoApplyAction] in a game: the outcome is set,
    to the mover, exactly when the move leaves the other player with 8
    marbles or fewer. *)
Lemma DoApplyAction_valid_outcome a st m :
  game_inv st ->
  ActionToMove a = Ok m -> IsValid m st = Ok true ->
  exists st1,
    Apply m st = Ok st1 /\
    DoApplyAction a st
    = Ok (mkState (board_ st1) (1 - current_player_ st)
            (if bool_decide
                  (count_cells (marble_of (1 - current_player_ st))
                     (board_ st1) <= 14 - kMarblesToWin)
             then current_player_ st else kInvalidPlayer)
            (num_moves_ st + 1)).
Proof.
  intros (Hwf & Hcp & Hnum & Hout & Hmask & H1 & H2 & Hlive) Hm Hv.
  destruct (IsValid_true_inv st m Hwf Hcp Hv) as (_ & _ & Hterm & _).
  destruct (IsTerminal_false st Hterm) as [Hunset Hlt].
  destruct (Hlive Hunset) as [Hl1 Hl2].
  destruct (DoApplyAction_valid_eq a st m Hwf Hcp Hm Hv)
    as (st1 & v & mine & Happ & Hwf1 & Ho1 & Hret & Hmine & Hdo).
  destruct (Apply_valid_marbles st m Hwf Hcp Hv)
    as (st1' & Happ' & Hown_cnt & Hopp_cnt).
  rewrite Happ in Happ'. injection Happ' as <-.
  assert (count_cells kPlayer1 (board_ st1) <= 14
          /\ count_cells kPlayer2 (board_ st1) <= 14
          /\ 14 - kMarblesToWin
             < count_cells (marble_of (current_player_ st)) (board_ st1))
    as (Hc1 & Hc2 & Hmine_cnt).
  { destruct Hcp as [Hp | Hp]; rewrite Hp in *;
      [ change (marble_of (1 - 0)) with kPlayer2 in *;
        change (marble_of 0) with kPlayer1 in *
      | change (marble_of (1 - 1)) with kPlayer1 in *;
        change (marble_of 1) with kPlayer2 in * ]; lia. }
  assert (outcome_ st1 = kInvalidPlayer) as Hunset1 by congruence.
  pose proof (mover_wins_iff st1 (current_player_ st) v mine Hwf1 Hunset1
                Hcp Hmine_cnt Hc1 Hc2 Hret Hmine) as Hwin.
  exists st1. split; [exact Happ|]. rewrite Hdo. do 2 f_equal.
  rewrite Hunset.
  destruct (Qeq_bool mine 1) eqn:Htest.
  - rewrite bool_decide_true; [reflexivity|]. apply Hwin. reflexivity.
  - rewrite bool_decide_false; [reflexivity|].
    intros Hle. apply Hwin in Hle. discriminate Hle.
Qed.

(** X3. A legal action never costs the mover a marble and costs the
    opponent at most one: after [DoApplyAction] the board has as many
    marbles of the player who moved as before, and as many of the other
    player or one less. *)
Theorem legal_action_marbles st a :
  wf_board st -> player_ok st -> legal_action st a ->
  exists st',
    DoApplyAction a st = Ok st' /\
    count_cells (marble_of (current_player_ st)) (board_ st')
    = count_cells (marble_of (current_player_ st)) (board_ st) /\
    count_cells (marble_of (1 - current_player_ st)) (board_ st) - 1
    <= count_cells (marble_of (1 - current_player_ st)) (board_ st')
    <= count_cells (marble_of (1 - current_player_ st)) (board_ st).
Proof.
  intros Hwf Hcp (m & Hm & Hv).
  destruct (DoApplyAction_valid_eq a st m Hwf Hcp Hm Hv)
    as (st1 & v & mine & Happ & _ & _ & _ & _ & Hdo).
  destruct (Apply_valid_marbles st m Hwf Hcp Hv)
    as (st1' & Happ' & Hown & Hopp).
  rewrite Happ in Happ'. injection Happ' as <-.
  eexists. split; [exact Hdo|]. cbn [board_]. auto.
Qed.

Lemma legal_action_marbles_witness :
  exists st',
    DoApplyAction 2220 state_edge = Ok st' /\
    count_cells (marble_of (current_player_ state_edge)) (board_ st')
    = count_cells (marble_of (current_player_ state_edge))
        (board_ state_edge) /\
    count_cells (marble_of (1 - current_player_ state_edge))
      (board_ state_edge) - 1
    <= count_cells (marble_of (1 - current_player_ state_edge)) (board_ st')
    <= count_cells (marble_of (1 - current_player_ state_edge))
         (board_ state_edge).
Proof.
  apply (legal_action_marbles state_edge 2220).
  - reflexivity.
  - left; reflexivity.
  - exists move_edge. split; vm_compute; reflexivity.
Defined.

(** X4. In every reachable state each player has at most 14 marbles on
    the board, and as long as no outcome is set each has more than
    14 - kMarblesToWin = 8 of them. *)
Theorem reachable_marble_counts st :
  reachable st ->
  count_cells kPlayer1 (board_ st) <= 14 /\
  count_cells kPlayer2 (board_ st) <= 14 /\
  (outcome_ st = kInvalidPlayer ->
   14 - kMarblesToWin < count_cells kPlayer1 (board_ st) /\
   14 - kMarblesToWin < count_cells kPlayer2 (board_ st)).
Proof.
  intros Hreach.
  destruct (reachable_game_inv st Hreach)
    as (_ & _ & _ & _ & _ & H1 & H2 & Hlive).
  auto.
Qed.

Lemma reachable_marble_counts_witness :
  count_cells kPlayer1 (board_ NewInitialState) <= 14 /\
  count_cells kPlayer2 (board_ NewInitialState) <= 14 /\
  (outcome_ NewInitialState = kInvalidPlayer ->
   14 - kMarblesToWin < count_cells kPlayer1 (board_ NewInitialState) /\
   14 - kMarblesToWin < count_cells kPlayer2 (board_ NewInitialState)).
Proof. apply (reachable_marble_counts NewInitialState). apply reachable_init. Defined.

(** X5. The counter of moves of a reachable state lies between 0 and
    kHistoryMax: [DoApplyAction] counts accepted moves only, and accepts
    none once the ceiling is reached. *)
Theorem reachable_move_counter st :
  reachable st ->
  0 <= num_moves_ st <= kHistoryMax /\
  (num_moves_ st = kHistoryMax -> forall a, ~ legal_action st a).
Proof.
  intros Hreach.
  destruct (reachable_game_inv st Hreach)
    as (Hwf & Hcp & Hnum & _).
  split; [exact Hnum|].
  intros Hfull a (m & Hm & Hv).
  destruct (IsValid_true_inv st m Hwf Hcp Hv) as (_ & _ & Hterm & _).
  destruct (IsTerminal_false st Hterm) as [_ Hlt]. lia.
Qed.

Lemma reachable_move_counter_witness :
  0 <= num_moves_ NewInitialState <= kHistoryMax /\
  (num_moves_ NewInitialState = kHistoryMax ->
   forall a, ~ legal_action NewInitialState a).
Proof. apply (reachable_move_counter NewInitialState). apply reachable_init. Defined.

Lemma IsValid_end_outside st move :
  ~ InGrid (m_end move) -> IsValid move st = Ok false.
Proof.
  unfold InGrid, IsValid. intros Hout.
  repeat (case_bool_decide; cbn [orb]); try reflexivity; lia.
Qed.

Lemma IsValid_terminal st move :
  wf_board st -> IsTerminal st = true ->
  InGrid (m_start move) -> InGrid (m_end move) ->
  IsValid move st = Fatal.
Proof.
  intros Hwf Hterm [Hsr Hsc] [Her Hec].
  unfold IsValid.
  rewrite !(bool_decide_false (_ < 0)) by lia.
  rewrite !(bool_decide_false (_ >= _)) by lia.
  cbn [orb].
  rewrite BoardAt_CellAt by (first [assumption | lia]).
  cbn [mbind result_bind]. unfold CurrentPlayer. rewrite Hterm.
  reflexivity.
Qed.

(** X6. An outcome, once set, is final.  On a reachable state whose
    outcome is set, whatever [DoApplyAction] returns is the state itself;
    and for an id of the action space it either returns the state itself
    (the move has an end outside the grid) or ends in [SpielFatalError]
    (both ends in the grid). *)
Theorem outcome_is_final st a :
  reachable st -> outcome_ st <> kInvalidPlayer ->
  (forall st', DoApplyAction a st = Ok st' -> st' = st) /\
  (0 <= a < kNumCells * kNumActionsPerCell ->
   exists m,
     ActionToMove a = Ok m /\
     DoApplyAction a st
     = if bool_decide (InGrid (m_start m) /\ InGrid (m_end m))
       then Fatal else Ok st).
Proof.
  intros Hreach Hset.
  destruct (reachable_game_inv st Hreach)
    as (Hwf & Hcp & _ & Hout & _).
  destruct Hout as [Hout | Hout]; [contradiction|].
  assert (mkState (board_ st) (current_player_ st) (1 - current_player_ st)
            (num_moves_ st) = st) as Hsame
    by (rewrite <- Hout; destruct st; reflexivity).
  split.
  - intros st' Hdo.
    destruct (ActionToMove a) as [m| | |] eqn:Hm;
      try (unfold DoApplyAction in Hdo; rewrite Hm in Hdo; discriminate).
    destruct (IsValid m st) as [[|]| | |] eqn:Hv;
      try (unfold DoApplyAction in Hdo; rewrite Hm in Hdo; cbn in Hdo;
           rewrite Hv in Hdo; discriminate).
    + destruct (IsValid_true_inv st m Hwf Hcp Hv) as (_ & _ & Hterm & _).
      destruct (IsTerminal_false st Hterm) as [Hunset _]. contradiction.
    + rewrite (DoApplyAction_invalid a st m Hm Hv) in Hdo.
      injection Hdo as <-. exact Hsame.
  - intros Ha.
    assert (IsTerminal st = true) as Hterm.
    { unfold IsTerminal. rewrite (bool_decide_true _ Hset). reflexivity. }
    destruct (ActionToMove_fields a)
      as (row & col & dir & k & _ & _ & _ & _ & Em);
      [unfold_consts; lia|].
    eexists. split; [exact Em|].
    case_bool_decide as Hgrid.
    + destruct Hgrid as [Hs He].
      unfold DoApplyAction. rewrite Em. cbn [mbind result_bind].
      rewrite (IsValid_terminal st _ Hwf Hterm Hs He). reflexivity.
    + rewrite (DoApplyAction_invalid a st _ Em); [rewrite Hsame; reflexivity|].
      destruct (decide (InGrid (m_start (decode_fields row col dir k))))
        as [Hs | Hs]; [|apply IsValid_start_outside; exact Hs].
      apply IsValid_end_outside. intros He. apply Hgrid. split; assumption.
Qed.

Lemma outcome_is_final_witness :
  (forall st',
     DoApplyAction 10 (mkState ABALONE_INIT_CLASSIC 0 1 0) = Ok st' ->
     st' = mkState ABALONE_INIT_CLASSIC 0 1 0) /\
  (0 <= 10 < kNumCells * kNumActionsPerCell ->
   exists m,
     ActionToMove 10 = Ok m /\
     DoApplyAction 10 (mkState ABALONE_INIT_CLASSIC 0 1 0)
     = if bool_decide (InGrid (m_start m) /\ InGrid (m_end m))
       then Fatal else Ok (mkState ABALONE_INIT_CLASSIC 0 1 0)).
Proof.
  apply (outcome_is_final (mkState ABALONE_INIT_CLASSIC 0 1 0) 10).
  - apply (reachable_step NewInitialState 1890).
    + apply reachable_init.
    + vm_compute; reflexivity.
  - vm_compute. discriminate.
Defined.

(** X7. The shape of the board never changes: in every reachable state
    the Invalid cells are exactly those of the mask [VALID_BOARD]. *)
Theorem board_shape_invariant st :
  reachable st ->
  forall r c, CellAt st r c = kInvalid <-> CellAt mask_state r c = kInvalid.
Proof.
  intros Hreach.
  destruct (reachable_game_inv st Hreach) as (_ & _ & _ & _ & Hmask & _).
  exact Hmask.
Qed.

Lemma board_shape_invariant_witness :
  CellAt NewInitialState 0 3 = kInvalid
  <-> CellAt mask_state 0 3 = kInvalid.
Proof.
  apply (board_shape_invariant NewInitialState).
  apply reachable_init.
Defined.

(** X8. The returns of a reachable state respect the utilities the game
    declares: they sum to zero (UtilitySum) and each lies between -1
    (MinUtility) and +1 (MaxUtility). *)
Theorem Returns_zero_sum_bounded st :
  reachable st ->
  exists x y,
    Returns st = Ok (x, y) /\
    (x + y == 0)%Q /\
    (-1 <= x)%Q /\ (x <= 1)%Q /\ (-1 <= y)%Q /\ (y <= 1)%Q.
Proof.
  intros Hreach.
  destruct (reachable_game_inv st Hreach)
    as (Hwf & Hcp & _ & Hout & _ & H1 & H2 & Hlive).
  destruct Hout as [Hunset | Hset].
  - destruct (Hlive Hunset) as [Hl1 Hl2].
    rewrite (Returns_unset st Hwf Hunset). cbn zeta.
    rewrite !bool_decide_false by lia.
    eexists _, _. split; [reflexivity|].
    unfold kMarblesToWin in *.
    set (b := 14 - count_cells kPlayer2 (board_ st)
              - (14 - count_cells kPlayer1 (board_ st))).
    destruct (shaping_zero_sum_bounded b) as [Hsum Hx]; [subst b; lia|].
    destruct (shaping_zero_sum_bounded (- b)) as [_ Hy]; [subst b; lia|].
    destruct Hx as [Hx1 Hx2]; [subst b; lia|].
    destruct Hy as [Hy1 Hy2]; [subst b; lia|].
    repeat split; assumption.
  - unfold Returns. rewrite Hset.
    destruct Hcp as [Hp | Hp]; rewrite Hp; cbn;
      eexists _, _; (split; [reflexivity|]);
      repeat split; vm_compute; congruence.
Qed.

Lemma Returns_zero_sum_bounded_witness :
  exists x y,
    Returns NewInitialState = Ok (x, y) /\
    (x + y == 0)%Q /\
    (-1 <= x)%Q /\ (x <= 1)%Q /\ (-1 <= y)%Q /\ (y <= 1)%Q.
Proof. apply (Returns_zero_sum_bounded NewInitialState). apply reachable_init. Defined.

(** X9. The win by marbles.  In a game, a legal action that leaves the
    other player with 14 - kMarblesToWin = 8 marbles or fewer sets the
    outcome to the mover: the new state is terminal and its returns are
    +1 for the mover and -1 for the other player.  A legal action that
    leaves more sets no outcome. *)
Theorem threshold_win st a :
  reachable st -> legal_action st a ->
  exists st',
    DoApplyAction a st = Ok st' /\
    (count_cells (marble_of (1 - current_player_ st)) (board_ st')
     <= 14 - kMarblesToWin ->
     outcome_ st' = current_player_ st /\
     IsTerminal st' = true /\
     Returns st'
     = Ok (if bool_decide (current_player_ st = 0)
           then (1%Q, (-1)%Q) else ((-1)%Q, 1%Q))) /\
    (14 - kMarblesToWin
     < count_cells (marble_of (1 - current_player_ st)) (board_ st') ->
     outcome_ st' = kInvalidPlayer).
Proof.
  intros Hreach (m & Hm & Hv).
  pose proof (reachable_game_inv st Hreach) as Hinv.
  destruct (DoApplyAction_valid_outcome a st m Hinv Hm Hv)
    as (st1 & Happ & Hdo).
  destruct Hinv as (Hwf & Hcp & _).
  eexists. split; [exact Hdo|].
  cbn [board_ outcome_]. split.
  - intros Hle. rewrite bool_decide_true by exact Hle.
    split; [reflexivity|].
    destruct Hcp as [Hp | Hp]; rewrite Hp; split; reflexivity.
  - intros Hgt. rewrite bool_decide_false by lia. reflexivity.
Qed.

Lemma threshold_win_witness :
  exists st',
    DoApplyAction 1740 NewInitialState = Ok st' /\
    (count_cells (marble_of (1 - current_player_ NewInitialState))
       (board_ st') <= 14 - kMarblesToWin ->
     outcome_ st' = current_player_ NewInitialState /\
     IsTerminal st' = true /\
     Returns st'
     = Ok (if bool_decide (current_player_ NewInitialState = 0)
           then (1%Q, (-1)%Q) else ((-1)%Q, 1%Q))) /\
    (14 - kMarblesToWin
     < count_cells (marble_of (1 - current_player_ NewInitialState))
         (board_ st') ->
     outcome_ st' = kInvalidPlayer).
Proof.
  apply (threshold_win NewInitialState 1740).
  - apply reachable_init.
  - exists move_c5_c6. split; vm_compute; reflexivity.
Defined.

(** X10. Calls on a finished game.  On a terminal state [LegalActions]
    is empty, while [IsValid] asked about a move with both ends in the
    grid ends in [SpielFatalError]: it converts [CurrentPlayer()], then
    [kTerminalPlayerId], with [PlayerToState].  [DoApplyAction] on an
    action that decodes to such a move ends the same way. *)
Theorem terminal_state_calls st :
  wf_board st -> IsTerminal st = true ->
  LegalActions st = Ok [] /\
  forall a m,
    ActionToMove a = Ok m -> InGrid (m_start m) -> InGrid (m_end m) ->
    IsValid m st = Fatal /\ DoApplyAction a st = Fatal.
Proof.
  intros Hwf Hterm. split; [unfold LegalActions; rewrite Hterm; reflexivity|].
  intros a m Hm [Hsr Hsc] [Her Hec].
  assert (IsValid m st = Fatal) as Hv.
  { unfold IsValid.
    rewrite !(bool_decide_false (_ < 0)) by lia.
    rewrite !(bool_decide_false (_ >= _)) by lia.
    cbn [orb].
    rewrite BoardAt_CellAt by (first [assumption | lia]).
    cbn [mbind result_bind]. unfold CurrentPlayer. rewrite Hterm.
    reflexivity. }
  split; [exact Hv|].
  unfold DoApplyAction. rewrite Hm. cbn [mbind result_bind]. rewrite Hv.
  reflexivity.
Qed.

Lemma terminal_state_calls_witness :
  LegalActions (mkState ABALONE_INIT_CLASSIC 0 1 0) = Ok [] /\
  forall a m,
    ActionToMove a = Ok m -> InGrid (m_start m) -> InGrid (m_end m) ->
    IsValid m (mkState ABALONE_INIT_CLASSIC 0 1 0) = Fatal
    /\ DoApplyAction a (mkState ABALONE_INIT_CLASSIC 0 1 0) = Fatal.
Proof.
  apply (terminal_state_calls (mkState ABALONE_INIT_CLASSIC 0 1 0)).
  - reflexivity.
  - reflexivity.
Defined.

(** ** Execution of a slide *)

(** Clears the products by zero that the first position of a walk leaves. *)
Ltac norm0 :=
  repeat rewrite Z.mul_0_l in *; repeat rewrite Z.add_0_r in *.

Section SlideWalk.

Variables (player : CellState) (dr dc sl sc : Z).
Hypothesis player_not_empty : player <> kEmpty.
Hypothesis slide_nonzero : sl <> 0 \/ sc <> 0.

(** The executor's walk over a line that the validator's conditions
    hold for. *)
Lemma ApplyParallelMove_loop_slides n :
  forall st r c,
    wf_board st ->
    (forall i, 0 <= i < Z.of_nat n ->
       (0 <= r + i * sl < kNumRows /\ 0 <= c + i * sc < kNumCols) /\
       CellAt st (r + i * sl) (c + i * sc) = player /\
       (0 <= r + i * sl + dr < kNumRows /\ 0 <= c + i * sc + dc < kNumCols) /\
       CellAt st (r + i * sl + dr) (c + i * sc + dc) = kEmpty) ->
    exists st',
      ApplyParallelMove_loop n st player dr dc sl sc r c = Ok st' /\
      slid st st' player r c sl sc dr dc (Z.of_nat n).
Proof.
  induction n as [|n IH]; intros st r c Hwf Hline.
  { exists st. split; [reflexivity|]. split; [intros i Hi; lia | auto]. }
  destruct (Hline 0) as ([Hr Hc] & Hp0 & [Hdr Hdc] & He0); [lia|].
  norm0.
  cbn [ApplyParallelMove_loop].
  rewrite !(bool_decide_false (_ < 0)) by lia.
  rewrite !(bool_decide_false (_ >= _)) by lia.
  cbn [orb].
  rewrite (BoardAt_CellAt st r c) by assumption.
  cbn [mbind result_bind].
  rewrite (bool_decide_false (CellAt st r c <> player))
    by (intros Hx; apply Hx; exact Hp0).
  rewrite (BoardAt_CellAt st (r + dr) (c + dc)) by assumption.
  cbn [mbind result_bind].
  rewrite (bool_decide_false (CellAt st (r + dr) (c + dc) <> kEmpty))
    by (intros Hx; apply Hx; exact He0).
  destruct (SetBoard_spec st (r + dr) (c + dc) player Hwf Hdr Hdc)
    as (st1 & -> & Hwf1 & _ & _ & _ & Hcell1 & _).
  cbn [mbind result_bind].
  destruct (SetBoard_spec st1 r c kEmpty Hwf1 Hr Hc)
    as (st2 & -> & Hwf2 & _ & _ & _ & Hcell2 & _).
  cbn [mbind result_bind].
  assert (forall r' c',
            CellAt st2 r' c'
            = if bool_decide (r' = r /\ c' = c) then kEmpty
              else if bool_decide (r' = r + dr /\ c' = c + dc) then player
              else CellAt st r' c') as Hcell.
  { intros r' c'. rewrite Hcell2, Hcell1. reflexivity. }
  assert (forall i, 0 <= i < Z.of_nat n ->
            (0 <= r + (i + 1) * sl < kNumRows
             /\ 0 <= c + (i + 1) * sc < kNumCols) /\
            CellAt st (r + (i + 1) * sl) (c + (i + 1) * sc) = player /\
            (0 <= r + (i + 1) * sl + dr < kNumRows
             /\ 0 <= c + (i + 1) * sc + dc < kNumCols) /\
            CellAt st (r + (i + 1) * sl + dr) (c + (i + 1) * sc + dc) = kEmpty)
    as Hrest.
  { intros i Hi. apply Hline. lia. }
  assert (forall i, 0 <= i -> ~ ((i + 1) * sl = 0 /\ (i + 1) * sc = 0))
    as Hstep.
  { intros i Hi [Hx Hy]. destruct slide_nonzero; nia. }
  destruct (IH st2 (r + sl) (c + sc) Hwf2) as (st' & Hloop & Hpos & Hother).
  { intros i Hi. destruct (Hrest i Hi) as (Hg & Hp & Hdg & He).
    replace (r + sl + i * sl) with (r + (i + 1) * sl) by lia.
    replace (c + sc + i * sc) with (c + (i + 1) * sc) by lia.
    split; [exact Hg|]. split; [|split; [exact Hdg|]].
    - rewrite Hcell. rewrite bool_decide_false.
      + case_bool_decide; [reflexivity | exact Hp].
      + intros [Hx Hy]. apply (Hstep i); [lia|]. lia.
    - rewrite Hcell. case_bool_decide; [reflexivity|].
      rewrite bool_decide_false; [exact He|].
      intros [Hx Hy]. apply (Hstep i); [lia|]. lia. }
  exists st'. split; [exact Hloop|].
  assert (forall i, 0 <= i < Z.of_nat n ->
            ~ (r = r + sl + i * sl /\ c = c + sc + i * sc) /\
            ~ (r = r + sl + i * sl + dr /\ c = c + sc + i * sc + dc)) as Hfree0.
  { intros i Hi. split; intros [Hx Hy].
    - apply (Hstep i); [lia|]. lia.
    - destruct (Hrest i Hi) as (_ & _ & _ & He).
      replace (r + (i + 1) * sl + dr) with r in He by lia.
      replace (c + (i + 1) * sc + dc) with c in He by lia.
      congruence. }
  assert (forall i, 0 <= i < Z.of_nat n ->
            ~ (r + dr = r + sl + i * sl /\ c + dc = c + sc + i * sc) /\
            ~ (r + dr = r + sl + i * sl + dr
               /\ c + dc = c + sc + i * sc + dc)) as Hfree1.
  { intros i Hi. split; intros [Hx Hy].
    - destruct (Hrest i Hi) as (_ & Hp & _ & _).
      replace (r + (i + 1) * sl) with (r + dr) in Hp by lia.
      replace (c + (i + 1) * sc) with (c + dc) in Hp by lia.
      congruence.
    - apply (Hstep i); [lia|]. lia. }
  split.
  - intros i Hi. destruct (decide (i = 0)) as [-> | Hne].
    + norm0.
      rewrite (Hother r c Hfree0), (Hother (r + dr) (c + dc) Hfree1).
      rewrite !Hcell. rewrite bool_decide_true by auto.
      split; [reflexivity|].
      rewrite bool_decide_false.
      * rewrite bool_decide_true by auto. reflexivity.
      * intros [Hx Hy].
        replace (r + dr) with r in He0 by lia.
        replace (c + dc) with c in He0 by lia. congruence.
    + destruct (Hpos (i - 1)) as [Hp He]; [lia|].
      replace (r + sl + (i - 1) * sl) with (r + i * sl) in Hp, He by lia.
      replace (c + sc + (i - 1) * sc) with (c + i * sc) in Hp, He by lia.
      auto.
  - intros r' c' Hfree. rewrite Hother.
    + rewrite Hcell.
      destruct (Hfree 0) as [Hf0 Hf1]; [lia|].
      norm0.
      rewrite !bool_decide_false by assumption. reflexivity.
    + intros i Hi. destruct (Hfree (i + 1)) as [Hf0 Hf1]; [lia|].
      replace (r + (i + 1) * sl) with (r + sl + i * sl) in Hf0, Hf1 by lia.
      replace (c + (i + 1) * sc) with (c + sc + i * sc) in Hf0, Hf1 by lia.
      auto.
Qed.

End SlideWalk.

(** [Apply] on a slide that [IsValid] accepts. *)
Lemma valid_slide_slid st move :
  wf_board st -> player_ok st ->
  IsValid move st = Ok true ->
  (m_row (m_end move) - m_row (m_start move)
   <> m_row (Offsets (m_direction move))
   \/ m_column (m_end move) - m_column (m_start move)
      <> m_column (Offsets (m_direction move))) ->
  walk_in_grid move ->
  exists st',
    Apply move st = Ok st' /\
    slid st st' (marble_of (current_player_ st))
      (m_row (m_start move)) (m_column (m_start move))
      (Z.sgn (m_row (m_end move) - m_row (m_start move)))
      (Z.sgn (m_column (m_end move) - m_column (m_start move)))
      (m_row (Offsets (m_direction move)))
      (m_column (Offsets (m_direction move)))
      (Z.max (Z.abs (m_row (m_end move) - m_row (m_start move)) + 1)
             (Z.abs (m_column (m_end move) - m_column (m_start move)) + 1)).
Proof.
  intros Hwf Hcp Hv Hslide Hwalk.
  destruct (IsValid_true_inv st move Hwf Hcp Hv)
    as (Hs & He & Hterm & Hown).
  destruct (IsValid_slide_in_grid st move Hwf Hterm Hcp Hs He Hown Hslide Hwalk)
    as (b & Hb & Hiff).
  assert (slide_legal st move) as (Hrs & Hcs & (d & Hd) & Hall).
  { apply Hiff. congruence. }
  unfold walk_in_grid in Hwalk. cbn zeta in Hall, Hwalk.
  set (vr := m_row (m_end move) - m_row (m_start move)) in *.
  set (vc := m_column (m_end move) - m_column (m_start move)) in *.
  destruct Hs as [Hsr Hsc].
  unfold Apply.
  assert (bool_decide (m_row (Offsets (m_direction move))
                       <> m_row (m_end move) - m_row (m_start move))
          || bool_decide (m_column (Offsets (m_direction move))
                          <> m_column (m_end move) - m_column (m_start move))
          = true) as ->.
  { apply orb_true_iff. rewrite !bool_decide_eq_true. fold vr vc.
    destruct Hslide; [left | right]; congruence. }
  unfold _ApplyParallelMove. fold vr vc.
  rewrite (BoardAt_CellAt st _ _ Hwf Hsr Hsc), Hown.
  cbn [mbind result_bind]. rewrite !clamp_sgn.
  assert (Z.sgn vr <> 0 \/ Z.sgn vc <> 0) as Hnz.
  { pose proof (Offsets_nonzero d) as Hnz. rewrite Hd in Hnz. exact Hnz. }
  assert (marble_of (current_player_ st) <> kEmpty) as Hne.
  { destruct Hcp as [-> | ->]; discriminate. }
  destruct (ApplyParallelMove_loop_slides (marble_of (current_player_ st))
              (m_row (Offsets (m_direction move)))
              (m_column (Offsets (m_direction move)))
              (Z.sgn vr) (Z.sgn vc) Hne Hnz
              (Z.to_nat (Z.max (Z.abs vr) (Z.abs vc) + 1)) st
              (m_row (m_start move)) (m_column (m_start move)) Hwf)
    as (st' & Hloop & Hslid).
  { intros i Hi.
    destruct (Hall i) as (Hp & Hdg & Hde); [lia|].
    split; [apply Hwalk; lia|]. auto. }
  exists st'. split; [exact Hloop|].
  replace (Z.max (Z.abs vr + 1) (Z.abs vc + 1))
    with (Z.of_nat (Z.to_nat (Z.max (Z.abs vr) (Z.abs vc) + 1))) by lia.
  exact Hslid.
Qed.

(** X11. Validator and executor agree on slides.  When [IsValid] accepts
    a slide candidate whose walk stays in the grid, [Apply] moves the
    whole line: every cell of the line ends Empty, every destination
    holds a marble of the mover, and nothing else changes. *)
Theorem accepted_slide_is_executed st move :
  wf_board st -> player_ok st ->
  IsValid move st = Ok true ->
  (m_row (m_end move) - m_row (m_start move)
   <> m_row (Offsets (m_direction move))
   \/ m_column (m_end move) - m_column (m_start move)
      <> m_column (Offsets (m_direction move))) ->
  walk_in_grid move ->
  exists st',
    Apply move st = Ok st' /\
    slid st st' (marble_of (current_player_ st))
      (m_row (m_start move)) (m_column (m_start move))
      (Z.sgn (m_row (m_end move) - m_row (m_start move)))
      (Z.sgn (m_column (m_end move) - m_column (m_start move)))
      (m_row (Offsets (m_direction move)))
      (m_column (Offsets (m_direction move)))
      (Z.max (Z.abs (m_row (m_end move) - m_row (m_start move)) + 1)
             (Z.abs (m_column (m_end move) - m_column (m_start move)) + 1)).
Proof.
  intros Hwf Hcp Hv Hslide Hwalk.
  destruct (valid_slide_slid st move Hwf Hcp Hv Hslide Hwalk)
    as (st' & Happ & Hslid).
  exists st'. auto.
Qed.

Lemma accepted_slide_is_executed_witness :
  exists st',
    Apply move_slide_c5_c4 NewInitialState = Ok st' /\
    slid NewInitialState st' (marble_of (current_player_ NewInitialState))
      (m_row (m_start move_slide_c5_c4)) (m_column (m_start move_slide_c5_c4))
      (Z.sgn (m_row (m_end move_slide_c5_c4)
              - m_row (m_start move_slide_c5_c4)))
      (Z.sgn (m_column (m_end move_slide_c5_c4)
              - m_column (m_start move_slide_c5_c4)))
      (m_row (Offsets (m_direction move_slide_c5_c4)))
      (m_column (Offsets (m_direction move_slide_c5_c4)))
      (Z.max (Z.abs (m_row (m_end move_slide_c5_c4)
                     - m_row (m_start move_slide_c5_c4)) + 1)
             (Z.abs (m_column (m_end move_slide_c5_c4)
                     - m_column (m_start move_slide_c5_c4)) + 1)).
Proof.
  apply (accepted_slide_is_executed NewInitialState move_slide_c5_c4).
  - reflexivity.
  - left; reflexivity.
  - vm_compute; reflexivity.
  - right. cbn. lia.
  - unfold walk_in_grid. cbn. unfold kNumRows, kNumCols. lia.
Defined.

(** ** Text of a move *)

Lemma text_round_trip_all char_signed :
  forallb (text_round_trip char_signed)
          (seqZ 0 (kNumCells * kNumActionsPerCell)) = true.
Proof. destruct char_signed; vm_compute; reflexivity. Qed.

Lemma decoded_text_round_trip char_signed a m :
  0 <= a < kNumCells * kNumActionsPerCell ->
  ActionToMove a = Ok m -> printable m = true ->
  from_string char_signed (to_string m) = Ok (true, m).
Proof.
  intros Ha Hm Hp.
  pose proof (text_round_trip_all char_signed) as Hall.
  rewrite forallb_forall in Hall.
  specialize (Hall a). unfold text_round_trip in Hall.
  rewrite Hm, Hp in Hall.
  destruct (from_string char_signed (to_string m)) as [[[|] m']| | |];
    try (discriminate Hall; apply list_elem_of_In, elem_of_seqZ; lia).
  rewrite bool_decide_eq_true in Hall.
  rewrite Hall; [reflexivity|].
  apply list_elem_of_In, elem_of_seqZ. lia.
Qed.

(** X12. Printing and parsing a move.  For every id of the action space
    whose move names cells of the grid only (both ends and, for a slide,
    the cell next to the start in the direction of the move),
    [from_string] applied to the text [to_string] gives accepts it and
    returns the move itself, whether [char] is signed or not. *)
Theorem to_string_from_string char_signed a m :
  0 <= a < kNumCells * kNumActionsPerCell ->
  ActionToMove a = Ok m -> printable m = true ->
  ActionToString a = Ok (to_string m) /\
  from_string char_signed (to_string m) = Ok (true, m).
Proof.
  intros Ha Hm Hp. split.
  - unfold ActionToString. rewrite Hm. reflexivity.
  - apply (decoded_text_round_trip char_signed a m Ha Hm Hp).
Qed.

Lemma to_string_from_string_witness :
  ActionToString 1747 = Ok (to_string move_slide_c5_c4) /\
  from_string true (to_string move_slide_c5_c4) = Ok (true, move_slide_c5_c4).
Proof.
  apply (to_string_from_string true 1747 move_slide_c5_c4).
  - unfold kNumCells, kNumActionsPerCell, kNumRows, kNumCols,
      Direction_Last, kNumActionsPerDirection. lia.
  - reflexivity.
  - reflexivity.
Defined.

(** A move the validator accepts names cells of the grid only. *)
Lemma IsValid_true_printable st move :
  wf_board st -> player_ok st ->
  IsValid move st = Ok true -> printable move = true.
Proof.
  intros Hwf Hcp Hv.
  destruct (IsValid_true_inv st move Hwf Hcp Hv)
    as ([Hsr Hsc] & [Her Hec] & Hterm & Hown).
  unfold printable.
  assert (in_grid (m_row (m_start move)) (m_column (m_start move)) = true)
    as -> by (apply in_grid_true; auto).
  assert (in_grid (m_row (m_end move)) (m_column (m_end move)) = true)
    as -> by (apply in_grid_true; auto).
  cbn [andb].
  destruct (bool_decide (m_row (Offsets (m_direction move))
                         <> m_row (m_end move) - m_row (m_start move))
            || bool_decide (m_column (Offsets (m_direction move))
                            <> m_column (m_end move)
                               - m_column (m_start move))) eqn:Hslide;
    [|reflexivity].
  cbn [negb orb].
  unfold IsValid in Hv.
  rewrite !(bool_decide_false (_ < 0)) in Hv by lia.
  rewrite !(bool_decide_false (_ >= _)) in Hv by lia.
  cbn [orb] in Hv.
  rewrite BoardAt_CellAt in Hv by assumption.
  rewrite Hown in Hv. cbn [mbind result_bind] in Hv.
  rewrite CurrentPlayer_active in Hv by exact Hterm.
  rewrite PlayerToState_marble in Hv by exact Hcp.
  cbn [mbind result_bind] in Hv.
  rewrite (bool_decide_false (_ <> _)) in Hv by tauto.
  rewrite Hslide in Hv.
  unfold _IsValidSlide in Hv.
  rewrite BoardAt_CellAt in Hv by assumption.
  rewrite Hown in Hv. cbn [mbind result_bind] in Hv.
  repeat match type of Hv with
  | (if ?b then Ok false else _) = _ =>
      destruct b eqn:?; [discriminate|]
  end.
  match type of Hv with
  | IsValidSlide_loop ?n _ _ _ _ _ _ _ = _ =>
      destruct n as [|n'] eqn:Hn; [lia|]
  end.
  cbn [IsValidSlide_loop] in Hv.
  rewrite (BoardAt_CellAt st (m_row (m_start move))
             (m_column (m_start move))) in Hv by assumption.
  cbn [mbind result_bind] in Hv.
  repeat match type of Hv with
  | (if ?b then Ok false else _) = _ =>
      destruct b eqn:?; [discriminate|]
  end.
  apply in_grid_true.
  repeat match goal with
  | H : _ || _ = false |- _ => apply orb_false_iff in H as [? ?]
  | H : bool_decide _ = false |- _ => apply bool_decide_eq_false in H
  end.
  lia.
Qed.

(** X13. The text of a legal action parses back to its move: on a state
    with a player to move, for every id of the action space whose move
    [IsValid] accepts, [ActionToString] returns a text on which
    [from_string] returns that move. *)
Theorem legal_action_text st char_signed a :
  wf_board st -> player_ok st ->
  0 <= a < kNumCells * kNumActionsPerCell ->
  legal_action st a ->
  exists text m,
    ActionToString a = Ok text /\ ActionToMove a = Ok m /\
    from_string char_signed text = Ok (true, m).
Proof.
  intros Hwf Hcp Ha (m & Hm & Hv).
  exists (to_string m), m.
  split; [unfold ActionToString; rewrite Hm; reflexivity|].
  split; [exact Hm|].
  apply (decoded_text_round_trip char_signed a m Ha Hm).
  apply (IsValid_true_printable st m Hwf Hcp Hv).
Qed.

Lemma legal_action_text_witness :
  exists text m,
    ActionToString 1740 = Ok text /\ ActionToMove 1740 = Ok m /\
    from_string false text = Ok (true, m).
Proof.
  apply (legal_action_text NewInitialState false 1740).
  - reflexivity.
  - left; reflexivity.
  - unfold kNumCells, kNumActionsPerCell, kNumRows, kNumCols,
      Direction_Last, kNumActionsPerDirection. lia.
  - exists move_c5_c6. split; vm_compute; reflexivity.
Defined.

Lemma parse_coordinate_Some letter digit p :
  parse_coordinate letter digit = Some p -> InGrid p.
Proof.
  unfold parse_coordinate, InGrid.
  destruct (_ || _) eqn:Hout; [discriminate|].
  injection 1 as <-. cbn.
  rewrite !orb_false_iff, !bool_decide_eq_false in Hout. lia.
Qed.

Lemma find_direction_Some dirs vl vc d :
  find_direction dirs vl vc = Some d ->
  m_row (Offsets d) = vl /\ m_column (Offsets d) = vc.
Proof.
  induction dirs as [|dir dirs IH]; [discriminate|].
  cbn [find_direction].
  destruct (_ && _) eqn:Hhit; [|exact IH].
  injection 1 as <-.
  rewrite andb_true_iff, !bool_decide_eq_true in Hhit. lia.
Qed.

Lemma string_length_chars s :
  String.length s = length (String.list_ascii_of_string s).
Proof. induction s as [|a s IH]; cbn; [reflexivity | f_equal; exact IH]. Qed.

(** X14. What [from_string] accepts.  A text whose length is neither 4
    nor 6 is rejected.  A move returned with the flag true has both ends
    in the grid; from a text of 4 characters it is an in-line move (its
    end is its start plus the offset of its direction), from a text of 6
    characters its two ends are at most two steps apart. *)
Theorem from_string_accepts char_signed s :
  (String.length s <> 4%nat -> String.length s <> 6%nat ->
   from_string char_signed s = Ok (false, Move_default)) /\
  (forall m,
     from_string char_signed s = Ok (true, m) ->
     (String.length s = 4%nat \/ String.length s = 6%nat) /\
     InGrid (m_start m) /\ InGrid (m_end m) /\
     (String.length s = 4%nat ->
      m_row (m_end m) = m_row (m_start m) + m_row (Offsets (m_direction m)) /\
      m_column (m_end m)
      = m_column (m_start m) + m_column (Offsets (m_direction m))) /\
     (String.length s = 6%nat ->
      Z.abs (m_row (m_end m) - m_row (m_start m)) <= 2 /\
      Z.abs (m_column (m_end m) - m_column (m_start m)) <= 2)).
Proof.
  rewrite !string_length_chars. unfold from_string.
  set (chars := String.list_ascii_of_string s).
  split.
  - intros H4 H6. rewrite !bool_decide_true by assumption. reflexivity.
  - intros m Hm.
    destruct (bool_decide (length chars <> 4%nat)
              && bool_decide (length chars <> 6%nat)) eqn:Hlen;
      [discriminate|].
    assert (length chars = 4%nat \/ length chars = 6%nat) as Hlen'.
    { apply andb_false_iff in Hlen as [H | H];
        apply bool_decide_eq_false in H;
        [left | right];
        destruct (decide (length chars = 4%nat));
        destruct (decide (length chars = 6%nat)); tauto. }
    split; [exact Hlen'|].
    destruct (lower_all _) as [cs| | |]; try discriminate.
    cbn [mbind result_bind] in Hm.
    destruct (parse_coordinate (nth 0 cs 0) (nth 1 cs 0)) as [start|] eqn:Hs;
      [|discriminate].
    destruct (parse_coordinate (nth 2 cs 0) (nth 3 cs 0)) as [end_|] eqn:He;
      [|discriminate].
    apply parse_coordinate_Some in Hs, He.
    case_bool_decide as H4.
    + destruct (find_direction _ _ _) as [dir|] eqn:Hd; [|discriminate].
      injection Hm as <-. cbn.
      apply find_direction_Some in Hd.
      split; [exact Hs|]. split; [exact He|].
      split; [intros _; lia | intros H6; lia].
    + case_bool_decide as Hfar; [discriminate|].
      destruct (parse_coordinate (nth 4 cs 0) (nth 5 cs 0)) as [third|];
        [|discriminate].
      destruct (find_direction _ _ _) as [dir|]; [|discriminate].
      destruct (_ || _); injection Hm as <-; cbn;
        (split; [assumption|]); (split; [assumption|]);
        (split; [intros H4'; contradiction | intros _; lia]).
Qed.

Lemma from_string_accepts_witness :
  (String.length (to_string move_c5_c6) <> 4%nat ->
   String.length (to_string move_c5_c6) <> 6%nat ->
   from_string false (to_string move_c5_c6) = Ok (false, Move_default)) /\
  (forall m,
     from_string false (to_string move_c5_c6) = Ok (true, m) ->
     (String.length (to_string move_c5_c6) = 4%nat
      \/ String.length (to_string move_c5_c6) = 6%nat) /\
     InGrid (m_start m) /\ InGrid (m_end m) /\
     (String.length (to_string move_c5_c6) = 4%nat ->
      m_row (m_end m) = m_row (m_start m) + m_row (Offsets (m_direction m)) /\
      m_column (m_end m)
      = m_column (m_start m) + m_column (Offsets (m_direction m))) /\
     (String.length (to_string move_c5_c6) = 6%nat ->
      Z.abs (m_row (m_end m) - m_row (m_start m)) <= 2 /\
      Z.abs (m_column (m_end m) - m_column (m_start m)) <= 2)).
Proof. apply (from_string_accepts false (to_string move_c5_c6)). Defined.

(** ** Encoding an arbitrary move *)

Lemma ActionToMove_of_fields row col dir k :
  0 <= row < kNumRows -> 0 <= col < kNumCols ->
  0 <= k < kNumActionsPerDirection ->
  ActionToMove (((row * kNumCols + col) * Direction_Last + dir_index dir)
                * kNumActionsPerDirection + k)
  = Ok (decode_fields row col dir k).
Proof.
  intros Hr Hc Hk.
  assert (0 <= dir_index dir < 6) as Hd by (destruct dir; cbn; lia).
  destruct (ActionToMove_fields
              (((row * kNumCols + col) * Direction_Last + dir_index dir)
               * kNumActionsPerDirection + k))
    as (row' & col' & dir' & k' & Hr' & Hc' & Hk' & Ea & Em);
    [unfold_consts; lia|].
  rewrite Em.
  assert (0 <= dir_index dir' < 6) as Hd' by (destruct dir'; cbn; lia).
  unfold_consts.
  assert (k' = k /\ dir_index dir' = dir_index dir /\ col' = col /\ row' = row)
    as (-> & Hdir & -> & ->) by lia.
  assert (dir' = dir) as -> by (destruct dir, dir'; cbn in Hdir; congruence).
  reflexivity.
Qed.

(** The subtype [MoveToAction] settles on. *)
Lemma MoveToAction_subtype move :
  exists k,
    0 <= k < kNumActionsPerDirection /\
    MoveToAction move
    = ((m_row (m_start move) * kNumCols + m_column (m_start move))
       * Direction_Last + dir_index (m_direction move))
      * kNumActionsPerDirection + k /\
    (decode_fields (m_row (m_start move)) (m_column (m_start move))
       (m_direction move) k <> move ->
     k = 0).
Proof.
  destruct move as [dir [sr sc] [er ec]].
  unfold MoveToAction, decode_fields, kNumActionsPerDirection.
  cbn [m_start m_end m_direction m_row m_column].
  destruct (bool_decide (sr + m_row (Offsets dir) <> er)
            || bool_decide (sc + m_column (Offsets dir) <> ec)) eqn:Hs.
  2:{ exists 0. split; [lia|]. split; [unfold_consts; lia|]. auto. }
  repeat match goal with
  | |- context [if ?b && ?c then _ else _] => destruct (b && c) eqn:?
  end;
  [ exists 1 | exists 2 | exists 3 | exists 4 | exists 0 ];
  (split; [lia|]); (split; [unfold_consts; lia|]);
  try (intros _; reflexivity);
  intros Hne; exfalso; apply Hne; cbn;
  repeat match goal with
  | H : _ && _ = true |- _ => apply andb_true_iff in H as [? ?]
  | H : bool_decide _ = true |- _ => apply bool_decide_eq_true in H
  end;
  match goal with
  | |- context [bool_decide (3 <= ?k)] =>
      destruct (bool_decide (3 <= k)) eqn:Hk3;
      [apply bool_decide_eq_true in Hk3 | apply bool_decide_eq_false in Hk3];
      try lia
  end;
  do 2 f_equal; lia.
Qed.

(** X16. Encoding any move.  A move whose start is a cell of the grid
    encodes to an id of the action space.  Decoding that id gives a move
    with the same start and direction; it is the move itself or, when the
    move has none of the five shapes of the codec, the in-line step from
    its start. *)
Theorem MoveToAction_decodes move :
  InGrid (m_start move) ->
  0 <= MoveToAction move < kNumCells * kNumActionsPerCell /\
  exists m',
    ActionToMove (MoveToAction move) = Ok m' /\
    m_start m' = m_start move /\ m_direction m' = m_direction move /\
    (m' = move \/
     m_end m'
     = mkCoordinate
         (m_row (m_start move) + m_row (Offsets (m_direction move)))
         (m_column (m_start move) + m_column (Offsets (m_direction move)))).
Proof.
  intros [Hr Hc].
  destruct (MoveToAction_subtype move) as (k & Hk & Heq & Hshape).
  assert (0 <= dir_index (m_direction move) < 6) as Hd
    by (destruct (m_direction move); cbn; lia).
  split; [rewrite Heq; unfold_consts; lia|].
  exists (decode_fields (m_row (m_start move)) (m_column (m_start move))
            (m_direction move) k).
  split; [rewrite Heq; apply ActionToMove_of_fields; assumption|].
  split; [destruct move as [d [sr sc] e]; reflexivity|].
  split; [reflexivity|].
  destruct (decide (decode_fields (m_row (m_start move))
                      (m_column (m_start move)) (m_direction move) k = move))
    as [Hsame | Hdiff]; [left; exact Hsame|].
  right. rewrite (Hshape Hdiff). unfold decode_fields. cbn.
  rewrite (bool_decide_false (3 <= 0)) by lia. f_equal; lia.
Qed.

Lemma MoveToAction_decodes_witness :
  0 <= MoveToAction move_wrap < kNumCells * kNumActionsPerCell /\
  exists m',
    ActionToMove (MoveToAction move_wrap) = Ok m' /\
    m_start m' = m_start move_wrap /\
    m_direction m' = m_direction move_wrap /\
    (m' = move_wrap \/
     m_end m'
     = mkCoordinate
         (m_row (m_start move_wrap)
          + m_row (Offsets (m_direction move_wrap)))
         (m_column (m_start move_wrap)
          + m_column (Offsets (m_direction move_wrap)))).
Proof.
  apply (MoveToAction_decodes move_wrap).
  unfold InGrid. cbn. unfold kNumRows, kNumCols. lia.
Defined.

(** ** A slide written from either end *)

Lemma text_far_end_all char_signed :
  forallb (text_far_end char_signed)
          (seqZ 0 (kNumCells * kNumActionsPerCell)) = true.
Proof. destruct char_signed; vm_compute; reflexivity. Qed.

(** X15. The line of a slide can be written from either end.  For every
    id of the action space that decodes to a slide, the text of the same
    line taken from its other end (when that text names cells of the grid
    only) is accepted by [from_string], which swaps the ends back and
    returns the move of the id. *)
Theorem slide_text_from_far_end char_signed a m :
  0 <= a < kNumCells * kNumActionsPerCell ->
  ActionToMove a = Ok m ->
  is_slide m = true -> printable (reversed_line m) = true ->
  from_string char_signed (to_string (reversed_line m)) = Ok (true, m).
Proof.
  intros Ha Hm Hs Hp.
  pose proof (text_far_end_all char_signed) as Hall.
  rewrite forallb_forall in Hall.
  specialize (Hall a). unfold text_far_end in Hall.
  rewrite Hm, Hs, Hp in Hall. cbn [andb] in Hall.
  assert (List.In a (seqZ 0 (kNumCells * kNumActionsPerCell))) as Hin
    by (apply list_elem_of_In, elem_of_seqZ; lia).
  specialize (Hall Hin).
  destruct (from_string char_signed (to_string (reversed_line m)))
    as [[[|] m']| | |]; try discriminate Hall.
  apply bool_decide_eq_true in Hall. rewrite Hall. reflexivity.
Qed.

Lemma slide_text_from_far_end_witness :
  from_string true (to_string (reversed_line move_slide_c5_c4))
  = Ok (true, move_slide_c5_c4).
Proof.
  apply (slide_text_from_far_end true 1747 move_slide_c5_c4).
  - unfold kNumCells, kNumActionsPerCell, kNumRows, kNumCols,
      Direction_Last, kNumActionsPerDirection. lia.
  - reflexivity.
  - reflexivity.
  - reflexivity.
Defined.

(** ** What a legal action does to the board *)

(** X17. A legal action moves a marble.  On a state with a player to
    move, for every id of the action space whose move [IsValid] accepts,
    the start cell of the move holds a marble of the mover before
    [DoApplyAction] and is Empty after it, and the next cell in the
    direction of the move holds a marble of the mover after it. *)
Theorem legal_action_moves_marble st a m :
  wf_board st -> player_ok st ->
  0 <= a < kNumCells * kNumActionsPerCell ->
  ActionToMove a = Ok m -> IsValid m st = Ok true ->
  exists st',
    DoApplyAction a st = Ok st' /\
    CellAt st (m_row (m_start m)) (m_column (m_start m))
    = marble_of (current_player_ st) /\
    CellAt st' (m_row (m_start m)) (m_column (m_start m)) = kEmpty /\
    CellAt st' (m_row (m_start m) + m_row (Offsets (m_direction m)))
               (m_column (m_start m) + m_column (Offsets (m_direction m)))
    = marble_of (current_player_ st).
Proof.
  intros Hwf Hcp Ha Hm Hv.
  destruct (IsValid_true_inv st m Hwf Hcp Hv) as (Hs & He & Hterm & Hown).
  destruct (DoApplyAction_valid_eq a st m Hwf Hcp Hm Hv)
    as (st1 & v & mine & Happ & _ & _ & _ & _ & Hdo).
  eexists. split; [exact Hdo|]. split; [exact Hown|].
  change (CellAt st1 (m_row (m_start m)) (m_column (m_start m)) = kEmpty /\
          CellAt st1 (m_row (m_start m) + m_row (Offsets (m_direction m)))
            (m_column (m_start m) + m_column (Offsets (m_direction m)))
          = marble_of (current_player_ st)).
  destruct (decide (m_row (m_end m)
                    = m_row (m_start m) + m_row (Offsets (m_direction m))
                    /\ m_column (m_end m)
                       = m_column (m_start m)
                         + m_column (Offsets (m_direction m))))
    as [[Her Hec] | Hslide].
  - destruct (inline_push_outcome st m Hwf Hcp Her Hec Hv)
      as (st1' & k & Happ' & Hk & Hrun & _ & Hout).
    rewrite Happ in Happ'. injection Happ' as <-.
    assert (marble_of (1 - current_player_ st)
            <> marble_of (current_player_ st)) as Hne
      by (destruct Hcp as [-> | ->]; discriminate).
    destruct Hout as [(_ & _ & _ & Hfirst & Hshift & _)
                     | (_ & Hfront & _ & _ & _ & Hfirst & Hshift & _)].
    + split; [exact Hfirst|].
      specialize (Hshift 1). norm0.
      replace (m_row (m_start m) + 1 * m_row (Offsets (m_direction m)))
        with (m_row (m_start m) + m_row (Offsets (m_direction m)))
        in Hshift by lia.
      replace (m_column (m_start m) + 1 * m_column (Offsets (m_direction m)))
        with (m_column (m_start m) + m_column (Offsets (m_direction m)))
        in Hshift by lia.
      change (1 - 1) with 0 in Hshift. norm0.
      rewrite Hshift by lia. exact Hown.
    + assert (k <> 1) as Hk1.
      { intros ->. change (1 - 1) with 0 in Hfront. norm0. congruence. }
      split; [exact Hfirst|].
      specialize (Hshift 1).
      replace (m_row (m_start m) + 1 * m_row (Offsets (m_direction m)))
        with (m_row (m_start m) + m_row (Offsets (m_direction m)))
        in Hshift by lia.
      replace (m_column (m_start m) + 1 * m_column (Offsets (m_direction m)))
        with (m_column (m_start m) + m_column (Offsets (m_direction m)))
        in Hshift by lia.
      change (1 - 1) with 0 in Hshift. norm0.
      rewrite Hshift by lia. exact Hown.
  - destruct (ActionToMove_fields a)
      as (row & col & dir & k & _ & _ & Hk & _ & Em);
      [unfold_consts; lia|].
    assert (m = decode_fields row col dir k) as Hdec by congruence.
    assert (walk_in_grid m) as Hwalk.
    { rewrite Hdec. apply decoded_walk_in_grid; [exact Hk | |];
        rewrite <- Hdec; assumption. }
    destruct (valid_slide_slid st m Hwf Hcp Hv) as (st1' & Happ' & Hpos & _);
      [lia | exact Hwalk |].
    rewrite Happ in Happ'. injection Happ' as <-.
    destruct (Hpos 0) as [Hp0 Hd0]; [lia|]. norm0. auto.
Qed.

Lemma legal_action_moves_marble_witness :
  exists st',
    DoApplyAction 1740 NewInitialState = Ok st' /\
    CellAt NewInitialState (m_row (m_start move_c5_c6))
      (m_column (m_start move_c5_c6))
    = marble_of (current_player_ NewInitialState) /\
    CellAt st' (m_row (m_start move_c5_c6)) (m_column (m_start move_c5_c6))
    = kEmpty /\
    CellAt st'
      (m_row (m_start move_c5_c6) + m_row (Offsets (m_direction move_c5_c6)))
      (m_column (m_start move_c5_c6)
       + m_column (Offsets (m_direction move_c5_c6)))
    = marble_of (current_player_ NewInitialState).
Proof.
  apply (legal_action_moves_marble NewInitialState 1740 move_c5_c6).
  - reflexivity.
  - left; reflexivity.
  - unfold kNumCells, kNumActionsPerCell, kNumRows, kNumCols,
      Direction_Last, kNumActionsPerDirection. lia.
  - reflexivity.
  - vm_compute; reflexivity.
Defined.
